(** * Tempo Strike: hit judgement, activation, scoring and hand state

    A shallow embedding of the gameplay logic of the repository:
    - [src/index.tsx], the single-file build (types, constants, demo chart,
      hand-state estimator, [GameScene]'s per-frame update, [App]'s score
      handlers);
    - [src/App.tsx], [src/constants.ts] and the hook [useMediaPipe]
      (the unnamed source part that [App.tsx] imports from [./hooks]), the
      split build of the same game.

    JavaScript numbers are modelled as real numbers ([R]) where the code does
    arithmetic on times and coordinates, and as integers ([Z]) for the score
    counters, which only ever hold integers.  The note objects of the chart
    are shared between the chart, the scene's state and its active list:
    they live in one list, and the active list holds indices into it.
    React queues the state updates of a batch and runs them, each cell's in
    call order, when [App] next renders; a [setMultiplier] that sits inside
    a [setCombo] updater is therefore carried out by that render, after the
    direct calls of the batch.  A frame's updates and zero-delay timers are
    done before the next frame.
    Rendering code (lights, camera shake, meshes, canvas drawing) is left
    out: it reads the state below and never writes it. *)

From Stdlib Require Import Reals Lra ZArith Lia List String Sorted.
From Stdlib Require Import DecimalString.
From stdpp Require Import base list sorting.
Import ListNotations.

Open Scope R_scope.

(* ================================================================== *)
(** * three.js [Vector3] *)
(* ================================================================== *)

Record Vector3 := mkVector3 { vx : R; vy : R; vz : R }.

Module Vec.
(** [v.length()] *)
Definition length (v : Vector3) : R :=
  sqrt (vx v * vx v + vy v * vy v + vz v * vz v).

(** [a.distanceToSquared(b)] and [a.distanceTo(b)] *)
Definition distanceToSquared (a b : Vector3) : R :=
  let dx := vx a - vx b in
  let dy := vy a - vy b in
  let dz := vz a - vz b in
  dx * dx + dy * dy + dz * dz.

Definition distanceTo (a b : Vector3) : R := sqrt (distanceToSquared a b).

(** [v.multiplyScalar(s)], [v.divideScalar(s)] (three.js multiplies by [1 / s]) *)
Definition multiplyScalar (v : Vector3) (s : R) : Vector3 :=
  mkVector3 (vx v * s) (vy v * s) (vz v * s).

Definition divideScalar (v : Vector3) (s : R) : Vector3 :=
  multiplyScalar v (1 / s).

(** [v.normalize()] is [v.divideScalar(v.length() || 1)] *)
Definition normalize (v : Vector3) : Vector3 :=
  divideScalar v (if Req_dec_T (length v) 0 then 1 else length v).

Definition dot (a b : Vector3) : R :=
  vx a * vx b + vy a * vy b + vz a * vz b.

(** [target.subVectors(a, b)] *)
Definition subVectors (a b : Vector3) : Vector3 :=
  mkVector3 (vx a - vx b) (vy a - vy b) (vz a - vz b).

(** [target.lerpVectors(v1, v2, alpha)] *)
Definition lerpVectors (v1 v2 : Vector3) (alpha : R) : Vector3 :=
  mkVector3 (vx v1 + (vx v2 - vx v1) * alpha)
            (vy v1 + (vy v2 - vy v1) * alpha)
            (vz v1 + (vz v2 - vz v1) * alpha).
End Vec.

(* ================================================================== *)
(** * JavaScript array helpers *)
(* ================================================================== *)

(** JavaScript's [<] and [>] on numbers, as booleans. *)
Definition js_lt (x y : R) : bool := if Rlt_dec x y then true else false.
Definition js_gt (x y : R) : bool := if Rgt_dec x y then true else false.
Definition js_le (x y : R) : bool := if Rle_dec x y then true else false.

(** [arr[k]] for a numeric [k]: [None] stands for [undefined]. *)
Definition js_index {A : Type} (arr : list A) (k : Z) : option A :=
  if (k <? 0)%Z then None else arr !! Z.to_nat k.

(** [Array.prototype.sort(compareFn)]: a stable sort.  An element [x] that
    came first in the array stays before [y] unless [compareFn(y, x) < 0]. *)
Fixpoint sort_insert {A : Type} (compareFn : A -> A -> R) (x : A) (sorted : list A)
  : list A :=
  match sorted with
  | [] => [x]
  | y :: rest =>
      if Rlt_dec (compareFn y x) 0 then y :: sort_insert compareFn x rest
      else x :: y :: rest
  end.

Fixpoint Array_sort {A : Type} (compareFn : A -> A -> R) (arr : list A) : list A :=
  match arr with
  | [] => []
  | x :: rest => sort_insert compareFn x (Array_sort compareFn rest)
  end.

(** The template literal [`note-${n}`]. *)
Definition note_id (n : nat) : string :=
  ("note-" ++ NilEmpty.string_of_uint (Nat.to_uint n))%string.

(* ================================================================== *)
(** * Types shared by both builds *)
(* ================================================================== *)

Inductive GameStatus := LOADING | IDLE | PLAYING | GAME_OVER | VICTORY.

(** [type HandType = 'left' | 'right'] *)
Inductive HandType := HandLeft | HandRight.

Inductive CutDirection := UP | DOWN | LEFT | RIGHT | ANY.

(** A landmark of the hand tracker: normalised image coordinates. *)
Record Landmark := mkLandmark { lx : R; ly : R; lz : R }.

(** One detected hand of a [HandLandmarkerResult]: [landmarks[i]] and
    [handedness[i]]; the latter is [None] when the handedness entry or its
    first classification is missing, else its [categoryName]. *)
Record Detection := mkDetection {
  landmarks : list Landmark;
  handedness : option string
}.

(** [handPositionsRef.current] *)
Record HandPositions := mkHandPositions {
  left : option Vector3;
  right : option Vector3;
  lastLeft : option Vector3;
  lastRight : option Vector3;
  leftVelocity : Vector3;
  rightVelocity : Vector3;
  leftGripping : bool;
  rightGripping : bool;
  lastTimestamp : R
}.

(** The initial value of the ref. *)
Definition initialHandPositions : HandPositions :=
  mkHandPositions None None None None
    (mkVector3 0 0 0) (mkVector3 0 0 0) false false 0.

(** The state of the [App] component: its [useState] cells, the value of
    [multiplier] that the handlers in use closed over (they are rebuilt by
    [useCallback] when a render sees a new [multiplier]), the number of
    [setTimeout(() => endGame(false), 0)] callbacks queued and not yet run,
    and what the queued [setCombo] updaters of [handleNoteHit] still have
    to do.

    React queues the updates of a handler and runs the updater functions
    when it next renders [App], each cell's queue in call order.  For
    [score], [combo] and [health] the outcome is that of applying each
    update at its call, and the cells hold it.  The [multiplier] is written
    from two places: [setMultiplier(1)] is called by the handlers directly,
    whereas the [setMultiplier] of a hit sits inside its [setCombo] updater
    and so is only called during the render, after every direct
    [setMultiplier(1)] of the same batch.  The cell [multiplier] holds the
    outcome of the direct calls, and [pendingCombo] the [newCombo] of the
    last hit updater queued since the last render, whose [setMultiplier]
    the render carries out. *)
Record App := mkApp {
  gameStatus : GameStatus;
  score : Z;
  combo : Z;
  multiplier : Z;
  health : Z;
  multiplierSeen : Z;
  endGameTimers : nat;
  pendingCombo : option Z
}.

(** What the reducer is driven by: a note event from [GameScene], a render
    of [App], or the event loop running one queued timer. *)
Inductive Action :=
| Hit (goodCut : bool)
| Miss
| Render
| Timer.

(** The multiplier the [setCombo] updater sets for a new combo count. *)
Definition multiplierFor (newCombo : Z) : Z :=
  (if newCombo >? 30 then 8
   else if newCombo >? 20 then 4
   else if newCombo >? 10 then 2
   else 1)%Z.

(** The [multiplier] the next render of [App] shows: the queued hit
    updaters run, and the [setMultiplier] of the last of them lands after
    the direct calls. *)
Definition renderedMultiplier (s : App) : Z :=
  match pendingCombo s with
  | Some newCombo => multiplierFor newCombo
  | None => multiplier s
  end.

(** A render runs the queued updaters and rebuilds the handlers over the
    [multiplier] it shows. *)
Definition render (s : App) : App :=
  let m := renderedMultiplier s in
  mkApp (gameStatus s) (score s) (combo s) m (health s)
        m (endGameTimers s) None.

(** [endGame(victory)]; pausing the audio is not modelled. *)
Definition endGame (victory : bool) (s : App) : App :=
  mkApp (if victory then VICTORY else GAME_OVER)
        (score s) (combo s) (multiplier s) (health s)
        (multiplierSeen s) (endGameTimers s) (pendingCombo s).

(** The event loop runs one queued [() => endGame(false)]. *)
Definition runTimer (s : App) : App :=
  match endGameTimers s with
  | O => s
  | S n =>
      endGame false
        (mkApp (gameStatus s) (score s) (combo s) (multiplier s) (health s)
               (multiplierSeen s) n (pendingCombo s))
  end.

(** The stats [startGame] sets before it switches to [PLAYING]. *)
Definition startedApp : App := mkApp PLAYING 0 0 1 100 1 0 None.

(* ================================================================== *)
(** * The hand-state estimator ([useMediaPipe]) *)
(* ================================================================== *)

(** [mapHandToWorld(x, y)] *)
Definition mapHandToWorld (x y : R) : Vector3 :=
  let GAME_X_RANGE := 5 in
  let GAME_Y_RANGE := 3.5 in
  let Y_OFFSET := 0.8 in
  let worldX := (0.5 - x) * GAME_X_RANGE in
  let worldY := (1.0 - y) * GAME_Y_RANGE - (GAME_Y_RANGE / 2) + Y_OFFSET in
  let worldZ := - Rmax 0 (worldY * 0.2) in
  mkVector3 worldX (Rmax 0.1 worldY) worldZ.

(** The [{ tip, pip }] landmark indices of the four non-thumb fingers. *)
Record FingerJoints := mkFinger { tip : nat; pip : nat }.

Definition fingerIndices : list FingerJoints :=
  [mkFinger 8 6; mkFinger 12 10; mkFinger 16 14; mkFinger 20 18].

(** The locals of [processResults] that the loop over the detections sets. *)
Record Detected := mkDetected {
  newLeft : option Vector3;
  newRight : option Vector3;
  leftGrip : bool;
  rightGrip : bool
}.

Section ProcessResults.

(** The grip classifier in scope; [None] stands for a thrown [TypeError]
    (a landmark index past the end of the array). *)
Variable checkGrip : list Landmark -> option bool.

(** The loop over [results.landmarks].  A detection without handedness is
    skipped; the category ['Right'] is the right hand, any other the left. *)
Fixpoint detectLoop (results : list Detection) (acc : Detected) : option Detected :=
  match results with
  | [] => Some acc
  | d :: rest =>
      match handedness d with
      | None => detectLoop rest acc
      | Some categoryName =>
          let isRight := if string_dec categoryName "Right" then true else false in
          tip ← landmarks d !! 8%nat;
          let worldPos := mapHandToWorld (lx tip) (ly tip) in
          isGripping ← checkGrip (landmarks d);
          if isRight
          then detectLoop rest (mkDetected (newLeft acc) (Some worldPos) (leftGrip acc) isGripping)
          else detectLoop rest (mkDetected (Some worldPos) (newRight acc) isGripping (rightGrip acc))
      end
  end.

Definition LERP : R := 0.6.

(** [processResults(results)], with [now] the value of [performance.now()].
    [None] when the detection loop throws: the caller catches and logs it,
    and of the state only [lastTimestamp] has been written by then. *)
Definition processResults (results : list Detection) (now : R) (s : HandPositions)
  : option HandPositions :=
  let deltaTime := (now - lastTimestamp s) / 1000 in
  d ← detectLoop results (mkDetected None None false false);
  (* Update Left *)
  let '(left', lastLeft', leftVelocity', leftGripping') :=
    match newLeft d with
    | Some nl =>
        match left s with
        | Some sl =>
            let nl' := Vec.lerpVectors sl nl LERP in
            (Some nl', Some sl,
             if Rgt_dec deltaTime 0.001
             then Vec.divideScalar (Vec.subVectors nl' sl) deltaTime
             else leftVelocity s,
             leftGrip d)
        | None => (Some nl, Some nl, leftVelocity s, leftGrip d)
        end
    | None => (None, lastLeft s, leftVelocity s, false)
    end in
  (* Update Right *)
  let '(right', lastRight', rightVelocity', rightGripping') :=
    match newRight d with
    | Some nr =>
        match right s with
        | Some sr =>
            let nr' := Vec.lerpVectors sr nr LERP in
            (Some nr', Some sr,
             if Rgt_dec deltaTime 0.001
             then Vec.divideScalar (Vec.subVectors nr' sr) deltaTime
             else rightVelocity s,
             rightGrip d)
        | None => (Some nr, Some nr, rightVelocity s, rightGrip d)
        end
    | None => (None, lastRight s, rightVelocity s, false)
    end in
  Some (mkHandPositions left' right' lastLeft' lastRight'
          leftVelocity' rightVelocity' leftGripping' rightGripping' now).

End ProcessResults.

(* ================================================================== *)
(** * [src/index.tsx]: the single-file build *)
(* ================================================================== *)

Module IndexTsx.

(** [interface NoteData].  The optional flags [hit] and [missed] are only
    ever tested for truthiness, so [undefined] is [false]; [hitTime] is
    [None] until the note is hit. *)
Record NoteData := mkNote {
  id : string;
  time : R;
  lineIndex : Z;
  lineLayer : Z;
  type : HandType;
  cutDirection : CutDirection;
  hit : bool;
  missed : bool;
  hitTime : option R
}.

Definition SPAWN_Z : R := -30.
Definition PLAYER_Z : R := 0.
Definition MISS_Z : R := 5.
Definition NOTE_SPEED : R := 10.

Definition LANE_WIDTH : R := 0.8.

Definition LANE_X_POSITIONS : list R :=
  [-1.5 * LANE_WIDTH; -0.5 * LANE_WIDTH; 0.5 * LANE_WIDTH; 1.5 * LANE_WIDTH].
Definition LAYER_Y_POSITIONS : list R := [0.8; 1.6; 2.4].

Definition SONG_BPM : R := 140.
Definition BEAT_TIME : R := 60 / SONG_BPM.

Definition DIRECTION_VECTORS (d : CutDirection) : Vector3 :=
  match d with
  | UP => mkVector3 0 1 0
  | DOWN => mkVector3 0 (-1) 0
  | LEFT => mkVector3 (-1) 0 0
  | RIGHT => mkVector3 1 0 0
  | ANY => mkVector3 0 0 0
  end.

(** A freshly pushed chart entry: the runtime fields are not set. *)
Definition chartNote (n : nat) (t : R) (lane layer : Z) (h : HandType) : NoteData :=
  mkNote (note_id n) t lane layer h ANY false false None.

(** The body of the [for] loop of [generateDemoChart]: what beat [i] pushes,
    given the running [idCount]. *)
Definition chartBeat (i : nat) (idCount : nat) : list NoteData :=
  let time := INR i * BEAT_TIME in
  let pattern := ((i / 16) mod 3)%nat in
  if (pattern =? 0)%nat then
    if (i mod 4 =? 0)%nat
    then [chartNote idCount time 1 0 HandLeft]
    else [chartNote idCount time 2 0 HandRight]
  else if (pattern =? 1)%nat then
    if (i mod 8 =? 0)%nat
    then [chartNote idCount time 0 1 HandLeft;
          chartNote (S idCount) time 3 1 HandRight]
    else []
  else
    [chartNote idCount time 1 0 HandLeft;
     chartNote (S idCount) (time + BEAT_TIME) 2 0 HandRight].

(** [for (let i = 4; i < 200; i += 2) { ... }]; [fuel] bounds the number of
    iterations. *)
Fixpoint chartLoop (fuel i : nat) (notes : list NoteData) (idCount : nat)
  : list NoteData :=
  match fuel with
  | O => notes
  | S fuel' =>
      if (i <? 200)%nat then
        let pushed := chartBeat i idCount in
        chartLoop fuel' (i + 2) (notes ++ pushed) (idCount + length pushed)
      else notes
  end.

Definition generateDemoChart : list NoteData :=
  Array_sort (fun a b => time a - time b) (chartLoop 200 4 [] 0).

Definition DEMO_CHART : list NoteData := generateDemoChart.

(** [checkGrip(landmarks)]: a finger is curled when its tip is closer to the
    wrist than its PIP joint (squared distances); three curled fingers make
    a grip. *)
Definition sqDistToWrist (p wrist : Landmark) : R :=
  (lx p - lx wrist) ^ 2 + (ly p - ly wrist) ^ 2 + (lz p - lz wrist) ^ 2.

Fixpoint countCurled (landmarks : list Landmark) (fingers : list FingerJoints)
  (curledFingers : nat) : option nat :=
  match fingers with
  | [] => Some curledFingers
  | finger :: rest =>
      tipL ← landmarks !! tip finger;
      pipL ← landmarks !! pip finger;
      wrist ← landmarks !! 0%nat;
      let dTip := sqDistToWrist tipL wrist in
      let dPip := sqDistToWrist pipL wrist in
      countCurled landmarks rest
        (if Rlt_dec dTip dPip then S curledFingers else curledFingers)
  end.

Definition checkGrip (landmarks : list Landmark) : option bool :=
  curledFingers ← countCurled landmarks fingerIndices 0;
  Some (3 <=? curledFingers)%nat.

Definition processResults := processResults checkGrip.

(** ** [GameScene] *)

(** [audioRef.current]: what the frame callback reads of the audio element. *)
Record Audio := mkAudio { currentTime : R; ended : bool }.

(** The calls of [onNoteHit], [onNoteMiss] and [onSongEnd]; a note is named
    by its index in [notesState]. *)
Inductive Event :=
| NoteHit (note : nat) (goodCut : bool)
| NoteMiss (note : nat)
| SongEnd.

(** The mutable state of the scene: the note objects of the chart (which
    [activeNotesRef] and [DEMO_CHART] share), the active notes as indices
    into it, and the activation cursor. *)
Record Scene := mkScene {
  notesState : list NoteData;
  activeNotesRef : list nat;
  nextNoteIndexRef : nat
}.

Definition spawnAheadTime : R := Rabs (SPAWN_Z - PLAYER_Z) / NOTE_SPEED.

(** The activation [while] loop; [fuel] bounds its iterations. *)
Fixpoint activate (fuel : nat) (audioTime : R) (sc : Scene) : Scene :=
  match fuel with
  | O => sc
  | S fuel' =>
      match notesState sc !! nextNoteIndexRef sc with
      | None => sc
      | Some nextNote =>
          if js_le (time nextNote - spawnAheadTime) audioTime then
            activate fuel' audioTime
              (mkScene (notesState sc)
                       (activeNotesRef sc ++ [nextNoteIndexRef sc])
                       (S (nextNoteIndexRef sc)))
          else sc
      end
  end.

Definition markMissed (n : NoteData) : NoteData :=
  mkNote (id n) (time n) (lineIndex n) (lineLayer n) (type n) (cutDirection n)
         (hit n) true (hitTime n).

Definition markHit (audioTime : R) (n : NoteData) : NoteData :=
  mkNote (id n) (time n) (lineIndex n) (lineLayer n) (type n) (cutDirection n)
         true (missed n) (Some audioTime).

(** The derived depth of a note at playback time [audioTime]. *)
Definition currentZ (audioTime : R) (note : NoteData) : R :=
  let timeDiff := time note - audioTime in
  PLAYER_Z - (timeDiff * NOTE_SPEED).

(** The quality of a cut by a hand moving at [handVel]. *)
Definition goodCutOf (note : NoteData) (handVel : Vector3) : bool :=
  let speed := Vec.length handVel in
  match cutDirection note with
  | ANY => if js_lt speed 1.5 then false else true
  | d =>
      let requiredDir := DIRECTION_VECTORS d in
      let vecB := Vec.normalize handVel in
      let dot := Vec.dot vecB requiredDir in
      if js_lt dot 0.3 || js_lt speed 1.5 then false else true
  end.

(** The hit test of one note that the miss check let through: [Some g] when
    the note is hit now, with cut quality [g].  An index outside the lane or
    layer table reads [undefined], the distance is then [NaN] and the
    comparison false. *)
Definition hitTest (audioTime : R) (hands : HandPositions) (note : NoteData)
  : option bool :=
  let z := currentZ audioTime note in
  if js_gt z (PLAYER_Z - 1.5) && js_lt z (PLAYER_Z + 1.0) then
    let handPos := match type note with HandLeft => left hands | HandRight => right hands end in
    let handVel :=
      match type note with HandLeft => leftVelocity hands | HandRight => rightVelocity hands end in
    match handPos with
    | Some handPos =>
        match js_index LANE_X_POSITIONS (lineIndex note),
              js_index LAYER_Y_POSITIONS (lineLayer note) with
        | Some x, Some y =>
            let notePos := mkVector3 x y z in
            if js_lt (Vec.distanceTo handPos notePos) 0.8
            then Some (goodCutOf note handVel)
            else None
        | _, _ => None
        end
    | None => None
    end
  else None.

(** What one pass of the loop body decides for a note: nothing ([Pending]:
    the note is already resolved and skipped, or it is neither past the miss
    line nor hit), a miss, or a hit with its cut quality.  The miss check
    comes first and [continue]s. *)
Inductive Judgement :=
| Pending
| JMiss
| JHit (goodCut : bool).

Definition judge (audioTime : R) (hands : HandPositions) (note : NoteData)
  : Judgement :=
  if hit note || missed note then Pending
  else if js_gt (currentZ audioTime note) MISS_Z then JMiss
  else
    match hitTest audioTime hands note with
    | Some g => JHit g
    | None => Pending
    end.

(** The body of the judgement loop at index [i] of [activeNotesRef]: the
    note's flags are set, the callback is called, and the note is spliced
    out of the active list. *)
Definition resolveAt (audioTime : R) (hands : HandPositions) (i : nat)
  (st : Scene * list Event) : Scene * list Event :=
  let '(sc, events) := st in
  match activeNotesRef sc !! i with
  | None => st
  | Some ref =>
      match notesState sc !! ref with
      | None => st
      | Some note =>
          match judge audioTime hands note with
          | Pending => st
          | JMiss =>
              (mkScene (<[ref := markMissed note]> (notesState sc))
                       (delete i (activeNotesRef sc))
                       (nextNoteIndexRef sc),
               events ++ [NoteMiss ref])
          | JHit g =>
              (mkScene (<[ref := markHit audioTime note]> (notesState sc))
                       (delete i (activeNotesRef sc))
                       (nextNoteIndexRef sc),
               events ++ [NoteHit ref g])
          end
      end
  end.

(** [for (let i = activeNotesRef.current.length - 1; i >= 0; i--)]: called
    with [k] the length of the active list, it runs the body at
    [k - 1], ..., [0]. *)
Fixpoint resolveLoop (audioTime : R) (hands : HandPositions) (k : nat)
  (st : Scene * list Event) : Scene * list Event :=
  match k with
  | O => st
  | S i => resolveLoop audioTime hands i (resolveAt audioTime hands i st)
  end.

(** The gameplay part of the frame callback. *)
Definition useFrame (status : GameStatus) (audio : option Audio)
  (hands : HandPositions) (sc : Scene) : Scene * list Event :=
  match status, audio with
  | PLAYING, Some a =>
      if ended a then (sc, [SongEnd])
      else
        let sc1 := activate (length (notesState sc)) (currentTime a) sc in
        resolveLoop (currentTime a) hands (length (activeNotesRef sc1)) (sc1, [])
  | _, _ => (sc, [])
  end.

(** The scene as mounted: nothing active, the cursor at the first note. *)
Definition mountScene (chart : list NoteData) : Scene := mkScene chart [] 0.

(** ** [App] *)

(** [handleNoteHit(note, goodCut)].  The [setMultiplier] call is inside the
    [setCombo] updater: it is not made here but by the next render, which
    finds [newCombo] in [pendingCombo]. *)
Definition handleNoteHit (goodCut : bool) (s : App) : App :=
  let points := (if goodCut then 100 + 50 else 100)%Z in
  let newCombo := (combo s + 1)%Z in
  mkApp (gameStatus s)
        (score s + points * multiplierSeen s)%Z
        newCombo
        (multiplier s)
        (Z.min 100 (health s + 2))
        (multiplierSeen s) (endGameTimers s)
        (Some newCombo).

(** [handleNoteMiss(note)].  [setMultiplier(1)] is a direct call; a hit
    updater queued earlier in the batch stays queued. *)
Definition handleNoteMiss (s : App) : App :=
  let newHealth := (health s - 15)%Z in
  if (newHealth <=? 0)%Z
  then mkApp (gameStatus s) (score s) 0 1 0 (multiplierSeen s) (S (endGameTimers s))
             (pendingCombo s)
  else mkApp (gameStatus s) (score s) 0 1 newHealth (multiplierSeen s) (endGameTimers s)
             (pendingCombo s).

(** [DEMO_CHART.forEach(n => { n.hit = false; n.missed = false; })] *)
Definition resetChart (chart : list NoteData) : list NoteData :=
  map (fun n => mkNote (id n) (time n) (lineIndex n) (lineLayer n) (type n)
                       (cutDirection n) false false (hitTime n)) chart.

(** [startGame()], when the audio starts: the stats are reset, the flags of
    the chart's note objects are cleared (the scene holds the same objects;
    its active list and cursor are refs of [GameScene] and are not touched),
    and the phase becomes [PLAYING].  Without a camera it does nothing. *)
Definition startGame (isCameraReady : bool) (g : App * Scene) : App * Scene :=
  if isCameraReady then
    (startedApp,
     mkScene (resetChart (notesState g.2)) (activeNotesRef g.2) (nextNoteIndexRef g.2))
  else g.

Definition step (a : Action) (s : App) : App :=
  match a with
  | Hit g => handleNoteHit g s
  | Miss => handleNoteMiss s
  | Render => render s
  | Timer => runTimer s
  end.

Definition run (actions : list Action) (s : App) : App :=
  fold_left (fun s a => step a s) actions s.

(** How [App] wires the callbacks of [GameScene]. *)
Definition dispatch (s : App) (e : Event) : App :=
  match e with
  | NoteHit _ g => handleNoteHit g s
  | NoteMiss _ => handleNoteMiss s
  | SongEnd => endGame true s
  end.

(** One animation frame of the whole game: the frame callback runs and its
    events reach the handlers in the order emitted; then the queued timers
    fire and [App] renders before the next frame. *)
Definition frame (audio : option Audio) (hands : HandPositions)
  (g : App * Scene) : App * Scene :=
  let '(app, sc) := g in
  let '(sc', events) := useFrame (gameStatus app) audio hands sc in
  let app1 := fold_left dispatch events app in
  let app2 := Nat.iter (endGameTimers app1) runTimer app1 in
  (render app2, sc').

(** The [visibleNotes] memo of [GameScene]: the notes handed to the renderer
    at the displayed time.  [n.hitTime || 0] reads 0 for a missing time. *)
Definition visibleNotes (notesState : list NoteData) (shownTime : R) : list NoteData :=
  List.filter
    (fun n =>
       negb (missed n)
       && (negb (hit n) || js_lt (shownTime - default 0 (hitTime n)) 0.5)
       && js_lt (time n - shownTime) 5
       && js_gt (time n - shownTime) (-2))
    notesState.

End IndexTsx.

(* ================================================================== *)
(** * [src/constants.ts]: the demo chart of the split build *)
(* ================================================================== *)

Module ConstantsTs.

(** The note records [generateDemoChart] pushes (the interface itself is in
    [types.ts]; the fields are those of the object literal). *)
Record NoteData := mkNote {
  id : string;
  time : R;
  lineIndex : Z;
  lineLayer : Z;
  type : HandType;
  cutDirection : CutDirection;
  requiresGrip : bool
}.

Definition NOTE_SPEED : R := 4.
Definition SONG_BPM : R := 140.
Definition BEAT_TIME : R := 60 / SONG_BPM.

(** [Math.floor] *)
Definition Math_floor (x : R) : Z := Int_part x.

(** The loop state: the notes pushed so far, [idCount], and how many values
    [Math.random()] has handed out. *)
Record LoopState := mkLoop {
  notes : list NoteData;
  idCount : nat;
  drawn : nat
}.

(** One iteration of the [for] loop; [random k] is the value of the [k]-th
    call of [Math.random()]. *)
Definition chartBeat (random : nat -> R) (i : nat) (st : LoopState) : LoopState :=
  let time := INR i * BEAT_TIME in
  if negb (i mod 4 =? 0)%nat then st
  else if Rgt_dec (random (drawn st)) 0.6 then mkLoop (notes st) (idCount st) (drawn st + 1)
  else
    let k := drawn st in
    let type := if Rgt_dec (random (k + 1)%nat) 0.5 then HandLeft else HandRight in
    let lineIndex := Math_floor (random (k + 2)%nat * 4) in
    let lineLayer := Math_floor (random (k + 3)%nat * 3) in
    let requiresGrip := if Rgt_dec (random (k + 4)%nat) 0.7 then true else false in
    mkLoop (notes st ++
              [mkNote (note_id (idCount st)) time lineIndex lineLayer type ANY requiresGrip])
           (idCount st + 1) (k + 5).

(** [for (let i = 12; i < totalBeats; i++)] with [totalBeats = 400]. *)
Fixpoint chartLoop (random : nat -> R) (fuel i : nat) (st : LoopState) : LoopState :=
  match fuel with
  | O => st
  | S fuel' =>
      if (i <? 400)%nat then chartLoop random fuel' (i + 1) (chartBeat random i st)
      else st
  end.

Definition generateDemoChart (random : nat -> R) : list NoteData :=
  Array_sort (fun a b => time a - time b)
             (notes (chartLoop random 400 12 (mkLoop [] 0 0))).

End ConstantsTs.

(* ================================================================== *)
(** * [hooks/useMediaPipe.ts]: the estimator of the split build *)
(* ================================================================== *)

Module UseMediaPipe.

(** [checkGrip(landmarks)]: a finger is curled when its tip lies below its
    PIP joint by more than 0.02 (image [y] grows downwards); all four
    fingers must be curled. *)
Fixpoint countCurled (landmarks : list Landmark) (fingers : list FingerJoints)
  (curledFingers : nat) : option nat :=
  match fingers with
  | [] => Some curledFingers
  | finger :: rest =>
      tipL ← landmarks !! tip finger;
      pipL ← landmarks !! pip finger;
      countCurled landmarks rest
        (if Rgt_dec (ly tipL) (ly pipL + 0.02) then S curledFingers else curledFingers)
  end.

Definition checkGrip (landmarks : list Landmark) : option bool :=
  curledFingers ← countCurled landmarks fingerIndices 0;
  Some (curledFingers =? 4)%nat.

Definition processResults := processResults checkGrip.

End UseMediaPipe.

(* ================================================================== *)
(** * [components/WebcamPreview.tsx]: the preview's own grip classifier *)
(* ================================================================== *)

Module WebcamPreview.

Definition sqDistToWrist (p wrist : Landmark) : R :=
  (lx p - lx wrist) ^ 2 + (ly p - ly wrist) ^ 2 + (lz p - lz wrist) ^ 2.

Fixpoint countCurled (landmarks : list Landmark) (fingers : list FingerJoints)
  (curledFingers : nat) : option nat :=
  match fingers with
  | [] => Some curledFingers
  | finger :: rest =>
      tipL ← landmarks !! tip finger;
      pipL ← landmarks !! pip finger;
      wrist ← landmarks !! 0%nat;
      let dTip := sqDistToWrist tipL wrist in
      let dPip := sqDistToWrist pipL wrist in
      countCurled landmarks rest
        (if Rlt_dec dTip dPip then S curledFingers else curledFingers)
  end.

Definition checkGrip (landmarks : list Landmark) : option bool :=
  curledFingers ← countCurled landmarks fingerIndices 0;
  Some (3 <=? curledFingers)%nat.

End WebcamPreview.

(* ================================================================== *)
(** * [src/App.tsx]: the score handlers of the split build *)
(* ================================================================== *)

Module AppTsx.

(** [handleNoteHit(note, goodCut)].  On a good cut the [setMultiplier] call
    is inside the [setCombo] updater: it is not made here but by the next
    render, which finds [newCombo] in [pendingCombo].  On a bad cut
    [setCombo(0)] and [setMultiplier(1)] are direct calls; a hit updater
    queued earlier in the batch stays queued. *)
Definition handleNoteHit (goodCut : bool) (s : App) : App :=
  if goodCut then
    let points := 150%Z in
    let newCombo := (combo s + 1)%Z in
    mkApp (gameStatus s)
          (score s + points * multiplierSeen s)%Z
          newCombo
          (multiplier s)
          (Z.min 100 (health s + 2))
          (multiplierSeen s) (endGameTimers s)
          (Some newCombo)
  else
    mkApp (gameStatus s)
          (Z.max 0 (score s - 50))
          0 1
          (Z.max 0 (health s - 5))
          (multiplierSeen s) (endGameTimers s)
          (pendingCombo s).

Definition handleNoteMiss (s : App) : App :=
  let newHealth := (health s - 15)%Z in
  if (newHealth <=? 0)%Z
  then mkApp (gameStatus s) (Z.max 0 (score s - 50)) 0 1 0
             (multiplierSeen s) (S (endGameTimers s)) (pendingCombo s)
  else mkApp (gameStatus s) (Z.max 0 (score s - 50)) 0 1 newHealth
             (multiplierSeen s) (endGameTimers s) (pendingCombo s).

Definition step (a : Action) (s : App) : App :=
  match a with
  | Hit g => handleNoteHit g s
  | Miss => handleNoteMiss s
  | Render => render s
  | Timer => runTimer s
  end.

Definition run (actions : list Action) (s : App) : App :=
  fold_left (fun s a => step a s) actions s.

End AppTsx.

(* ================================================================== *)
(** * Vocabulary of the statements *)
(* ================================================================== *)

(** What every reachable [App] state satisfies, in either build. *)
Definition stats_ok (s : App) : Prop :=
  (0 <= health s <= 100 /\ 0 <= score s /\ 1 <= multiplier s /\ 1 <= multiplierSeen s)%Z.

(** A finger is curled towards the wrist: its tip is closer to the wrist
    than its PIP joint (the test of [src/index.tsx] and of the preview). *)
Definition curledToWrist (lms : list Landmark) (f : FingerJoints) : bool :=
  match lms !! tip f, lms !! pip f, lms !! 0%nat with
  | Some t, Some p, Some w =>
      js_lt (IndexTsx.sqDistToWrist t w) (IndexTsx.sqDistToWrist p w)
  | _, _, _ => false
  end.

(** A finger is curled downwards: its tip is more than 0.02 below its PIP
    joint in the image (the test of the hook). *)
Definition curledDownwards (lms : list Landmark) (f : FingerJoints) : bool :=
  match lms !! tip f, lms !! pip f with
  | Some t, Some p => js_gt (ly t) (ly p + 0.02)
  | _, _ => false
  end.

(** How many of the four non-thumb fingers are curled. *)
Definition curledCount (curled : FingerJoints -> bool) : nat :=
  length (List.filter curled fingerIndices).

(** A hand with the index finger stretched out and the other three fingers
    curled: wrist and remaining landmarks at the bottom of the image. *)
Definition pointingHand : list Landmark :=
  let w := mkLandmark 0.5 0.9 0 in
  let tipUp := mkLandmark 0.5 0.1 0 in
  let pipUp := mkLandmark 0.5 0.4 0 in
  let tipIn := mkLandmark 0.5 0.8 0 in
  let pipIn := mkLandmark 0.5 0.5 0 in
  [w; w; w; w; w; w; pipUp; w; tipUp; w; pipIn; w; tipIn; w; pipIn; w; tipIn;
   w; pipIn; w; tipIn].

(** A detection frame holds a detection for the left (right) hand. *)
Definition detectsRight (d : Detection) : bool :=
  match handedness d with
  | Some categoryName => if string_dec categoryName "Right" then true else false
  | None => false
  end.

Definition detectsLeft (d : Detection) : bool :=
  match handedness d with
  | Some categoryName => if string_dec categoryName "Right" then false else true
  | None => false
  end.

(** The detection loop over a list of frames, each with its timestamp. *)
Fixpoint runFrames
  (process : list Detection -> R -> HandPositions -> option HandPositions)
  (frames : list (list Detection * R)) (s : HandPositions) : option HandPositions :=
  match frames with
  | [] => Some s
  | (results, now) :: rest => s' ← process results now s; runFrames process rest s'
  end.

(** A hand whose 21 landmarks all sit at [(x, y)], labelled [name]. *)
Definition handAt (x y : R) (name : string) : Detection :=
  mkDetection (repeat (mkLandmark x y 0) 21) (Some name).

(** Four frames one second apart: the left hand is seen at the centre of the
    image, then further to the side, then lost for two frames. *)
Definition lostHandFrames : list (list Detection * R) :=
  [([handAt 0.5 0.5 "Left"], 1000);
   ([handAt 0.3 0.5 "Left"], 2000);
   ([], 3000);
   ([], 4000)].

(** The chart is in time order. *)
Definition timeSorted (notes : list IndexTsx.NoteData) : Prop :=
  forall (i j : nat) (a b : IndexTsx.NoteData),
    (i <= j)%nat -> notes !! i = Some a -> notes !! j = Some b ->
    IndexTsx.time a <= IndexTsx.time b.

(** A playing session: the frame callback runs once per tick with the
    tick's audio state and hand state; the events of all ticks in order. *)
Fixpoint playFrames (ticks : list (IndexTsx.Audio * HandPositions)) (sc : IndexTsx.Scene)
  : IndexTsx.Scene * list IndexTsx.Event :=
  match ticks with
  | [] => (sc, [])
  | (a, hands) :: rest =>
      let '(sc1, ev1) := IndexTsx.useFrame PLAYING (Some a) hands sc in
      let '(sc2, ev2) := playFrames rest sc1 in
      (sc2, ev1 ++ ev2)
  end.

(** A chart entry for the examples: lane 1, bottom layer, left hand. *)
Definition leftNote (n : nat) (t : R) (d : CutDirection) : IndexTsx.NoteData :=
  IndexTsx.mkNote (note_id n) t 1 0 HandLeft d false false None.

(** Two notes, due at 1 s and at 10 s. *)
Definition twoNotes : list IndexTsx.NoteData := [leftNote 0 1 ANY; leftNote 1 10 ANY].

(** What the judgement loop decides for the note object behind a reference. *)
Definition judgeRef (t : R) (hands : HandPositions) (notes : list IndexTsx.NoteData)
  (r : nat) : IndexTsx.Judgement :=
  match notes !! r with
  | Some note => IndexTsx.judge t hands note
  | None => IndexTsx.Pending
  end.

(** The callback a judgement calls, if any. *)
Definition eventOf (r : nat) (j : IndexTsx.Judgement) : option IndexTsx.Event :=
  match j with
  | IndexTsx.Pending => None
  | IndexTsx.JMiss => Some (IndexTsx.NoteMiss r)
  | IndexTsx.JHit g => Some (IndexTsx.NoteHit r g)
  end.

(** The note an event is about. *)
Definition eventNote (e : IndexTsx.Event) : option nat :=
  match e with
  | IndexTsx.NoteHit r _ => Some r
  | IndexTsx.NoteMiss r => Some r
  | IndexTsx.SongEnd => None
  end.

(** The flags a judgement writes. *)
Definition settle (t : R) (j : IndexTsx.Judgement) (note : IndexTsx.NoteData)
  : IndexTsx.NoteData :=
  match j with
  | IndexTsx.Pending => note
  | IndexTsx.JMiss => IndexTsx.markMissed note
  | IndexTsx.JHit _ => IndexTsx.markHit t note
  end.

(** The shape of the scene in every reachable state: the active list holds
    chart indices below the cursor, in increasing order. *)
Definition scene_ok (sc : IndexTsx.Scene) : Prop :=
  StronglySorted lt (IndexTsx.activeNotesRef sc) /\
  Forall (fun r => (r < IndexTsx.nextNoteIndexRef sc)%nat) (IndexTsx.activeNotesRef sc) /\
  (IndexTsx.nextNoteIndexRef sc <= length (IndexTsx.notesState sc))%nat.

(** A note is unresolved. *)
Definition unresolved (note : IndexTsx.NoteData) : Prop :=
  IndexTsx.hit note = false /\ IndexTsx.missed note = false.

(** The hand a note asks for. *)
Definition handPosition (hands : HandPositions) (side : HandType) : option Vector3 :=
  match side with HandLeft => left hands | HandRight => right hands end.

Definition handVelocity (hands : HandPositions) (side : HandType) : Vector3 :=
  match side with HandLeft => leftVelocity hands | HandRight => rightVelocity hands end.

(** Scenario A of the specification: one note for the left hand, any
    direction, due at 2 s; the left hand sits on the note's lane and layer
    at the player line and moves upwards at speed 2. *)
Definition oneNote : list IndexTsx.NoteData := [leftNote 0 2 ANY].

Definition swingingLeft : HandPositions :=
  mkHandPositions (Some (mkVector3 (-0.4) 0.8 0)) None None None
    (mkVector3 0 2 0) (mkVector3 0 0 0) false false 0.

(** The flags of the notes record exactly the events emitted so far. *)
Definition flags_agree (notes : list IndexTsx.NoteData) (evs : list IndexTsx.Event) : Prop :=
  forall r note, notes !! r = Some note ->
    (IndexTsx.hit note = true <-> exists g, In (IndexTsx.NoteHit r g) evs) /\
    (IndexTsx.missed note = true <-> In (IndexTsx.NoteMiss r) evs).

(** A note is resolved: one of its flags is set. *)
Definition resolved (note : IndexTsx.NoteData) : Prop :=
  IndexTsx.hit note = true \/ IndexTsx.missed note = true.

(** What holds of a scene and the events emitted since the session began. *)
Definition session_inv (sc : IndexTsx.Scene) (evs : list IndexTsx.Event) : Prop :=
  scene_ok sc /\
  NoDup (omap eventNote evs) /\
  flags_agree (IndexTsx.notesState sc) evs.

#[local] Instance Judgement_eq_dec : EqDecision IndexTsx.Judgement.
Proof. solve_decision. Defined.

(** The whole game of [src/index.tsx] over a sequence of animation frames. *)
Definition playGame (frames : list (option IndexTsx.Audio * HandPositions))
  (g : App * IndexTsx.Scene) : App * IndexTsx.Scene :=
  fold_left (fun g f => IndexTsx.frame f.1 f.2 g) frames g.

(** What holds of [App] between two frames of a session: no timer and no
    updater is pending, the handlers close over the current multiplier, and
    a health of 0 means the game is over. *)
Definition between_frames (s : App) : Prop :=
  (endGameTimers s = O /\ pendingCombo s = None) /\
  multiplierSeen s = multiplier s /\
  (0 <= health s)%Z /\
  (health s = 0%Z -> gameStatus s = GAME_OVER).



(** Deciding comparisons of numerals. *)
Ltac js_decide :=
  unfold js_lt, js_gt, js_le;
  repeat match goal with
    | |- context [Rlt_dec ?a ?b] => destruct (Rlt_dec a b); try (exfalso; lra)
    | |- context [Rgt_dec ?a ?b] => destruct (Rgt_dec a b); try (exfalso; lra)
    | |- context [Rle_dec ?a ?b] => destruct (Rle_dec a b); try (exfalso; lra)
    end.

(** Two note objects agree on the fields the chart fixes. *)
Definition sameNote (a b : IndexTsx.NoteData) : Prop :=
  IndexTsx.id a = IndexTsx.id b /\
  IndexTsx.time a = IndexTsx.time b /\
  IndexTsx.lineIndex a = IndexTsx.lineIndex b /\
  IndexTsx.lineLayer a = IndexTsx.lineLayer b /\
  IndexTsx.type a = IndexTsx.type b /\
  IndexTsx.cutDirection a = IndexTsx.cutDirection b.

(** A hand state without positions. *)
Definition noHands (hands : HandPositions) : Prop :=
  left hands = None /\ right hands = None.

(** A labelled detection with too few landmarks for the estimator. *)
Definition tooShort (d : Detection) : Prop :=
  handedness d <> None /\ (length (landmarks d) < 21)%nat.

(** A scene past both notes of [twoNotes], with nothing active. *)
Definition playedOut : IndexTsx.Scene := IndexTsx.mkScene twoNotes [] 2.

(** Every resolved note lies below the cursor and outside the active list. *)
Definition resolved_inactive (sc : IndexTsx.Scene) : Prop :=
  forall r note, IndexTsx.notesState sc !! r = Some note -> resolved note ->
    (r < IndexTsx.nextNoteIndexRef sc)%nat /\ ~ r ∈ IndexTsx.activeNotesRef sc.

(** Two notes of the split build's chart at least four beats apart. *)
Definition fourBeatsApart (a b : ConstantsTs.NoteData) : Prop :=
  ConstantsTs.time a + 4 * ConstantsTs.BEAT_TIME <= ConstantsTs.time b.

(** A note of the split build's chart scheduled on a downbeat: beat [j], a
    multiple of 4 from 12 on and below [i]. *)
Definition onDownbeat (i : nat) (n : ConstantsTs.NoteData) : Prop :=
  exists j, (12 <= j < i)%nat /\ (j mod 4 = 0)%nat /\
            ConstantsTs.time n = INR j * ConstantsTs.BEAT_TIME.

(** What holds of the loop state of [ConstantsTs.generateDemoChart] at the
    head of iteration [i]. *)
Definition constants_chart_inv (i : nat) (st : ConstantsTs.LoopState) : Prop :=
  length (ConstantsTs.notes st) = ConstantsTs.idCount st /\
  (4 * length (ConstantsTs.notes st) + 9 <= i)%nat /\
  (forall k n, ConstantsTs.notes st !! k = Some n ->
     ConstantsTs.id n = note_id k /\ ConstantsTs.cutDirection n = ANY /\ onDownbeat i n) /\
  StronglySorted fourBeatsApart (ConstantsTs.notes st).

(** A lane and a layer that the position tables have. *)
Definition inCell (lane layer : Z) : Prop := (0 <= lane <= 3)%Z /\ (0 <= layer <= 2)%Z.

(** Values [Math.random()] can return. *)
Definition unitRandom (random : nat -> R) : Prop := forall k, 0 <= random k < 1.

(** The lane, layer and hand combinations of the monolith's chart. *)
Definition index_cells : list (Z * Z * HandType) :=
  [(1, 0, HandLeft); (2, 0, HandRight); (0, 1, HandLeft); (3, 1, HandRight)]%Z.

(** What holds of the notes of [IndexTsx.generateDemoChart] at the head of
    iteration [i]. *)
Definition index_chart_inv (i : nat) (notes : list IndexTsx.NoteData) : Prop :=
  (forall k n, notes !! k = Some n ->
     IndexTsx.id n = note_id k /\ IndexTsx.cutDirection n = ANY /\
     unresolved n /\ IndexTsx.hitTime n = None /\
     In (IndexTsx.lineIndex n, IndexTsx.lineLayer n, IndexTsx.type n) index_cells /\
     4 * IndexTsx.BEAT_TIME <= IndexTsx.time n <= INR i * IndexTsx.BEAT_TIME) /\
  StronglySorted (fun a b => IndexTsx.time a <= IndexTsx.time b) notes.

(** [p] is the world position of the index fingertip of a detection of
    [results] for the right ([isRight]) or the left hand. *)
Definition rawHand (results : list Detection) (isRight : bool) (p : Vector3) : Prop :=
  exists d tip,
    In d results /\
    (if isRight then detectsRight d else detectsLeft d) = true /\
    landmarks d !! 8%nat = Some tip /\
    p = mapHandToWorld (lx tip) (ly tip).

(** A state in which the right hand was last seen at the centre of the
    image, at time 1000 ms. *)
Definition rightSeen : HandPositions :=
  mkHandPositions None (Some (mapHandToWorld 0.5 0.5)) None (Some (mapHandToWorld 0.5 0.5))
    (mkVector3 0 0 0) (mkVector3 0 0 0) false false 1000.

(** How many misses a health of [h] survives: the next one is fatal. *)
Definition missesSurvived (h : Z) : Z := Z.max 0 ((h - 1) / 15).

(** The number of hits among the actions. *)
Definition hitCount (actions : list Action) : Z :=
  Z.of_nat (length (List.filter (fun a => match a with Hit _ => true | _ => false end)
                                actions)).

(** The multiplier [m] that goes with a combo count [c]: 1 up to 10, then 2
    up to 20, then 4 up to 30, then 8. *)
Definition multiplierTiers (c m : Z) : Prop :=
  ((c <= 10 -> m = 1) /\ (10 < c <= 20 -> m = 2) /\
   (20 < c <= 30 -> m = 4) /\ (30 < c -> m = 8))%Z.

(** What the handlers keep of combo and multiplier: the combo count is not
    negative and, unless it is 0, the multiplier the next render shows is
    the one of the combo count. *)
Definition combo_ok (s : App) : Prop :=
  (0 <= combo s)%Z /\
  (combo s = 0%Z \/ renderedMultiplier s = multiplierFor (combo s)) /\
  (multiplier s = 1 \/ multiplier s = 2 \/ multiplier s = 4 \/ multiplier s = 8)%Z.

(* ================================================================== *)
(** * The score handlers *)
(* ================================================================== *)

Lemma multiplierFor_pos (c : Z) : (1 <= multiplierFor c)%Z.
Proof. unfold multiplierFor. repeat case_match; lia. Qed.

Lemma stats_ok_started : stats_ok startedApp.
Proof. unfold stats_ok, startedApp; simpl. lia. Qed.

Lemma renderedMultiplier_pos (s : App) :
  (1 <= multiplier s -> 1 <= renderedMultiplier s)%Z.
Proof.
  unfold renderedMultiplier. destruct (pendingCombo s); [|auto].
  intros _. apply multiplierFor_pos.
Qed.

Lemma stats_ok_render (s : App) : stats_ok s -> stats_ok (render s).
Proof.
  unfold stats_ok, render. cbn [health score multiplier multiplierSeen].
  intros (Hh & Hs & Hm & Hm'). pose proof (renderedMultiplier_pos s Hm). lia.
Qed.

Lemma stats_ok_runTimer (s : App) : stats_ok s -> stats_ok (runTimer s).
Proof. unfold stats_ok, runTimer, endGame. destruct (endGameTimers s); simpl; lia. Qed.

Lemma stats_ok_index_step (a : Action) (s : App) :
  stats_ok s -> stats_ok (IndexTsx.step a s).
Proof.
  destruct a as [g| | |]; simpl;
    auto using stats_ok_render, stats_ok_runTimer.
  - unfold stats_ok, IndexTsx.handleNoteHit; simpl. intros (Hh & Hs & Hm & Hm').
    pose proof (multiplierFor_pos (combo s + 1)).
    repeat split; try lia; destruct g; nia.
  - unfold stats_ok, IndexTsx.handleNoteMiss. intros (Hh & Hs & Hm & Hm').
    destruct (Z.leb_spec (health s - 15) 0); simpl; lia.
Qed.

Lemma stats_ok_app_step (a : Action) (s : App) :
  stats_ok s -> stats_ok (AppTsx.step a s).
Proof.
  destruct a as [g| | |]; simpl;
    auto using stats_ok_render, stats_ok_runTimer.
  - unfold stats_ok, AppTsx.handleNoteHit. intros (Hh & Hs & Hm & Hm').
    pose proof (multiplierFor_pos (combo s + 1)).
    destruct g; simpl; repeat split; try lia; nia.
  - unfold stats_ok, AppTsx.handleNoteMiss. intros (Hh & Hs & Hm & Hm').
    destruct (Z.leb_spec (health s - 15) 0); simpl; lia.
Qed.

Lemma stats_ok_index_run (actions : list Action) (s : App) :
  stats_ok s -> stats_ok (IndexTsx.run actions s).
Proof.
  revert s. induction actions as [|a actions IH]; intros s Hs; simpl; [exact Hs|].
  apply IH, stats_ok_index_step, Hs.
Qed.

Lemma stats_ok_app_run (actions : list Action) (s : App) :
  stats_ok s -> stats_ok (AppTsx.run actions s).
Proof.
  revert s. induction actions as [|a actions IH]; intros s Hs; simpl; [exact Hs|].
  apply IH, stats_ok_app_step, Hs.
Qed.




(** The reset of the multiplier can be overtaken.  When a hit and then a
    miss (in [src/App.tsx] also a bad hit) are handled before [App] renders
    again, the hit's [setMultiplier] runs inside its [setCombo] updater,
    during the render and so after the [setMultiplier(1)] of the miss: the
    render shows combo 0 with the multiplier of the combo the hit had
    reached. *)
Lemma multiplier_reset_overtaken (s : App) :
  (combo (render (IndexTsx.handleNoteMiss (IndexTsx.handleNoteHit true s))) = 0 /\
   multiplier (render (IndexTsx.handleNoteMiss (IndexTsx.handleNoteHit true s)))
   = multiplierFor (combo s + 1))%Z /\
  (combo (render (AppTsx.handleNoteMiss (AppTsx.handleNoteHit true s))) = 0 /\
   multiplier (render (AppTsx.handleNoteMiss (AppTsx.handleNoteHit true s)))
   = multiplierFor (combo s + 1))%Z /\
  (combo (render (AppTsx.handleNoteHit false (AppTsx.handleNoteHit true s))) = 0 /\
   multiplier (render (AppTsx.handleNoteHit false (AppTsx.handleNoteHit true s)))
   = multiplierFor (combo s + 1))%Z.
Proof.
  unfold render, renderedMultiplier, AppTsx.handleNoteHit, AppTsx.handleNoteMiss,
    IndexTsx.handleNoteMiss, IndexTsx.handleNoteHit.
  cbn [health].
  destruct (Z.leb_spec (Z.min 100 (health s + 2) - 15) 0);
    cbn [combo multiplier pendingCombo]; repeat split; reflexivity.
Qed.

(** C6: whatever sequence of hits, misses, renders and timer callbacks the
    handlers of either build process from the stats of a fresh session, the
    health stays within 0..100 and the score stays at or above 0. *)
Theorem C6_health_and_score_clamped (actions : list Action) :
  (0 <= health (AppTsx.run actions startedApp) <= 100 /\
   0 <= score (AppTsx.run actions startedApp))%Z /\
  (0 <= health (IndexTsx.run actions startedApp) <= 100 /\
   0 <= score (IndexTsx.run actions startedApp))%Z.
Proof.
  pose proof (stats_ok_app_run actions _ stats_ok_started) as Ha.
  pose proof (stats_ok_index_run actions _ stats_ok_started) as Hi.
  unfold stats_ok in Ha, Hi. lia.
Qed.

(** In [src/App.tsx] a bad hit can also take the health to 0, and that path
    has no game-over check: twenty bad hits from a fresh session bring the
    health to 0 with the phase still [PLAYING] and no [endGame] queued;
    timers and renders change nothing, and a following good hit is
    processed as usual (150 points, health back to 2).  Only a miss ends
    the game, and eight misses in a row queue [endGame(false)] twice. *)
Lemma app_bad_hits_reach_zero_health :
  health (AppTsx.run (repeat (Hit false) 20) startedApp) = 0%Z /\
  gameStatus (AppTsx.run (repeat (Hit false) 20) startedApp) = PLAYING /\
  endGameTimers (AppTsx.run (repeat (Hit false) 20) startedApp) = O /\
  gameStatus (AppTsx.run (repeat (Hit false) 20 ++ [Timer; Render]) startedApp) = PLAYING /\
  score (AppTsx.run (repeat (Hit false) 20 ++ [Timer; Render; Hit true]) startedApp) = 150%Z /\
  health (AppTsx.run (repeat (Hit false) 20 ++ [Timer; Render; Hit true]) startedApp) = 2%Z /\
  endGameTimers (AppTsx.run (repeat Miss 8) startedApp) = 2%nat /\
  gameStatus (AppTsx.run (repeat Miss 8 ++ [Timer; Timer]) startedApp) = GAME_OVER.
Proof. vm_compute. repeat split. Qed.

(* ================================================================== *)
(** * The grip classifiers *)
(* ================================================================== *)

Lemma filter_length_cons {A : Type} (f : A -> bool) (x : A) (l : list A) :
  length (List.filter f (x :: l)) =
  ((if f x then 1 else 0) + length (List.filter f l))%nat.
Proof. simpl. destruct (f x); reflexivity. Qed.

Lemma index_countCurled (lms : list Landmark) (fingers : list FingerJoints) (acc : nat) :
  (0 < length lms)%nat ->
  Forall (fun f => (tip f < length lms)%nat /\ (pip f < length lms)%nat) fingers ->
  IndexTsx.countCurled lms fingers acc =
  Some (acc + length (List.filter (curledToWrist lms) fingers))%nat.
Proof.
  intros Hw Hall. revert acc.
  induction Hall as [|f fingers [Ht Hp] _ IH]; intros acc.
  - simpl. f_equal. lia.
  - rewrite filter_length_cons. cbn [IndexTsx.countCurled].
    unfold curledToWrist at 1.
    destruct (lookup_lt_is_Some_2 lms _ Ht) as [t ->].
    destruct (lookup_lt_is_Some_2 lms _ Hp) as [p' ->].
    destruct (lookup_lt_is_Some_2 lms _ Hw) as [w ->].
    cbn [mbind option_bind]. rewrite IH. unfold js_lt.
    destruct (Rlt_dec _ _); f_equal; lia.
Qed.

Lemma preview_countCurled (lms : list Landmark) (fingers : list FingerJoints) (acc : nat) :
  (0 < length lms)%nat ->
  Forall (fun f => (tip f < length lms)%nat /\ (pip f < length lms)%nat) fingers ->
  WebcamPreview.countCurled lms fingers acc =
  Some (acc + length (List.filter (curledToWrist lms) fingers))%nat.
Proof.
  intros Hw Hall. revert acc.
  induction Hall as [|f fingers [Ht Hp] _ IH]; intros acc.
  - simpl. f_equal. lia.
  - rewrite filter_length_cons. cbn [WebcamPreview.countCurled].
    unfold curledToWrist at 1.
    destruct (lookup_lt_is_Some_2 lms _ Ht) as [t ->].
    destruct (lookup_lt_is_Some_2 lms _ Hp) as [p' ->].
    destruct (lookup_lt_is_Some_2 lms _ Hw) as [w ->].
    cbn [mbind option_bind]. rewrite IH. unfold js_lt.
    destruct (Rlt_dec _ _); f_equal; lia.
Qed.

Lemma hook_countCurled (lms : list Landmark) (fingers : list FingerJoints) (acc : nat) :
  Forall (fun f => (tip f < length lms)%nat /\ (pip f < length lms)%nat) fingers ->
  UseMediaPipe.countCurled lms fingers acc =
  Some (acc + length (List.filter (curledDownwards lms) fingers))%nat.
Proof.
  intros Hall. revert acc.
  induction Hall as [|f fingers [Ht Hp] _ IH]; intros acc.
  - simpl. f_equal. lia.
  - rewrite filter_length_cons. cbn [UseMediaPipe.countCurled].
    unfold curledDownwards at 1.
    destruct (lookup_lt_is_Some_2 lms _ Ht) as [t ->].
    destruct (lookup_lt_is_Some_2 lms _ Hp) as [p' ->].
    cbn [mbind option_bind]. rewrite IH. unfold js_gt.
    destruct (Rgt_dec _ _); f_equal; lia.
Qed.

Lemma fingers_in_range (lms : list Landmark) :
  (21 <= length lms)%nat ->
  Forall (fun f => (tip f < length lms)%nat /\ (pip f < length lms)%nat) fingerIndices.
Proof. intros H. unfold fingerIndices. repeat constructor; simpl; lia. Qed.

Lemma index_checkGrip_count (lms : list Landmark) :
  (21 <= length lms)%nat ->
  IndexTsx.checkGrip lms = Some (3 <=? curledCount (curledToWrist lms))%nat.
Proof.
  intros H. unfold IndexTsx.checkGrip.
  rewrite index_countCurled by (auto using fingers_in_range; lia). reflexivity.
Qed.

Lemma preview_checkGrip_count (lms : list Landmark) :
  (21 <= length lms)%nat ->
  WebcamPreview.checkGrip lms = Some (3 <=? curledCount (curledToWrist lms))%nat.
Proof.
  intros H. unfold WebcamPreview.checkGrip.
  rewrite preview_countCurled by (auto using fingers_in_range; lia). reflexivity.
Qed.

Lemma hook_checkGrip_count (lms : list Landmark) :
  (21 <= length lms)%nat ->
  UseMediaPipe.checkGrip lms = Some (curledCount (curledDownwards lms) =? 4)%nat.
Proof.
  intros H. unfold UseMediaPipe.checkGrip.
  rewrite hook_countCurled by auto using fingers_in_range. reflexivity.
Qed.

Lemma pointingHand_curled :
  curledCount (curledToWrist pointingHand) = 3%nat /\
  curledCount (curledDownwards pointingHand) = 3%nat.
Proof.
  unfold curledCount, fingerIndices, curledToWrist, curledDownwards,
    IndexTsx.sqDistToWrist, pointingHand.
  cbn [List.filter lookup list_lookup tip pip lx ly lz].
  split; js_decide; reflexivity.
Qed.

(** C9, as stated, fails on the hook's classifier: with the index finger
    stretched out and the other three fingers curled (by either test of
    "curled"), it answers [false], where [src/index.tsx] answers [true]. *)
Lemma C9_hook_rejects_three_curled :
  curledCount (curledToWrist pointingHand) = 3%nat /\
  curledCount (curledDownwards pointingHand) = 3%nat /\
  UseMediaPipe.checkGrip pointingHand = Some false /\
  IndexTsx.checkGrip pointingHand = Some true.
Proof.
  destruct pointingHand_curled as [Hw Hd].
  rewrite hook_checkGrip_count, index_checkGrip_count by (simpl; lia).
  rewrite Hw, Hd. auto.
Qed.

(** C9 (amended): on a hand of 21 landmarks, the classifier of
    [src/index.tsx] and the one of the webcam preview answer [true] exactly
    when at least 3 of the 4 non-thumb fingers have their tip closer to the
    wrist than their PIP joint; the classifier of the hook [useMediaPipe]
    answers [true] exactly when all 4 have their tip more than 0.02 below
    their PIP joint. *)
Theorem C9_grip_quorum (lms : list Landmark) :
  (21 <= length lms)%nat ->
  (exists b, IndexTsx.checkGrip lms = Some b /\
             (b = true <-> (3 <= curledCount (curledToWrist lms))%nat)) /\
  (exists b, WebcamPreview.checkGrip lms = Some b /\
             (b = true <-> (3 <= curledCount (curledToWrist lms))%nat)) /\
  (exists b, UseMediaPipe.checkGrip lms = Some b /\
             (b = true <-> curledCount (curledDownwards lms) = 4%nat)).
Proof.
  intros H. repeat split.
  - eexists; split; [apply index_checkGrip_count, H|]. apply Nat.leb_le.
  - eexists; split; [apply preview_checkGrip_count, H|]. apply Nat.leb_le.
  - eexists; split; [apply hook_checkGrip_count, H|]. apply Nat.eqb_eq.
Qed.

Lemma C9_grip_quorum_witness :
  (21 <= length pointingHand)%nat /\
  (exists b, IndexTsx.checkGrip pointingHand = Some b /\
             (b = true <-> (3 <= curledCount (curledToWrist pointingHand))%nat)).
Proof.
  split; [simpl; lia|].
  apply (C9_grip_quorum pointingHand). simpl; lia.
Defined.

(* ================================================================== *)
(** * The hand-state estimator *)
(* ================================================================== *)

Section Estimator.

Variable checkGrip : list Landmark -> option bool.
Hypothesis checkGrip_total :
  forall lms, (21 <= length lms)%nat -> is_Some (checkGrip lms).

Lemma detectLoop_total (results : list Detection) (acc : Detected) :
  Forall (fun d => (21 <= length (landmarks d))%nat) results ->
  is_Some (detectLoop checkGrip results acc).
Proof.
  intros Hall. revert acc.
  induction Hall as [|d results Hd _ IH]; intros acc; simpl; [eauto|].
  destruct (handedness d) as [name|]; [|apply IH].
  destruct (lookup_lt_is_Some_2 (landmarks d) 8) as [t ->]; [lia|].
  destruct (checkGrip_total _ Hd) as [g ->]. simpl.
  destruct (string_dec name "Right"); apply IH.
Qed.

Lemma detectLoop_no_left (results : list Detection) (acc d : Detected) :
  detectLoop checkGrip results acc = Some d ->
  existsb detectsLeft results = false ->
  newLeft d = newLeft acc /\ leftGrip d = leftGrip acc.
Proof.
  revert acc. induction results as [|x results IH]; intros acc Hrun Hno; simpl in *.
  - injection Hrun as <-. auto.
  - apply orb_false_elim in Hno as [Hx Hno]. unfold detectsLeft in Hx.
    destruct (handedness x) as [name|]; [|eauto].
    destruct (landmarks x !! 8%nat) as [t|]; [|discriminate].
    destruct (checkGrip (landmarks x)) as [g|]; [|discriminate]. simpl in Hrun.
    destruct (string_dec name "Right"); [|discriminate].
    destruct (IH _ Hrun Hno) as [H1 H2]. simpl in H1, H2. auto.
Qed.

Lemma detectLoop_no_right (results : list Detection) (acc d : Detected) :
  detectLoop checkGrip results acc = Some d ->
  existsb detectsRight results = false ->
  newRight d = newRight acc /\ rightGrip d = rightGrip acc.
Proof.
  revert acc. induction results as [|x results IH]; intros acc Hrun Hno; simpl in *.
  - injection Hrun as <-. auto.
  - apply orb_false_elim in Hno as [Hx Hno]. unfold detectsRight in Hx.
    destruct (handedness x) as [name|]; [|eauto].
    destruct (landmarks x !! 8%nat) as [t|]; [|discriminate].
    destruct (checkGrip (landmarks x)) as [g|]; [|discriminate]. simpl in Hrun.
    destruct (string_dec name "Right"); [discriminate|].
    destruct (IH _ Hrun Hno) as [H1 H2]. simpl in H1, H2. auto.
Qed.

Lemma processResults_total (results : list Detection) (now : R) (s : HandPositions) :
  Forall (fun d => (21 <= length (landmarks d))%nat) results ->
  is_Some (processResults checkGrip results now s).
Proof.
  intros Hall. unfold processResults.
  destruct (detectLoop_total results (mkDetected None None false false) Hall) as [d ->].
  simpl. repeat case_match; eauto.
Qed.

Lemma processResults_no_left (results : list Detection) (now : R) (s s' : HandPositions) :
  processResults checkGrip results now s = Some s' ->
  existsb detectsLeft results = false ->
  left s' = None /\ leftGripping s' = false /\
  leftVelocity s' = leftVelocity s /\ lastLeft s' = lastLeft s.
Proof.
  unfold processResults. intros Hrun Hno.
  destruct (detectLoop checkGrip results _) as [d|] eqn:Hd; [|discriminate].
  destruct (detectLoop_no_left _ _ _ Hd Hno) as [Hl _]. simpl in Hl, Hrun.
  rewrite Hl in Hrun. repeat case_match; simplify_eq; simpl; auto.
Qed.

Lemma processResults_no_right (results : list Detection) (now : R) (s s' : HandPositions) :
  processResults checkGrip results now s = Some s' ->
  existsb detectsRight results = false ->
  right s' = None /\ rightGripping s' = false /\
  rightVelocity s' = rightVelocity s /\ lastRight s' = lastRight s.
Proof.
  unfold processResults. intros Hrun Hno.
  destruct (detectLoop checkGrip results _) as [d|] eqn:Hd; [|discriminate].
  destruct (detectLoop_no_right _ _ _ Hd Hno) as [Hr _]. simpl in Hr, Hrun.
  rewrite Hr in Hrun. repeat case_match; simplify_eq; simpl; auto.
Qed.

(** What an absent hand does to the state, one frame and two frames on. *)
Lemma processResults_absent (results : list Detection) (now : R) (s : HandPositions) :
  Forall (fun d => (21 <= length (landmarks d))%nat) results ->
  exists s', processResults checkGrip results now s = Some s' /\
    (existsb detectsLeft results = false ->
       left s' = None /\ leftGripping s' = false /\
       leftVelocity s' = leftVelocity s /\
       forall results2 now2 s2,
         processResults checkGrip results2 now2 s' = Some s2 ->
         existsb detectsLeft results2 = false ->
         left s2 = None /\ leftGripping s2 = false /\
         leftVelocity s2 = leftVelocity s) /\
    (existsb detectsRight results = false ->
       right s' = None /\ rightGripping s' = false /\
       rightVelocity s' = rightVelocity s /\
       forall results2 now2 s2,
         processResults checkGrip results2 now2 s' = Some s2 ->
         existsb detectsRight results2 = false ->
         right s2 = None /\ rightGripping s2 = false /\
         rightVelocity s2 = rightVelocity s).
Proof.
  intros Hall.
  destruct (processResults_total results now s Hall) as [s' Hs'].
  exists s'. split; [exact Hs'|]. split; intros Hno.
  - destruct (processResults_no_left _ _ _ _ Hs' Hno) as (H1 & H2 & H3 & _).
    split; [exact H1|]. split; [exact H2|]. split; [exact H3|].
    intros results2 now2 s2 Hs2 Hno2.
    destruct (processResults_no_left _ _ _ _ Hs2 Hno2) as (H4 & H5 & H6 & _).
    split; [exact H4|]. split; [exact H5|]. congruence.
  - destruct (processResults_no_right _ _ _ _ Hs' Hno) as (H1 & H2 & H3 & _).
    split; [exact H1|]. split; [exact H2|]. split; [exact H3|].
    intros results2 now2 s2 Hs2 Hno2.
    destruct (processResults_no_right _ _ _ _ Hs2 Hno2) as (H4 & H5 & H6 & _).
    split; [exact H4|]. split; [exact H5|]. congruence.
Qed.

End Estimator.

Lemma index_checkGrip_total (lms : list Landmark) :
  (21 <= length lms)%nat -> is_Some (IndexTsx.checkGrip lms).
Proof. intros H. rewrite index_checkGrip_count by exact H. eauto. Qed.

Lemma hook_checkGrip_total (lms : list Landmark) :
  (21 <= length lms)%nat -> is_Some (UseMediaPipe.checkGrip lms).
Proof. intros H. rewrite hook_checkGrip_count by exact H. eauto. Qed.

(** C8, as stated, fails on the velocity: the left hand is seen twice, one
    second apart and moving, and is then lost for two frames; its position
    is absent and its grip false at once, but its velocity still holds the
    value computed while it was seen. *)
Lemma C8_velocity_survives_absence :
  exists s4,
    runFrames IndexTsx.processResults lostHandFrames initialHandPositions = Some s4 /\
    runFrames UseMediaPipe.processResults lostHandFrames initialHandPositions = Some s4 /\
    left s4 = None /\ leftGripping s4 = false /\
    vx (leftVelocity s4) = 0.6 /\ leftVelocity s4 <> mkVector3 0 0 0.
Proof.
  unfold lostHandFrames, handAt, runFrames, IndexTsx.processResults,
    UseMediaPipe.processResults, processResults.
  cbn. eexists. split; [reflexivity|]. split; [reflexivity|]. cbn.
  assert (Hv : vx (if Rgt_dec ((2000 - 1000) / 1000) 0.001
       then Vec.divideScalar
              (Vec.subVectors
                 (Vec.lerpVectors (mapHandToWorld 0.5 0.5) (mapHandToWorld 0.3 0.5) LERP)
                 (mapHandToWorld 0.5 0.5))
              ((2000 - 1000) / 1000)
       else mkVector3 0 0 0) = 0.6).
  { destruct (Rgt_dec _ _) as [_|Hn]; [|exfalso; lra].
    unfold LERP. cbn. lra. }
  repeat split; auto.
  intros Heq. rewrite Heq in Hv. simpl in Hv. lra.
Qed.

(** C8 (amended): when a processed frame of hands with 21 landmarks each
    holds no detection for a side, the resulting state has that side's
    position absent and its grip false, and its velocity is left as it was;
    after a second such frame the velocity is still the one from before the
    hand was lost.  This holds for the estimator of either build. *)
Theorem C8_absent_hand (results : list Detection) (now : R) (s : HandPositions) :
  Forall (fun d => (21 <= length (landmarks d))%nat) results ->
  forall process,
    process = IndexTsx.processResults \/ process = UseMediaPipe.processResults ->
    exists s', process results now s = Some s' /\
      (existsb detectsLeft results = false ->
         left s' = None /\ leftGripping s' = false /\
         leftVelocity s' = leftVelocity s /\
         forall results2 now2 s2,
           process results2 now2 s' = Some s2 ->
           existsb detectsLeft results2 = false ->
           left s2 = None /\ leftGripping s2 = false /\
           leftVelocity s2 = leftVelocity s) /\
      (existsb detectsRight results = false ->
         right s' = None /\ rightGripping s' = false /\
         rightVelocity s' = rightVelocity s /\
         forall results2 now2 s2,
           process results2 now2 s' = Some s2 ->
           existsb detectsRight results2 = false ->
           right s2 = None /\ rightGripping s2 = false /\
           rightVelocity s2 = rightVelocity s).
Proof.
  intros Hall process [-> | ->].
  - apply processResults_absent; auto using index_checkGrip_total.
  - apply processResults_absent; auto using hook_checkGrip_total.
Qed.

Lemma C8_absent_hand_witness :
  Forall (fun d => (21 <= length (landmarks d))%nat) [handAt 0.5 0.5 "Right"] /\
  exists s', IndexTsx.processResults [handAt 0.5 0.5 "Right"] 16 initialHandPositions = Some s' /\
    (existsb detectsLeft [handAt 0.5 0.5 "Right"] = false ->
       left s' = None /\ leftGripping s' = false /\
       leftVelocity s' = leftVelocity initialHandPositions /\
       forall results2 now2 s2,
         IndexTsx.processResults results2 now2 s' = Some s2 ->
         existsb detectsLeft results2 = false ->
         left s2 = None /\ leftGripping s2 = false /\
         leftVelocity s2 = leftVelocity initialHandPositions) /\
    (existsb detectsRight [handAt 0.5 0.5 "Right"] = false ->
       right s' = None /\ rightGripping s' = false /\
       rightVelocity s' = rightVelocity initialHandPositions /\
       forall results2 now2 s2,
         IndexTsx.processResults results2 now2 s' = Some s2 ->
         existsb detectsRight results2 = false ->
         right s2 = None /\ rightGripping s2 = false /\
         rightVelocity s2 = rightVelocity initialHandPositions).
Proof.
  assert (H : Forall (fun d => (21 <= length (landmarks d))%nat) [handAt 0.5 0.5 "Right"]).
  { constructor; [simpl; lia | constructor]. }
  split; [exact H|].
  exact (C8_absent_hand [handAt 0.5 0.5 "Right"] 16 initialHandPositions H
           IndexTsx.processResults (or_introl eq_refl)).
Defined.

(* ================================================================== *)
(** * Further properties: when the estimator throws *)
(* ================================================================== *)

Lemma index_checkGrip_short (lms : list Landmark) :
  (length lms < 21)%nat -> IndexTsx.checkGrip lms = None.
Proof.
  intros Hlen. assert (H20 : lms !! 20%nat = None) by (apply lookup_ge_None; lia).
  unfold IndexTsx.checkGrip, fingerIndices. cbn [IndexTsx.countCurled tip pip].
  repeat (match goal with
          | |- context [lms !! ?i] => destruct (lms !! i) eqn:?
          end; cbn [mbind option_bind]; try reflexivity; try discriminate).
Qed.

Lemma hook_checkGrip_short (lms : list Landmark) :
  (length lms < 21)%nat -> UseMediaPipe.checkGrip lms = None.
Proof.
  intros Hlen. assert (H20 : lms !! 20%nat = None) by (apply lookup_ge_None; lia).
  unfold UseMediaPipe.checkGrip, fingerIndices. cbn [UseMediaPipe.countCurled tip pip].
  repeat (match goal with
          | |- context [lms !! ?i] => destruct (lms !! i) eqn:?
          end; cbn [mbind option_bind]; try reflexivity; try discriminate).
Qed.

Section Throws.

Variable checkGrip : list Landmark -> option bool.
Hypothesis checkGrip_total :
  forall lms, (21 <= length lms)%nat -> is_Some (checkGrip lms).
Hypothesis checkGrip_short :
  forall lms, (length lms < 21)%nat -> checkGrip lms = None.

Lemma detectLoop_None_iff (results : list Detection) (acc : Detected) :
  detectLoop checkGrip results acc = None <-> Exists tooShort results.
Proof.
  revert acc. induction results as [|d results IH]; intros acc.
  - cbn. split; [discriminate|]. intros H. inversion H.
  - rewrite Exists_cons. cbn [detectLoop]. unfold tooShort at 1.
    destruct (handedness d) as [name|].
    2: { rewrite IH. split; [auto|]. intros [[H _]|H]; congruence || exact H. }
    destruct (Nat.lt_ge_cases (length (landmarks d)) 21) as [Hlt|Hge].
    + split; [intros _; left; split; [discriminate|exact Hlt]|]. intros _.
      destruct (landmarks d !! 8%nat); [|reflexivity].
      cbn [mbind option_bind]. rewrite (checkGrip_short _ Hlt). reflexivity.
    + destruct (lookup_lt_is_Some_2 (landmarks d) 8) as [t ->]; [lia|].
      destruct (checkGrip_total _ Hge) as [g ->]. cbn [mbind option_bind].
      destruct (string_dec name "Right"); rewrite IH;
        (split; [auto|]; intros [[_ H]|H]; [lia|exact H]).
Qed.

Lemma processResults_None_iff (results : list Detection) (now : R) (s : HandPositions) :
  processResults checkGrip results now s = None <-> Exists tooShort results.
Proof.
  rewrite <- (detectLoop_None_iff results (mkDetected None None false false)).
  unfold processResults.
  destruct (detectLoop checkGrip results _) as [d|]; cbn [mbind option_bind].
  - repeat case_match; split; discriminate.
  - split; reflexivity.
Qed.

End Throws.

(** X2: the estimator throws exactly on a short landmark array.  Either
    grip classifier fails exactly when it is given fewer than 21 landmarks,
    and [processResults] fails exactly when some detection that carries a handedness has
    fewer than 21 landmarks; a detection without handedness is skipped
    before its landmarks are read. *)
Theorem X2_estimator_throws (results : list Detection) (now : R) (s : HandPositions)
  (lms : list Landmark) :
  (IndexTsx.checkGrip lms = None <-> (length lms < 21)%nat) /\
  (UseMediaPipe.checkGrip lms = None <-> (length lms < 21)%nat) /\
  (IndexTsx.processResults results now s = None <-> Exists tooShort results) /\
  (UseMediaPipe.processResults results now s = None <-> Exists tooShort results).
Proof.
  split; [|split; [|split]].
  - split; [|apply index_checkGrip_short]. intros Hn.
    destruct (Nat.lt_ge_cases (length lms) 21) as [Hlt|Hge]; [exact Hlt|].
    destruct (index_checkGrip_total lms Hge) as [b Hb]. congruence.
  - split; [|apply hook_checkGrip_short]. intros Hn.
    destruct (Nat.lt_ge_cases (length lms) 21) as [Hlt|Hge]; [exact Hlt|].
    destruct (hook_checkGrip_total lms Hge) as [b Hb]. congruence.
  - apply processResults_None_iff;
      [apply index_checkGrip_total|apply index_checkGrip_short].
  - apply processResults_None_iff;
      [apply hook_checkGrip_total|apply hook_checkGrip_short].
Qed.

(* ================================================================== *)
(** * Further properties: a hand that is tracked *)
(* ================================================================== *)

Lemma rawHand_cons (d : Detection) (results : list Detection) (isRight : bool)
  (p : Vector3) :
  rawHand results isRight p -> rawHand (d :: results) isRight p.
Proof.
  intros (d' & tip & Hin & Hside & Htip & Hp). exists d', tip.
  repeat split; try assumption. right. exact Hin.
Qed.

Section Tracking.

Variable checkGrip : list Landmark -> option bool.

Lemma detectLoop_raw (results : list Detection) (acc d : Detected) :
  detectLoop checkGrip results acc = Some d ->
  (forall p, newRight d = Some p -> newRight acc = Some p \/ rawHand results true p) /\
  (forall p, newLeft d = Some p -> newLeft acc = Some p \/ rawHand results false p).
Proof.
  revert acc. induction results as [|x rest IH]; intros acc H; cbn [detectLoop] in H.
  - injection H as <-. split; auto.
  - destruct (handedness x) as [name|] eqn:Hh.
    2: { destruct (IH _ H) as [HR HL].
         split; intros p Hp; [destruct (HR p Hp)|destruct (HL p Hp)];
           auto using rawHand_cons. }
    destruct (landmarks x !! 8%nat) as [tip|] eqn:Htip; cbn [mbind option_bind] in H;
      [|discriminate].
    destruct (checkGrip (landmarks x)) as [g|]; cbn [mbind option_bind] in H;
      [|discriminate].
    destruct (string_dec name "Right") as [Hname|Hname];
      destruct (IH _ H) as [HR HL]; cbn [newLeft newRight] in HR, HL;
      split; intros p Hp; [destruct (HR p Hp) as [Hacc|Hraw]
                          |destruct (HL p Hp) as [Hacc|Hraw]
                          |destruct (HR p Hp) as [Hacc|Hraw]
                          |destruct (HL p Hp) as [Hacc|Hraw]];
      auto using rawHand_cons.
    + injection Hacc as <-. right. exists x, tip. repeat split; auto.
      * left. reflexivity.
      * unfold detectsRight. rewrite Hh.
        destruct (string_dec name "Right"); [reflexivity|contradiction].
    + injection Hacc as <-. right. exists x, tip. repeat split; auto.
      * left. reflexivity.
      * unfold detectsLeft. rewrite Hh.
        destruct (string_dec name "Right"); [contradiction|reflexivity].
Qed.

(** X17: what [processResults] stores for a hand it sees, in either build.
    The timestamp becomes [now].  If the hand had a position [q] before,
    the new position is [q] moved 0.6 of the way to the fingertip position
    [raw] of one of this frame's detections of that hand, [lastRight]
    ([lastLeft]) is [q], and, when more than 1 ms has passed, the velocity
    is 0.6 of the raw displacement [raw - q] per second; with 1 ms or less
    the velocity is left as it was.  If the hand had no position, the new
    position is [raw] itself and the velocity is left as it was. *)
Theorem X17_tracked_hand (results : list Detection) (now : R) (s s' : HandPositions) :
  processResults checkGrip results now s = Some s' ->
  lastTimestamp s' = now /\
  (forall p', right s' = Some p' ->
     match right s with
     | Some q =>
         lastRight s' = Some q /\
         exists raw, rawHand results true raw /\ p' = Vec.lerpVectors q raw LERP /\
           (now - lastTimestamp s > 1 ->
            rightVelocity s' =
            Vec.multiplyScalar (Vec.subVectors raw q) (0.6 * (1000 / (now - lastTimestamp s)))) /\
           (now - lastTimestamp s <= 1 -> rightVelocity s' = rightVelocity s)
     | None =>
         rawHand results true p' /\ lastRight s' = Some p' /\
         rightVelocity s' = rightVelocity s
     end) /\
  (forall p', left s' = Some p' ->
     match left s with
     | Some q =>
         lastLeft s' = Some q /\
         exists raw, rawHand results false raw /\ p' = Vec.lerpVectors q raw LERP /\
           (now - lastTimestamp s > 1 ->
            leftVelocity s' =
            Vec.multiplyScalar (Vec.subVectors raw q) (0.6 * (1000 / (now - lastTimestamp s)))) /\
           (now - lastTimestamp s <= 1 -> leftVelocity s' = leftVelocity s)
     | None =>
         rawHand results false p' /\ lastLeft s' = Some p' /\
         leftVelocity s' = leftVelocity s
     end).
Proof.
  unfold processResults.
  destruct (detectLoop checkGrip results _) as [d|] eqn:Hd; cbn [mbind option_bind];
    [|discriminate].
  destruct (detectLoop_raw _ _ _ Hd) as [HR HL]. cbn [newLeft newRight] in HR, HL.
  assert (Hvel : forall raw q : Vector3,
            now - lastTimestamp s > 1 ->
            Vec.divideScalar (Vec.subVectors (Vec.lerpVectors q raw LERP) q)
              ((now - lastTimestamp s) / 1000)
            = Vec.multiplyScalar (Vec.subVectors raw q)
                (0.6 * (1000 / (now - lastTimestamp s)))).
  { intros raw q Hdt.
    unfold Vec.divideScalar, Vec.multiplyScalar, Vec.subVectors, Vec.lerpVectors, LERP.
    cbn [vx vy vz]. f_equal; field; lra. }
  destruct (newLeft d) as [nl|] eqn:Hnl; destruct (newRight d) as [nr|] eqn:Hnr;
    destruct (left s) as [sl|] eqn:Hsl; destruct (right s) as [sr|] eqn:Hsr;
    intros [= <-]; cbn [lastTimestamp right left lastRight lastLeft
                        rightVelocity leftVelocity];
    (split; [reflexivity|]);
    (split;
     [intros p' [= <-]; destruct (HR _ eq_refl) as [Habs|Hraw]; try discriminate
     |intros p' [= <-]; destruct (HL _ eq_refl) as [Habs|Hraw]; try discriminate]);
    first
      [ split; [exact Hraw|split; reflexivity]
      | split; [reflexivity|]; eexists; split; [exact Hraw|]; split; [reflexivity|];
        destruct (Rgt_dec ((now - lastTimestamp s) / 1000) 0.001) as [Hgt|Hle];
        split; intros Hdt; try (exfalso; lra); first [apply Hvel, Hdt|reflexivity] ].
Qed.

End Tracking.

Lemma rightSeen_tracked :
  exists s',
    IndexTsx.processResults [handAt 0.3 0.5 "Right"] 2000 rightSeen = Some s' /\
    right s' = Some (Vec.lerpVectors (mapHandToWorld 0.5 0.5) (mapHandToWorld 0.3 0.5) LERP).
Proof.
  unfold IndexTsx.processResults, processResults, handAt, rightSeen. cbn.
  eexists. split; reflexivity.
Qed.

Lemma X17_tracked_hand_witness :
  exists s',
    IndexTsx.processResults [handAt 0.3 0.5 "Right"] 2000 rightSeen = Some s' /\
    lastTimestamp s' = 2000 /\
    lastRight s' = Some (mapHandToWorld 0.5 0.5).
Proof.
  destruct rightSeen_tracked as (s' & Hs' & Hright).
  exists s'. split; [exact Hs'|].
  destruct (X17_tracked_hand IndexTsx.checkGrip _ _ _ _ Hs') as (Hnow & HR & _).
  split; [exact Hnow|]. exact (proj1 (HR _ Hright)).
Defined.

(* ================================================================== *)
(** * The demo charts *)
(* ================================================================== *)

Section Sorting.

Context {A : Type}.
Variable key : A -> R.

Let byKey (a b : A) : R := key a - key b.
Let keyLe (a b : A) : Prop := key a <= key b.

Lemma sort_insert_In (x y : A) (l : list A) :
  In y (sort_insert byKey x l) -> y = x \/ In y l.
Proof.
  induction l as [|z l IH]; simpl.
  - intros [<-|[]]. auto.
  - destruct (Rlt_dec (byKey z x) 0); simpl.
    + intros [<-|H]; [auto|]. destruct (IH H); auto.
    + intros [<-|[<-|H]]; auto.
Qed.

Lemma sort_insert_sorted (x : A) (l : list A) :
  StronglySorted keyLe l -> StronglySorted keyLe (sort_insert byKey x l).
Proof.
  induction 1 as [|z l Hl IH Hz]; simpl.
  - repeat constructor.
  - destruct (Rlt_dec (byKey z x) 0) as [Hlt|Hge].
    + constructor; [exact IH|]. apply List.Forall_forall. intros y Hy.
      destruct (sort_insert_In _ _ _ Hy) as [->|Hin].
      * unfold keyLe, byKey in *. lra.
      * rewrite List.Forall_forall in Hz. auto.
    + assert (Hxz : keyLe x z) by (unfold keyLe, byKey in *; lra).
      constructor; [constructor; assumption|].
      constructor; [exact Hxz|].
      eapply List.Forall_impl; [|exact Hz]. unfold keyLe in *. intros; simpl in *. lra.
Qed.

Lemma Array_sort_sorted (l : list A) :
  StronglySorted keyLe (Array_sort byKey l).
Proof.
  induction l as [|x l IH]; simpl; [constructor|].
  apply sort_insert_sorted, IH.
Qed.

Lemma sort_insert_length (x : A) (l : list A) :
  length (sort_insert byKey x l) = S (length l).
Proof.
  induction l as [|z l IH]; simpl; [reflexivity|].
  destruct (Rlt_dec _ _); simpl; congruence.
Qed.

Lemma Array_sort_length (l : list A) : length (Array_sort byKey l) = length l.
Proof.
  induction l as [|x l IH]; simpl; [reflexivity|].
  rewrite sort_insert_length. congruence.
Qed.

Lemma sorted_lookup (l : list A) (i d : nat) :
  StronglySorted keyLe l ->
  match l !! i, l !! (i + d)%nat with
  | Some a, Some b => key a <= key b
  | _, _ => True
  end.
Proof.
  intros Hs. revert i. induction Hs as [|x l Hl IH Hx]; intros i.
  - rewrite lookup_nil. exact I.
  - destruct i as [|i]; simpl.
    + destruct d as [|d]; simpl; [lra|].
      destruct (l !! d) as [b|] eqn:Hb; [|exact I].
      rewrite Forall_forall in Hx. apply Hx.
      eapply list_elem_of_lookup_2, Hb.
    + apply IH.
Qed.

End Sorting.

(** More fuel than the loop bound needs changes nothing. *)
Lemma index_chartLoop_fuel (fuel extra i : nat) (notes : list IndexTsx.NoteData) (idCount : nat) :
  (200 <= i + 2 * fuel)%nat ->
  IndexTsx.chartLoop (fuel + extra) i notes idCount = IndexTsx.chartLoop fuel i notes idCount.
Proof.
  revert i notes idCount. induction fuel as [|fuel IH]; intros i notes idCount Hi.
  - simpl. destruct extra; simpl; [reflexivity|].
    destruct (Nat.ltb_spec i 200); [lia|reflexivity].
  - simpl. destruct (Nat.ltb_spec i 200); [|reflexivity]. apply IH. lia.
Qed.

Lemma constants_chartLoop_fuel (random : nat -> R) (fuel extra i : nat)
  (st : ConstantsTs.LoopState) :
  (400 <= i + fuel)%nat ->
  ConstantsTs.chartLoop random (fuel + extra) i st = ConstantsTs.chartLoop random fuel i st.
Proof.
  revert i st. induction fuel as [|fuel IH]; intros i st Hi.
  - simpl. destruct extra; simpl; [reflexivity|].
    destruct (Nat.ltb_spec i 400); [lia|reflexivity].
  - simpl. destruct (Nat.ltb_spec i 400); [|reflexivity]. apply IH. lia.
Qed.

(** C10: both demo charts come out of [generateDemoChart] sorted by time:
    the note at index [i] is never later than the note at any index
    [i + d]; for the chart of [src/constants.ts] this holds whatever values
    [Math.random()] returns. *)
Theorem C10_demo_chart_sorted (i d : nat) :
  match IndexTsx.generateDemoChart !! i, IndexTsx.generateDemoChart !! (i + d)%nat with
  | Some a, Some b => IndexTsx.time a <= IndexTsx.time b
  | _, _ => True
  end /\
  forall random : nat -> R,
    match ConstantsTs.generateDemoChart random !! i,
          ConstantsTs.generateDemoChart random !! (i + d)%nat with
    | Some a, Some b => ConstantsTs.time a <= ConstantsTs.time b
    | _, _ => True
    end.
Proof.
  split; [|intros random].
  - apply (sorted_lookup IndexTsx.time), Array_sort_sorted.
  - apply (sorted_lookup ConstantsTs.time), Array_sort_sorted.
Qed.

Lemma index_demo_chart_length : length IndexTsx.generateDemoChart = 114%nat.
Proof.
  unfold IndexTsx.generateDemoChart.
  rewrite (Array_sort_length IndexTsx.time). lazy. reflexivity.
Qed.

(* ================================================================== *)
(** * Activation *)
(* ================================================================== *)

Import IndexTsx.

Lemma spawnAheadTime_eq : spawnAheadTime = 3.
Proof.
  unfold spawnAheadTime, SPAWN_Z, PLAYER_Z, NOTE_SPEED.
  rewrite Rabs_left by lra. lra.
Qed.

Lemma activate_spec (fuel : nat) (t : R) (sc : Scene) :
  notesState (activate fuel t sc) = notesState sc /\
  (nextNoteIndexRef sc <= nextNoteIndexRef (activate fuel t sc))%nat /\
  activeNotesRef (activate fuel t sc) =
    activeNotesRef sc ++
    seq (nextNoteIndexRef sc) (nextNoteIndexRef (activate fuel t sc) - nextNoteIndexRef sc) /\
  (forall k note,
     (nextNoteIndexRef sc <= k < nextNoteIndexRef (activate fuel t sc))%nat ->
     notesState sc !! k = Some note -> time note - spawnAheadTime <= t) /\
  ((length (notesState sc) <= nextNoteIndexRef sc + fuel)%nat ->
   forall note, notesState sc !! nextNoteIndexRef (activate fuel t sc) = Some note ->
                ~ time note - spawnAheadTime <= t).
Proof.
  revert sc. induction fuel as [|fuel IH]; intros sc.
  - simpl. rewrite Nat.sub_diag, app_nil_r. repeat split; try lia.
    intros Hlen note Hk. apply lookup_lt_Some in Hk. lia.
  - simpl. destruct (notesState sc !! nextNoteIndexRef sc) as [nextNote|] eqn:Hnext.
    + unfold js_le. destruct (Rle_dec _ _) as [Hdue|Hnot].
      * destruct (IH (mkScene (notesState sc)
                        (activeNotesRef sc ++ [nextNoteIndexRef sc])
                        (S (nextNoteIndexRef sc)))) as (H1 & H2 & H3 & H4 & H5).
        simpl in *. repeat split.
        -- exact H1.
        -- lia.
        -- rewrite H3, <- app_assoc. f_equal.
           replace (nextNoteIndexRef (activate fuel t _) - nextNoteIndexRef sc)%nat
             with (S (nextNoteIndexRef (activate fuel t
                        (mkScene (notesState sc)
                           (activeNotesRef sc ++ [nextNoteIndexRef sc])
                           (S (nextNoteIndexRef sc)))) - S (nextNoteIndexRef sc)))
             by lia.
           reflexivity.
        -- intros k note Hk Hnote.
           destruct (Nat.eq_dec k (nextNoteIndexRef sc)) as [->|Hne].
           ++ rewrite Hnext in Hnote. injection Hnote as <-. exact Hdue.
           ++ apply (H4 k); [lia|exact Hnote].
        -- intros Hlen. apply H5. lia.
      * rewrite Nat.sub_diag, app_nil_r. repeat split; try lia.
        intros _ note Hnote. rewrite Hnext in Hnote. injection Hnote as <-. exact Hnot.
    + rewrite Nat.sub_diag, app_nil_r. repeat split; try lia.
      intros _ note Hnote. rewrite Hnext in Hnote. discriminate.
Qed.

Lemma resolveAt_frame (t : R) (hands : HandPositions) (i : nat) (st : Scene * list Event) :
  nextNoteIndexRef (resolveAt t hands i st).1 = nextNoteIndexRef st.1 /\
  length (notesState (resolveAt t hands i st).1) = length (notesState st.1).
Proof.
  destruct st as [sc ev]. unfold resolveAt.
  repeat case_match; simpl; rewrite ?length_insert; auto.
Qed.

Lemma resolveLoop_frame (t : R) (hands : HandPositions) (k : nat) (st : Scene * list Event) :
  nextNoteIndexRef (resolveLoop t hands k st).1 = nextNoteIndexRef st.1 /\
  length (notesState (resolveLoop t hands k st).1) = length (notesState st.1).
Proof.
  revert st. induction k as [|k IH]; intros st; simpl; [auto|].
  destruct (IH (resolveAt t hands k st)) as [-> ->]. apply resolveAt_frame.
Qed.

Lemma useFrame_cursor (status : GameStatus) (audio : option Audio)
  (hands : HandPositions) (sc : Scene) :
  nextNoteIndexRef (useFrame status audio hands sc).1 = nextNoteIndexRef sc \/
  exists a, status = PLAYING /\ audio = Some a /\ ended a = false /\
    nextNoteIndexRef (useFrame status audio hands sc).1 =
    nextNoteIndexRef (activate (length (notesState sc)) (currentTime a) sc).
Proof.
  unfold useFrame. destruct status; auto. destruct audio as [a|]; auto.
  destruct (ended a) eqn:He; auto. right. exists a. repeat split; auto.
  apply resolveLoop_frame.
Qed.

Lemma useFrame_cursor_mono (status : GameStatus) (audio : option Audio)
  (hands : HandPositions) (sc : Scene) :
  (nextNoteIndexRef sc <= nextNoteIndexRef (useFrame status audio hands sc).1)%nat.
Proof.
  destruct (useFrame_cursor status audio hands sc) as [->|(a & _ & _ & _ & ->)]; [lia|].
  apply activate_spec.
Qed.

Lemma playFrames_cursor_mono (ticks : list (Audio * HandPositions)) (sc : Scene) :
  (nextNoteIndexRef sc <= nextNoteIndexRef (playFrames ticks sc).1)%nat.
Proof.
  revert sc. induction ticks as [|[a hands] ticks IH]; intros sc; [simpl; lia|].
  cbn [playFrames].
  pose proof (useFrame_cursor_mono PLAYING (Some a) hands sc) as H1.
  destruct (useFrame PLAYING (Some a) hands sc) as [sc1 ev1]. simpl in H1.
  specialize (IH sc1). destruct (playFrames ticks sc1) as [sc2 ev2]. simpl in *. lia.
Qed.

(** C4: the activation cursor never decreases, over one frame and over any
    sequence of ticks (whatever their times); the lookahead is the
    spawn-to-player distance over the note speed (30 / 10 = 3 s); the
    activation loop appends to the active list exactly the chart indices
    from the old cursor up to the new one; and, the chart being in time
    order, a note at or after the old cursor is activated in this tick
    exactly when [time - lookahead <= t]. *)
Theorem C4_activation_cursor (sc : Scene) (a : Audio) (hands : HandPositions)
  (ticks : list (Audio * HandPositions)) :
  (nextNoteIndexRef sc <= nextNoteIndexRef (playFrames ticks sc).1)%nat /\
  (nextNoteIndexRef sc <= nextNoteIndexRef (useFrame PLAYING (Some a) hands sc).1)%nat /\
  spawnAheadTime = Rabs (SPAWN_Z - PLAYER_Z) / NOTE_SPEED /\
  activeNotesRef (activate (length (notesState sc)) (currentTime a) sc) =
    activeNotesRef sc ++
    seq (nextNoteIndexRef sc)
        (nextNoteIndexRef (activate (length (notesState sc)) (currentTime a) sc)
         - nextNoteIndexRef sc) /\
  (timeSorted (notesState sc) -> ended a = false ->
   forall k note,
     (nextNoteIndexRef sc <= k)%nat -> notesState sc !! k = Some note ->
     ((k < nextNoteIndexRef (useFrame PLAYING (Some a) hands sc).1)%nat <->
      time note - spawnAheadTime <= currentTime a)).
Proof.
  split; [apply playFrames_cursor_mono|].
  split; [apply useFrame_cursor_mono|].
  split; [reflexivity|].
  destruct (activate_spec (length (notesState sc)) (currentTime a) sc)
    as (Hn & Hmono & Hact & Hdue & Hexit).
  split; [exact Hact|].
  intros Hsorted Hended k note Hk Hnote.
  assert (Hc : nextNoteIndexRef (useFrame PLAYING (Some a) hands sc).1 =
               nextNoteIndexRef (activate (length (notesState sc)) (currentTime a) sc)).
  { unfold useFrame. rewrite Hended. apply resolveLoop_frame. }
  rewrite Hc. split.
  - intros Hlt. apply (Hdue k); [lia|exact Hnote].
  - intros Hd.
    destruct (Nat.lt_ge_cases k
                (nextNoteIndexRef (activate (length (notesState sc)) (currentTime a) sc)))
      as [Hlt|Hge]; [exact Hlt|exfalso].
    destruct (lookup_lt_is_Some_2 (notesState sc)
                (nextNoteIndexRef (activate (length (notesState sc)) (currentTime a) sc)))
      as [stop Hstop].
    { apply lookup_lt_Some in Hnote. lia. }
    assert (Hfuel : (length (notesState sc) <= nextNoteIndexRef sc + length (notesState sc))%nat)
      by lia.
    apply (Hexit Hfuel stop Hstop).
    pose proof (Hsorted _ _ _ _ Hge Hstop Hnote). lra.
Qed.

Lemma twoNotes_sorted : timeSorted twoNotes.
Proof.
  intros i j a b Hij Ha Hb. unfold twoNotes in *.
  destruct i as [|[|i]], j as [|[|j]]; simpl in *; simplify_eq; simpl; try lra; lia.
Qed.

Lemma C4_activation_cursor_witness :
  timeSorted twoNotes /\
  forall k note,
    (0 <= k)%nat -> twoNotes !! k = Some note ->
    ((k < nextNoteIndexRef
            (useFrame PLAYING (Some (mkAudio 0 false)) initialHandPositions
               (mountScene twoNotes)).1)%nat <->
     time note - spawnAheadTime <= 0).
Proof.
  split; [exact twoNotes_sorted|].
  exact (proj2 (proj2 (proj2 (proj2
           (C4_activation_cursor (mountScene twoNotes) (mkAudio 0 false)
              initialHandPositions []))))
           twoNotes_sorted eq_refl).
Defined.

(* ================================================================== *)
(** * The judgement loop *)
(* ================================================================== *)

Lemma omap_ext_in {A B : Type} (f g : A -> option B) (l : list A) :
  (forall x, x ∈ l -> f x = g x) -> omap f l = omap g l.
Proof.
  induction l as [|x l IH]; intros H; [reflexivity|]. cbn [omap list_omap].
  rewrite (H x) by constructor. rewrite IH; [reflexivity|].
  intros y Hy. apply H. constructor. exact Hy.
Qed.

Lemma filter_ext_in {A : Type} (P Q : A -> Prop)
  `{!forall x, Decision (P x)} `{!forall x, Decision (Q x)} (l : list A) :
  (forall x, x ∈ l -> P x <-> Q x) -> filter P l = filter Q l.
Proof.
  induction l as [|x l IH]; intros Hext; [reflexivity|].
  assert (Hl : filter P l = filter Q l).
  { apply IH. intros y Hy. apply Hext. constructor. exact Hy. }
  destruct (decide (P x)) as [Hx|Hx].
  - rewrite !filter_cons_True; [congruence| |exact Hx]. apply Hext; [constructor|exact Hx].
  - rewrite !filter_cons_False; [exact Hl| |exact Hx].
    intros Hq. apply Hx, Hext; [constructor|exact Hq].
Qed.

Section JudgementLoop.

Variable t : R.
Variable hands : HandPositions.

Lemma resolveAt_out_of_range (i : nat) (sc : Scene) (ev : list Event) :
  activeNotesRef sc !! i = None -> resolveAt t hands i (sc, ev) = (sc, ev).
Proof. intros H. unfold resolveAt. rewrite H. reflexivity. Qed.

Lemma resolveAt_pending (i r : nat) (sc : Scene) (ev : list Event) :
  activeNotesRef sc !! i = Some r ->
  judgeRef t hands (notesState sc) r = Pending ->
  resolveAt t hands i (sc, ev) = (sc, ev).
Proof.
  intros Hi Hj. unfold resolveAt, judgeRef in *. rewrite Hi.
  destruct (notesState sc !! r); [rewrite Hj|]; reflexivity.
Qed.

Lemma resolveAt_settled (i r : nat) (sc : Scene) (ev : list Event) (note : NoteData) (e : Event) :
  activeNotesRef sc !! i = Some r ->
  notesState sc !! r = Some note ->
  eventOf r (judge t hands note) = Some e ->
  resolveAt t hands i (sc, ev) =
  (mkScene (<[r := settle t (judge t hands note) note]> (notesState sc))
           (delete i (activeNotesRef sc)) (nextNoteIndexRef sc),
   ev ++ [e]).
Proof.
  intros Hi Hr He. unfold resolveAt. rewrite Hi, Hr.
  destruct (judge t hands note); simpl in *; simplify_eq; reflexivity.
Qed.

Lemma judgeRef_insert_ne (notes : list NoteData) (r r' : nat) (n : NoteData) :
  r <> r' -> judgeRef t hands (<[r := n]> notes) r' = judgeRef t hands notes r'.
Proof. intros H. unfold judgeRef. rewrite list_lookup_insert_ne by exact H. reflexivity. Qed.

Lemma settle_pending_fmap (o : option NoteData) : settle t Pending <$> o = o.
Proof. destruct o; reflexivity. Qed.

Lemma judgeRef_not_pending (notes : list NoteData) (r : nat) :
  judgeRef t hands notes r <> Pending ->
  exists note e, notes !! r = Some note /\ eventOf r (judge t hands note) = Some e.
Proof.
  unfold judgeRef. destruct (notes !! r) as [note|]; [|congruence].
  intros Hj. exists note. destruct (judge t hands note); [congruence| |]; simpl; eauto.
Qed.

(** The loop, run over the first [k] entries of the active list from the
    last to the first, judges each of them against the note flags as they
    were when the loop started: it emits their events in that order, keeps
    the entries still pending, and writes the flags of the others. *)
Lemma resolveLoop_spec (k : nat) (sc : Scene) (ev : list Event) :
  NoDup (activeNotesRef sc) ->
  (k <= length (activeNotesRef sc))%nat ->
  (resolveLoop t hands k (sc, ev)).2 =
    ev ++ omap (fun r => eventOf r (judgeRef t hands (notesState sc) r))
               (reverse (take k (activeNotesRef sc))) /\
  activeNotesRef (resolveLoop t hands k (sc, ev)).1 =
    filter (fun r => judgeRef t hands (notesState sc) r = Pending)
           (take k (activeNotesRef sc))
    ++ drop k (activeNotesRef sc) /\
  forall r,
    notesState (resolveLoop t hands k (sc, ev)).1 !! r =
    if decide (r ∈ take k (activeNotesRef sc))
    then settle t (judgeRef t hands (notesState sc) r) <$> notesState sc !! r
    else notesState sc !! r.
Proof.
  revert sc ev. induction k as [|k IH]; intros sc ev Hnd Hk.
  { simpl. rewrite app_nil_r. repeat split. }
  destruct (lookup_lt_is_Some_2 (activeNotesRef sc) k) as [r Hr]; [lia|].
  assert (Hfresh : r ∉ take k (activeNotesRef sc)).
  { intros (i & Hi & Hlt)%elem_of_take.
    pose proof (NoDup_lookup _ _ _ _ Hnd Hi Hr). lia. }
  rewrite (take_S_r _ _ _ Hr), reverse_snoc, filter_app.
  cbn [resolveLoop omap list_omap].
  destruct (decide (judgeRef t hands (notesState sc) r = Pending)) as [Hp|Hp].
  - rewrite (resolveAt_pending _ _ _ _ Hr Hp).
    destruct (IH sc ev Hnd ltac:(lia)) as (He & Ha & Hs).
    rewrite Hp. cbn [eventOf]. split; [exact He|]. split.
    + rewrite Ha, (drop_S _ _ _ Hr), filter_cons_True, filter_nil by exact Hp.
      rewrite <- app_assoc. reflexivity.
    + intros r'. rewrite Hs.
      destruct (decide (r' = r)) as [->|Hne].
      * rewrite decide_False by exact Hfresh.
        rewrite decide_True by (apply elem_of_app; right; constructor).
        rewrite Hp, settle_pending_fmap. reflexivity.
      * destruct (decide (r' ∈ take k (activeNotesRef sc))) as [Hin|Hout].
        -- rewrite decide_True by (apply elem_of_app; left; exact Hin). reflexivity.
        -- rewrite decide_False; [reflexivity|].
           intros [?|?%list_elem_of_singleton]%elem_of_app; tauto.
  - destruct (judgeRef_not_pending _ _ Hp) as (note & e & Hnote & He).
    rewrite (resolveAt_settled _ _ _ _ _ _ Hr Hnote He).
    set (sc1 := mkScene _ _ _).
    assert (Htake : take k (activeNotesRef sc1) = take k (activeNotesRef sc)).
    { subst sc1. cbn [activeNotesRef]. rewrite delete_take_drop.
      apply take_app_length'. rewrite length_take. lia. }
    assert (Hdrop : drop k (activeNotesRef sc1) = drop (S k) (activeNotesRef sc)).
    { subst sc1. cbn [activeNotesRef]. rewrite delete_take_drop.
      apply drop_app_length'. rewrite length_take. lia. }
    assert (Hsame : forall r', r' ∈ take k (activeNotesRef sc) ->
              judgeRef t hands (notesState sc1) r' = judgeRef t hands (notesState sc) r').
    { intros r' Hin. subst sc1. cbn [notesState].
      apply judgeRef_insert_ne. intros ->. tauto. }
    destruct (IH sc1 (ev ++ [e])) as (Hev & Ha & Hs).
    { subst sc1. cbn [activeNotesRef].
      eapply sublist_NoDup; [exact Hnd|apply sublist_delete]. }
    { subst sc1. cbn [activeNotesRef]. rewrite length_delete by eauto. lia. }
    rewrite Htake in Hev, Ha, Hs. rewrite Hdrop in Ha.
    assert (Hjr : judgeRef t hands (notesState sc) r = judge t hands note).
    { unfold judgeRef. rewrite Hnote. reflexivity. }
    split; [|split].
    + rewrite Hev, Hjr, He, <- app_assoc. cbn [app]. f_equal. f_equal.
      apply omap_ext_in. intros r' Hin. rewrite elem_of_reverse in Hin.
      rewrite Hsame by exact Hin. reflexivity.
    + rewrite Ha, filter_cons_False, filter_nil, app_nil_r by exact Hp.
      f_equal. apply filter_ext_in. intros r' Hin. rewrite Hsame by exact Hin. tauto.
    + intros r'. rewrite Hs. subst sc1. cbn [notesState].
      destruct (decide (r' = r)) as [->|Hne].
      * rewrite decide_False by exact Hfresh.
        rewrite decide_True by (apply elem_of_app; right; constructor).
        rewrite list_lookup_insert_eq by (eapply lookup_lt_Some, Hnote).
        rewrite Hjr, Hnote. reflexivity.
      * rewrite list_lookup_insert_ne by congruence.
        destruct (decide (r' ∈ take k (activeNotesRef sc))) as [Hin|Hout].
        -- rewrite decide_True by (apply elem_of_app; left; exact Hin).
           rewrite judgeRef_insert_ne by congruence. reflexivity.
        -- rewrite decide_False; [reflexivity|].
           intros [?|?%list_elem_of_singleton]%elem_of_app; tauto.
Qed.

End JudgementLoop.

Lemma StronglySorted_filter {A : Type} (R : relation A) (P : A -> Prop)
  `{!forall x, Decision (P x)} (l : list A) :
  StronglySorted R l -> StronglySorted R (filter P l).
Proof.
  induction 1 as [|x l Hl IH Hx]; [constructor|].
  destruct (decide (P x)).
  - rewrite filter_cons_True by assumption. constructor; [exact IH|].
    apply Forall_forall. intros y [_ Hy]%list_elem_of_filter.
    rewrite Forall_forall in Hx. auto.
  - rewrite filter_cons_False by assumption. exact IH.
Qed.

Lemma StronglySorted_lt_NoDup (l : list nat) : StronglySorted lt l -> NoDup l.
Proof.
  induction 1 as [|x l Hl IH Hx]; constructor; [|exact IH].
  intros Hin. rewrite Forall_forall in Hx. specialize (Hx x Hin). lia.
Qed.

Lemma StronglySorted_reverse_gt (l : list nat) :
  StronglySorted lt l -> StronglySorted gt (reverse l).
Proof.
  induction 1 as [|x l Hl IH Hx]; [constructor|].
  rewrite reverse_cons. apply StronglySorted_app_2.
  - intros y z Hy ->%list_elem_of_singleton. rewrite elem_of_reverse in Hy.
    rewrite Forall_forall in Hx. specialize (Hx y Hy). lia.
  - exact IH.
  - repeat constructor.
Qed.

Lemma scene_ok_NoDup (sc : Scene) : scene_ok sc -> NoDup (activeNotesRef sc).
Proof. intros (Hs & _ & _). apply StronglySorted_lt_NoDup, Hs. Qed.

Lemma scene_ok_mount (chart : list NoteData) : scene_ok (mountScene chart).
Proof. unfold scene_ok, mountScene; simpl. repeat split; [constructor|constructor|lia]. Qed.

Lemma scene_ok_activate (fuel : nat) (t : R) (sc : Scene) :
  scene_ok sc -> scene_ok (activate fuel t sc).
Proof.
  revert sc. induction fuel as [|fuel IH]; intros sc Hok; simpl; [exact Hok|].
  destruct (notesState sc !! nextNoteIndexRef sc) as [n|] eqn:Hn; [|exact Hok].
  destruct (js_le _ _); [|exact Hok]. apply IH.
  destruct Hok as (Hs & Hb & Hc). unfold scene_ok; simpl. repeat split.
  - apply StronglySorted_app_2; [|exact Hs|repeat constructor].
    intros x y Hx ->%list_elem_of_singleton.
    rewrite Forall_forall in Hb. auto.
  - apply Forall_app. split.
    + eapply Forall_impl; [exact Hb|]. simpl. intros; lia.
    + repeat constructor.
  - apply lookup_lt_Some in Hn. lia.
Qed.

Section Frame.

Variable hands : HandPositions.
Variable a : Audio.
Hypothesis playing : ended a = false.

Let t : R := currentTime a.

(** What one playing frame does to a well-formed scene. *)
Lemma useFrame_spec (sc : Scene) :
  scene_ok sc ->
  let sc1 := activate (length (notesState sc)) t sc in
  (useFrame PLAYING (Some a) hands sc).2 =
    omap (fun r => eventOf r (judgeRef t hands (notesState sc) r))
         (reverse (activeNotesRef sc1)) /\
  activeNotesRef (useFrame PLAYING (Some a) hands sc).1 =
    filter (fun r => judgeRef t hands (notesState sc) r = Pending) (activeNotesRef sc1) /\
  nextNoteIndexRef (useFrame PLAYING (Some a) hands sc).1 = nextNoteIndexRef sc1 /\
  length (notesState (useFrame PLAYING (Some a) hands sc).1) = length (notesState sc) /\
  forall r,
    notesState (useFrame PLAYING (Some a) hands sc).1 !! r =
    if decide (r ∈ activeNotesRef sc1)
    then settle t (judgeRef t hands (notesState sc) r) <$> notesState sc !! r
    else notesState sc !! r.
Proof.
  intros Hok sc1. unfold useFrame. rewrite playing. fold t. fold sc1.
  assert (Hok1 : scene_ok sc1) by (apply scene_ok_activate, Hok).
  assert (Hn : notesState sc1 = notesState sc) by apply activate_spec.
  destruct (resolveLoop_spec t hands (length (activeNotesRef sc1)) sc1 []
              (scene_ok_NoDup _ Hok1) (le_n _)) as (He & Ha & Hs).
  rewrite firstn_all, drop_all, app_nil_r, Hn in *.
  repeat split; try assumption.
  - apply resolveLoop_frame.
  - rewrite <- Hn. apply resolveLoop_frame.
Qed.

Lemma scene_ok_useFrame_playing (sc : Scene) :
  scene_ok sc -> scene_ok (useFrame PLAYING (Some a) hands sc).1.
Proof.
  intros Hok. destruct (useFrame_spec sc Hok) as (_ & Ha & Hc & Hl & _).
  pose proof (scene_ok_activate (length (notesState sc)) t sc Hok) as (Hs & Hb & Hlen).
  assert (Hn : notesState (activate (length (notesState sc)) t sc) = notesState sc)
    by apply activate_spec.
  unfold scene_ok. rewrite Ha, Hc, Hl. repeat split.
  - apply StronglySorted_filter, Hs.
  - apply Forall_forall. intros r [_ Hr]%list_elem_of_filter.
    rewrite Forall_forall in Hb. auto.
  - rewrite Hn in Hlen. exact Hlen.
Qed.

End Frame.

Lemma scene_ok_useFrame (status : GameStatus) (audio : option Audio)
  (hands : HandPositions) (sc : Scene) :
  scene_ok sc -> scene_ok (useFrame status audio hands sc).1.
Proof.
  intros Hok. destruct status; try exact Hok.
  destruct audio as [a|]; [|exact Hok].
  destruct (ended a) eqn:He.
  - unfold useFrame. rewrite He. exact Hok.
  - apply scene_ok_useFrame_playing; assumption.
Qed.

(* ================================================================== *)
(** * Hit judgement *)
(* ================================================================== *)

Lemma js_lt_true (x y : R) : js_lt x y = true <-> x < y.
Proof. unfold js_lt. destruct (Rlt_dec x y); split; intros; (congruence || lra). Qed.

Lemma js_lt_false (x y : R) : js_lt x y = false <-> y <= x.
Proof. unfold js_lt. destruct (Rlt_dec x y); split; intros; (congruence || lra). Qed.

Lemma js_gt_true (x y : R) : js_gt x y = true <-> y < x.
Proof. unfold js_gt. destruct (Rgt_dec x y); split; intros; (congruence || lra). Qed.

Lemma js_gt_false (x y : R) : js_gt x y = false <-> x <= y.
Proof. unfold js_gt. destruct (Rgt_dec x y); split; intros; (congruence || lra). Qed.

Lemma goodCutOf_true_iff (note : NoteData) (v : Vector3) :
  goodCutOf note v = true <->
  (cutDirection note = ANY /\ 1.5 <= Vec.length v) \/
  (cutDirection note <> ANY /\
   0.3 <= Vec.dot (Vec.normalize v) (DIRECTION_VECTORS (cutDirection note)) /\
   1.5 <= Vec.length v).
Proof.
  unfold goodCutOf.
  destruct (cutDirection note) eqn:Hd;
    try (destruct (js_lt (Vec.dot _ _) 0.3) eqn:Hdot;
         destruct (js_lt (Vec.length v) 1.5) eqn:Hsp; cbn [orb];
         rewrite ?js_lt_true, ?js_lt_false in *;
         (split; [intros ?; try discriminate; right; repeat split; (congruence || lra)
                 | intros [[? ?]|(? & ? & ?)]; (congruence || lra)])).
  destruct (js_lt (Vec.length v) 1.5) eqn:Hsp;
    rewrite ?js_lt_true, ?js_lt_false in *;
    (split; [intros ?; try discriminate; left; split; (congruence || lra)
            | intros [[? ?]|(? & ? & ?)]; (congruence || lra)]).
Qed.

Lemma hitTest_Some_iff (t : R) (hands : HandPositions) (note : NoteData) (g : bool) :
  hitTest t hands note = Some g <->
  PLAYER_Z - 1.5 < currentZ t note < PLAYER_Z + 1.0 /\
  (exists handPos x y,
     handPosition hands (type note) = Some handPos /\
     js_index LANE_X_POSITIONS (lineIndex note) = Some x /\
     js_index LAYER_Y_POSITIONS (lineLayer note) = Some y /\
     Vec.distanceTo handPos (mkVector3 x y (currentZ t note)) < 0.8) /\
  g = goodCutOf note (handVelocity hands (type note)).
Proof.
  unfold hitTest.
  replace (match type note with HandLeft => left hands | HandRight => right hands end)
    with (handPosition hands (type note)) by reflexivity.
  replace (match type note with
           | HandLeft => leftVelocity hands | HandRight => rightVelocity hands end)
    with (handVelocity hands (type note)) by reflexivity.
  destruct (js_gt (currentZ t note) (PLAYER_Z - 1.5)) eqn:Hlo;
  destruct (js_lt (currentZ t note) (PLAYER_Z + 1.0)) eqn:Hhi; simpl;
    rewrite ?js_gt_true, ?js_gt_false, ?js_lt_true, ?js_lt_false in *;
    try (split; [discriminate | intros ([? ?] & _); lra]).
  destruct (handPosition hands (type note)) as [hp|].
  2: { split; [discriminate | intros (_ & (? & ? & ? & ? & _) & _); discriminate]. }
  destruct (js_index LANE_X_POSITIONS (lineIndex note)) as [x|].
  2: { split; [discriminate | intros (_ & (? & ? & ? & _ & ? & _) & _); discriminate]. }
  destruct (js_index LAYER_Y_POSITIONS (lineLayer note)) as [y|].
  2: { split; [discriminate | intros (_ & (? & ? & ? & _ & _ & ? & _) & _); discriminate]. }
  destruct (js_lt (Vec.distanceTo hp _) 0.8) eqn:Hd;
    rewrite ?js_lt_true, ?js_lt_false in *.
  - split.
    + intros [= <-]. split; [lra|]. split; [|reflexivity].
      exists hp, x, y. auto.
    + intros (_ & _ & ->). reflexivity.
  - split; [discriminate|].
    intros (_ & (hp' & x' & y' & [= <-] & [= <-] & [= <-] & Hlt) & _). lra.
Qed.

Lemma judge_JHit_iff (t : R) (hands : HandPositions) (note : NoteData) (g : bool) :
  unresolved note ->
  (judge t hands note = JHit g <-> hitTest t hands note = Some g).
Proof.
  intros [Hh Hm]. unfold judge. rewrite Hh, Hm. simpl.
  destruct (js_gt (currentZ t note) MISS_Z) eqn:Hmiss.
  - split; [discriminate|]. intros Hhit.
    apply hitTest_Some_iff in Hhit as ([_ Hhi] & _).
    apply js_gt_true in Hmiss. unfold MISS_Z, PLAYER_Z in *. lra.
  - destruct (hitTest t hands note) as [g'|]; split; congruence.
Qed.

Lemma judge_resolved (t : R) (hands : HandPositions) (note : NoteData) :
  hit note = true \/ missed note = true -> judge t hands note = Pending.
Proof.
  intros H. unfold judge.
  destruct (hit note), (missed note); simpl; try reflexivity. destruct H; discriminate.
Qed.

Lemma judge_not_pending (t : R) (hands : HandPositions) (note : NoteData) :
  judge t hands note <> Pending -> unresolved note.
Proof.
  intros H. unfold unresolved.
  destruct (hit note) eqn:Hh; [exfalso; apply H, judge_resolved; auto|].
  destruct (missed note) eqn:Hm; [exfalso; apply H, judge_resolved; auto|]. auto.
Qed.

Lemma eventOf_hit (r' r : nat) (j : Judgement) (g : bool) :
  eventOf r' j = Some (NoteHit r g) <-> r' = r /\ j = JHit g.
Proof. destruct j; simpl; split; intros; (destruct H; congruence) || (split; congruence). Qed.

Lemma eventOf_miss (r' r : nat) (j : Judgement) :
  eventOf r' j = Some (NoteMiss r) <-> r' = r /\ j = JMiss.
Proof. destruct j; simpl; split; intros; (destruct H; congruence) || (split; congruence). Qed.

(** C1: in a frame of a playing session, a note that is active (after this
    frame's activation) and unresolved gets the event [onNoteHit(note, g)]
    exactly when its derived depth lies strictly between 1.5 before and 1.0
    after the player line, its hand has a position, and that position is
    less than 0.8 away from the note's lane and layer coordinates at that
    depth; the cut is good exactly when the hand speed is at least 1.5 and,
    for a direction other than ANY, the normalised velocity's dot product
    with the direction's unit vector is at least 0.3.  The note's [hit]
    flag is set exactly when such an event is emitted. *)
Theorem C1_hit_judgement (sc : Scene) (a : Audio) (hands : HandPositions)
  (r : nat) (note : NoteData) (g : bool) :
  scene_ok sc ->
  ended a = false ->
  In r (activeNotesRef (activate (length (notesState sc)) (currentTime a) sc)) ->
  notesState sc !! r = Some note ->
  unresolved note ->
  (In (NoteHit r g) (useFrame PLAYING (Some a) hands sc).2 <->
   PLAYER_Z - 1.5 < currentZ (currentTime a) note < PLAYER_Z + 1.0 /\
   (exists handPos x y,
      handPosition hands (type note) = Some handPos /\
      js_index LANE_X_POSITIONS (lineIndex note) = Some x /\
      js_index LAYER_Y_POSITIONS (lineLayer note) = Some y /\
      Vec.distanceTo handPos (mkVector3 x y (currentZ (currentTime a) note)) < 0.8) /\
   (g = true <->
    (cutDirection note = ANY /\ 1.5 <= Vec.length (handVelocity hands (type note))) \/
    (cutDirection note <> ANY /\
     0.3 <= Vec.dot (Vec.normalize (handVelocity hands (type note)))
                    (DIRECTION_VECTORS (cutDirection note)) /\
     1.5 <= Vec.length (handVelocity hands (type note))))) /\
  ((exists g', In (NoteHit r g') (useFrame PLAYING (Some a) hands sc).2) <->
   (exists note', notesState (useFrame PLAYING (Some a) hands sc).1 !! r = Some note' /\
                  hit note' = true)).
Proof.
  intros Hok Hplay Hact Hnote Hun.
  destruct (useFrame_spec hands a Hplay sc Hok) as (Hev & _ & _ & _ & Hst).
  apply list_elem_of_In in Hact.
  assert (Hjr : judgeRef (currentTime a) hands (notesState sc) r =
                judge (currentTime a) hands note).
  { unfold judgeRef. rewrite Hnote. reflexivity. }
  assert (Hin : forall g', In (NoteHit r g') (useFrame PLAYING (Some a) hands sc).2 <->
                           hitTest (currentTime a) hands note = Some g').
  { intros g'. rewrite <- list_elem_of_In, Hev, list_elem_of_omap.
    rewrite <- (judge_JHit_iff _ _ _ _ Hun). split.
    - intros (r' & _ & [-> Hj]%eventOf_hit). congruence.
    - intros Hj. exists r. split; [apply elem_of_reverse, Hact|].
      apply eventOf_hit. split; congruence. }
  split.
  - rewrite Hin, hitTest_Some_iff, <- goodCutOf_true_iff.
    split.
    + intros (Hw & Hd & ->). repeat split; auto; lra.
    + intros (Hw & Hd & Hg). repeat split; auto; try lra.
      apply Bool.eq_true_iff_eq, Hg.
  - assert (Hst' : notesState (useFrame PLAYING (Some a) hands sc).1 !! r =
                   Some (settle (currentTime a) (judge (currentTime a) hands note) note)).
    { rewrite Hst, decide_True, Hjr, Hnote by exact Hact. reflexivity. }
    destruct Hun as [Hh Hm]. split.
    + intros [g' Hg']. apply Hin in Hg'.
      apply (judge_JHit_iff _ _ _ _ (conj Hh Hm)) in Hg'.
      rewrite Hg' in Hst'. eexists. split; [exact Hst'|reflexivity].
    + intros (note' & Hn' & Hhit). rewrite Hst' in Hn'. injection Hn' as <-.
      destruct (judge (currentTime a) hands note) as [| |g'] eqn:Hj; simpl in Hhit;
        try congruence.
      exists g'. apply Hin, (judge_JHit_iff _ _ _ _ (conj Hh Hm)), Hj.
Qed.

Lemma oneNote_active :
  activeNotesRef (activate (length (notesState (mountScene oneNote))) 2 (mountScene oneNote))
  = [0%nat].
Proof.
  cbn [mountScene notesState oneNote length activate lookup list_lookup
       nextNoteIndexRef activeNotesRef leftNote time app].
  unfold js_le. rewrite spawnAheadTime_eq.
  destruct (Rle_dec (2 - 3) 2) as [_|Hn]; [reflexivity|exfalso; lra].
Qed.

Lemma swingingLeft_speed : Vec.length (mkVector3 0 2 0) = 2.
Proof.
  unfold Vec.length. cbn [vx vy vz].
  replace (0 * 0 + 2 * 2 + 0 * 0) with (2 * 2) by lra.
  apply sqrt_square. lra.
Qed.

(** Scenario A: the note due at 2 s is hit at 2 s with a good cut. *)
Lemma C1_hit_judgement_witness :
  In (NoteHit 0 true)
     (useFrame PLAYING (Some (mkAudio 2 false)) swingingLeft (mountScene oneNote)).2.
Proof.
  assert (Hact : In 0%nat (activeNotesRef
            (activate (length (notesState (mountScene oneNote)))
               (currentTime (mkAudio 2 false)) (mountScene oneNote)))).
  { cbn [currentTime]. rewrite oneNote_active. left. reflexivity. }
  apply (proj1 (C1_hit_judgement (mountScene oneNote) (mkAudio 2 false) swingingLeft
                  0 (leftNote 0 2 ANY) true
                  (scene_ok_mount oneNote) eq_refl Hact eq_refl (conj eq_refl eq_refl))).
  assert (Hz : currentZ (currentTime (mkAudio 2 false)) (leftNote 0 2 ANY) = 0).
  { unfold currentZ, PLAYER_Z, NOTE_SPEED. cbn [currentTime leftNote time]. lra. }
  rewrite Hz. split; [unfold PLAYER_Z; lra|]. split.
  - exists (mkVector3 (-0.4) 0.8 0), (-0.5 * LANE_WIDTH), 0.8.
    repeat split.
    unfold Vec.distanceTo, Vec.distanceToSquared, LANE_WIDTH. cbn [vx vy vz].
    match goal with |- sqrt ?e < _ => replace e with 0 by lra end.
    rewrite sqrt_0. lra.
  - split; [|reflexivity]. intros _. left. split; [reflexivity|].
    cbn [handVelocity swingingLeft leftNote type leftVelocity].
    rewrite swingingLeft_speed. lra.
Defined.

(* ================================================================== *)
(** * Order of resolution within a frame *)
(* ================================================================== *)

Lemma judge_miss (t : R) (hands : HandPositions) (note : NoteData) :
  unresolved note -> MISS_Z < currentZ t note -> judge t hands note = JMiss.
Proof.
  intros [Hh Hm] Hz. unfold judge. rewrite Hh, Hm. cbn [orb].
  apply js_gt_true in Hz. rewrite Hz. reflexivity.
Qed.

Lemma twoNotes_active :
  activeNotesRef (activate (length (notesState (mountScene twoNotes))) 20 (mountScene twoNotes))
  = [0%nat; 1%nat].
Proof.
  cbn [mountScene notesState twoNotes length activate lookup list_lookup
       nextNoteIndexRef activeNotesRef leftNote time app].
  unfold js_le. rewrite spawnAheadTime_eq.
  destruct (Rle_dec (1 - 3) 20) as [_|Hn]; [|exfalso; lra].
  cbn [mountScene notesState twoNotes length activate lookup list_lookup
       nextNoteIndexRef activeNotesRef leftNote time app].
  unfold js_le.
  destruct (Rle_dec (10 - 3) 20) as [_|Hn]; [reflexivity|exfalso; lra].
Qed.

(** C5, as stated, fails: the chart holds a note due at 1 s and a note due
    at 10 s; a frame at 20 s finds both past the miss line and reports the
    later note first. *)
Lemma C5_later_note_resolved_first :
  (useFrame PLAYING (Some (mkAudio 20 false)) initialHandPositions (mountScene twoNotes)).2
  = [NoteMiss 1; NoteMiss 0] /\
  twoNotes !! 0%nat = Some (leftNote 0 1 ANY) /\
  twoNotes !! 1%nat = Some (leftNote 1 10 ANY).
Proof.
  split; [|split; reflexivity].
  destruct (useFrame_spec initialHandPositions (mkAudio 20 false) eq_refl
              (mountScene twoNotes) (scene_ok_mount twoNotes)) as (Hev & _).
  rewrite Hev. cbn [currentTime]. rewrite twoNotes_active.
  cbn [reverse rev_append omap list_omap].
  unfold judgeRef. cbn [mountScene notesState twoNotes lookup list_lookup].
  rewrite !judge_miss; [reflexivity| | | |]; try (split; reflexivity);
    unfold MISS_Z, currentZ, PLAYER_Z, NOTE_SPEED; cbn [leftNote time]; lra.
Qed.

Lemma eventNotes_sorted (R : relation nat) (f : nat -> Judgement) (l : list nat) :
  StronglySorted R l ->
  StronglySorted R (omap eventNote (omap (fun r => eventOf r (f r)) l)).
Proof.
  induction 1 as [|x l Hl IH Hx]; [constructor|].
  cbn [omap list_omap].
  destruct (eventOf x (f x)) as [e|] eqn:He; [|exact IH].
  cbn [omap list_omap].
  assert (Hn : eventNote e = Some x) by (destruct (f x); simpl in He; simplify_eq; reflexivity).
  rewrite Hn. constructor; [exact IH|].
  apply Forall_forall. intros y (e' & (r' & Hr' & He')%list_elem_of_omap & Hy)%list_elem_of_omap.
  assert (y = r') as -> by (destruct (f r'); simpl in He'; simplify_eq; simpl in Hy; congruence).
  rewrite Forall_forall in Hx. auto.
Qed.

(** C5 (amended): within a frame the judgement pass runs over the active
    list from its last entry to its first.  The active list is kept in chart
    order, so the notes resolved in one frame are resolved, and their events
    emitted, in descending chart order: latest note first. *)
Theorem C5_resolution_order (sc : Scene) (a : Audio) (hands : HandPositions) :
  scene_ok sc ->
  ended a = false ->
  (useFrame PLAYING (Some a) hands sc).2 =
    omap (fun r => eventOf r (judgeRef (currentTime a) hands (notesState sc) r))
         (reverse (activeNotesRef (activate (length (notesState sc)) (currentTime a) sc))) /\
  StronglySorted lt (activeNotesRef (activate (length (notesState sc)) (currentTime a) sc)) /\
  StronglySorted gt (omap eventNote (useFrame PLAYING (Some a) hands sc).2) /\
  scene_ok (useFrame PLAYING (Some a) hands sc).1.
Proof.
  intros Hok Hplay.
  destruct (useFrame_spec hands a Hplay sc Hok) as (Hev & _).
  pose proof (scene_ok_activate (length (notesState sc)) (currentTime a) sc Hok) as (Hs & _).
  split; [exact Hev|]. split; [exact Hs|]. split.
  - rewrite Hev. apply eventNotes_sorted, StronglySorted_reverse_gt, Hs.
  - apply scene_ok_useFrame_playing; assumption.
Qed.

Lemma C5_resolution_order_witness :
  scene_ok (mountScene twoNotes) /\
  StronglySorted gt
    (omap eventNote
       (useFrame PLAYING (Some (mkAudio 20 false)) initialHandPositions
          (mountScene twoNotes)).2).
Proof.
  split; [apply scene_ok_mount|].
  exact (proj1 (proj2 (proj2
           (C5_resolution_order (mountScene twoNotes) (mkAudio 20 false)
              initialHandPositions (scene_ok_mount twoNotes) eq_refl)))).
Defined.

(* ================================================================== *)
(** * Single resolution *)
(* ================================================================== *)

Lemma StronglySorted_gt_NoDup (l : list nat) : StronglySorted gt l -> NoDup l.
Proof.
  induction 1 as [|x l Hl IH Hx]; constructor; [|exact IH].
  intros Hin. rewrite Forall_forall in Hx. specialize (Hx x Hin). lia.
Qed.

Lemma eventNote_Some (e : Event) (r : nat) :
  eventNote e = Some r <-> (exists g, e = NoteHit r g) \/ e = NoteMiss r.
Proof.
  destruct e; simpl; split.
  - intros [= ->]. eauto.
  - intros [[g [= -> _]]|[=]]. reflexivity.
  - intros [= ->]. eauto.
  - intros [[g [=]]|[= ->]]. reflexivity.
  - discriminate.
  - intros [[g [=]]|[=]].
Qed.

Lemma eventNote_eventOf (r : nat) (j : Judgement) (e : Event) :
  eventOf r j = Some e -> eventNote e = Some r /\ j <> Pending.
Proof. destruct j; simpl; intros [= <-]; split; (reflexivity || discriminate). Qed.

Section Session.

Variable hands : HandPositions.
Variable a : Audio.

Let t : R := currentTime a.

(** The events of a playing frame: which notes they name. *)
Lemma frame_event_notes (sc : Scene) (e : Event) (r : nat) :
  scene_ok sc -> ended a = false ->
  In e (useFrame PLAYING (Some a) hands sc).2 -> eventNote e = Some r ->
  r ∈ activeNotesRef (activate (length (notesState sc)) t sc) /\
  eventOf r (judgeRef t hands (notesState sc) r) = Some e.
Proof.
  intros Hok Hplay Hin Hn.
  destruct (useFrame_spec hands a Hplay sc Hok) as (Hev & _).
  rewrite <- list_elem_of_In, Hev, list_elem_of_omap in Hin.
  destruct Hin as (r' & Hr' & He). rewrite elem_of_reverse in Hr'.
  destruct (eventNote_eventOf _ _ _ He) as [Hn' _].
  assert (r' = r) as -> by congruence. auto.
Qed.

Lemma frame_event_in (sc : Scene) (e : Event) (r : nat) :
  scene_ok sc -> ended a = false ->
  r ∈ activeNotesRef (activate (length (notesState sc)) t sc) ->
  eventOf r (judgeRef t hands (notesState sc) r) = Some e ->
  In e (useFrame PLAYING (Some a) hands sc).2.
Proof.
  intros Hok Hplay Hr He.
  destruct (useFrame_spec hands a Hplay sc Hok) as (Hev & _).
  rewrite <- list_elem_of_In, Hev, list_elem_of_omap.
  exists r. split; [apply elem_of_reverse, Hr|exact He].
Qed.

(** A resolved note is left alone by a frame: its object is unchanged and
    no event names it. *)
Lemma frame_resolved_stable (sc : Scene) (r : nat) (note : NoteData) :
  scene_ok sc ->
  notesState sc !! r = Some note -> resolved note ->
  notesState (useFrame PLAYING (Some a) hands sc).1 !! r = Some note /\
  forall e, In e (useFrame PLAYING (Some a) hands sc).2 -> eventNote e <> Some r.
Proof.
  intros Hok Hnote Hres.
  destruct (ended a) eqn:Hplay.
  { unfold useFrame. rewrite Hplay. split; [exact Hnote|].
    intros e [<-|[]]. discriminate. }
  assert (Hj : judgeRef t hands (notesState sc) r = Pending).
  { unfold judgeRef. rewrite Hnote. apply judge_resolved, Hres. }
  split.
  - destruct (useFrame_spec hands a Hplay sc Hok) as (_ & _ & _ & _ & Hst).
    rewrite Hst. fold t. rewrite Hj, settle_pending_fmap, Hnote.
    destruct (decide _); reflexivity.
  - intros e Hin Hn.
    destruct (frame_event_notes sc e r Hok Hplay Hin Hn) as [_ He].
    rewrite Hj in He. discriminate.
Qed.

Lemma frame_flags (sc : Scene) (r : nat) (note note1 : NoteData) :
  scene_ok sc -> ended a = false ->
  notesState sc !! r = Some note ->
  notesState (useFrame PLAYING (Some a) hands sc).1 !! r = Some note1 ->
  (hit note1 = true <->
   hit note = true \/ exists g, In (NoteHit r g) (useFrame PLAYING (Some a) hands sc).2) /\
  (missed note1 = true <->
   missed note = true \/ In (NoteMiss r) (useFrame PLAYING (Some a) hands sc).2).
Proof.
  intros Hok Hplay Hnote Hn1.
  assert (Hjr : judgeRef t hands (notesState sc) r = judge t hands note).
  { unfold judgeRef. rewrite Hnote. reflexivity. }
  assert (Hhit : forall g, In (NoteHit r g) (useFrame PLAYING (Some a) hands sc).2 <->
            r ∈ activeNotesRef (activate (length (notesState sc)) t sc) /\
            judge t hands note = JHit g).
  { intros g. split.
    - intros Hin. destruct (frame_event_notes sc _ r Hok Hplay Hin eq_refl) as [Hr He].
      rewrite Hjr in He. apply eventOf_hit in He as [_ He]. auto.
    - intros [Hr Hj]. apply (frame_event_in sc _ r Hok Hplay Hr).
      rewrite Hjr, Hj. reflexivity. }
  assert (Hmiss : In (NoteMiss r) (useFrame PLAYING (Some a) hands sc).2 <->
            r ∈ activeNotesRef (activate (length (notesState sc)) t sc) /\
            judge t hands note = JMiss).
  { split.
    - intros Hin. destruct (frame_event_notes sc _ r Hok Hplay Hin eq_refl) as [Hr He].
      rewrite Hjr in He. apply eventOf_miss in He as [_ He]. auto.
    - intros [Hr Hj]. apply (frame_event_in sc _ r Hok Hplay Hr).
      rewrite Hjr, Hj. reflexivity. }
  destruct (useFrame_spec hands a Hplay sc Hok) as (_ & _ & _ & _ & Hst).
  rewrite Hst, Hnote in Hn1. fold t in Hn1. rewrite Hjr in Hn1.
  destruct (decide (r ∈ activeNotesRef (activate (length (notesState sc)) t sc)))
    as [Hin|Hout]; cbn [fmap option_fmap option_map] in Hn1; injection Hn1 as <-.
  - destruct (judge t hands note) as [| |g0] eqn:Hj; cbn [settle markMissed markHit hit missed].
    + split; split.
      * auto.
      * intros [H|[g [_ Hg]%Hhit]]; [exact H|discriminate].
      * auto.
      * intros [H|[_ Hg]%Hmiss]; [exact H|discriminate].
    + split; split.
      * auto.
      * intros [H|[g [_ Hg]%Hhit]]; [exact H|discriminate].
      * intros _. right. apply Hmiss. auto.
      * intros _. reflexivity.
    + split; split.
      * intros _. right. exists g0. apply Hhit. auto.
      * intros _. reflexivity.
      * auto.
      * intros [H|[_ Hg]%Hmiss]; [exact H|discriminate].
  - split; split.
    + auto.
    + intros [H|[g [Hr _]%Hhit]]; [exact H|tauto].
    + auto.
    + intros [H|[Hr _]%Hmiss]; [exact H|tauto].
Qed.

Lemma frame_inv (sc : Scene) (pre : list Event) :
  session_inv sc pre ->
  session_inv (useFrame PLAYING (Some a) hands sc).1
              (pre ++ (useFrame PLAYING (Some a) hands sc).2).
Proof.
  intros (Hok & Hnd & Hfl).
  destruct (ended a) eqn:Hplay.
  { unfold useFrame. rewrite Hplay. cbn [fst snd].
    split; [exact Hok|]. split.
    - rewrite omap_app. cbn [omap list_omap eventNote]. rewrite app_nil_r. exact Hnd.
    - intros r note Hn. destruct (Hfl r note Hn) as [H1 H2]. split.
      + rewrite H1. split; intros [g Hg]; exists g.
        * apply in_or_app. auto.
        * apply in_app_or in Hg as [Hg|[Hg|[]]]; [exact Hg|discriminate].
      + rewrite H2. split; intros Hg.
        * apply in_or_app. auto.
        * apply in_app_or in Hg as [Hg|[Hg|[]]]; [exact Hg|discriminate]. }
  split; [apply scene_ok_useFrame_playing; assumption|]. split.
  - rewrite omap_app. apply NoDup_app. split; [exact Hnd|]. split.
    + intros x (e & He & Hen)%list_elem_of_omap (e' & He' & Hen')%list_elem_of_omap.
      apply list_elem_of_In in He, He'.
      destruct (frame_event_notes sc e' x Hok Hplay He' Hen') as [_ Hev'].
      apply eventNote_eventOf in Hev' as [_ Hnp].
      unfold judgeRef in Hnp.
      destruct (notesState sc !! x) as [note|] eqn:Hnote; [|congruence].
      apply judge_not_pending in Hnp as [Hh Hm].
      destruct (Hfl x note Hnote) as [H1 H2].
      apply eventNote_Some in Hen as [[g ->]| ->].
      * assert (hit note = true) by (apply H1; eauto). congruence.
      * assert (missed note = true) by (apply H2; assumption). congruence.
    + apply StronglySorted_gt_NoDup.
      destruct (useFrame_spec hands a Hplay sc Hok) as (-> & _).
      apply eventNotes_sorted, StronglySorted_reverse_gt, scene_ok_activate, Hok.
  - intros r note1 Hn1.
    destruct (useFrame_spec hands a Hplay sc Hok) as (_ & _ & _ & Hlen & _).
    destruct (lookup_lt_is_Some_2 (notesState sc) r) as [note Hnote].
    { rewrite <- Hlen. eapply lookup_lt_Some, Hn1. }
    destruct (frame_flags sc r note note1 Hok Hplay Hnote Hn1) as [Hh Hm].
    destruct (Hfl r note Hnote) as [H1 H2]. split.
    + rewrite Hh, H1. split.
      * intros [[g Hg]|[g Hg]]; exists g; apply in_or_app; auto.
      * intros [g [Hg|Hg]%in_app_or]; eauto.
    + rewrite Hm, H2. split.
      * intros [Hg|Hg]; apply in_or_app; auto.
      * intros [Hg|Hg]%in_app_or; auto.
Qed.

End Session.

Lemma playFrames_inv (ticks : list (Audio * HandPositions)) (sc : Scene) (pre : list Event) :
  session_inv sc pre ->
  session_inv (playFrames ticks sc).1 (pre ++ (playFrames ticks sc).2).
Proof.
  revert sc pre. induction ticks as [|[a hands] ticks IH]; intros sc pre Hinv.
  - cbn [playFrames fst snd]. rewrite app_nil_r. exact Hinv.
  - cbn [playFrames].
    pose proof (frame_inv hands a sc pre Hinv) as H1.
    destruct (useFrame PLAYING (Some a) hands sc) as [sc1 ev1]. cbn [fst snd] in H1.
    specialize (IH sc1 (pre ++ ev1) H1).
    destruct (playFrames ticks sc1) as [sc2 ev2]. cbn [fst snd] in *.
    rewrite app_assoc. exact IH.
Qed.

Lemma scene_ok_playFrames (ticks : list (Audio * HandPositions)) (sc : Scene) :
  scene_ok sc -> scene_ok (playFrames ticks sc).1.
Proof.
  revert sc. induction ticks as [|[a hands] ticks IH]; intros sc Hok; [exact Hok|].
  cbn [playFrames].
  pose proof (scene_ok_useFrame PLAYING (Some a) hands sc Hok) as H1.
  destruct (useFrame PLAYING (Some a) hands sc) as [sc1 ev1]. cbn [fst] in H1.
  specialize (IH sc1 H1). destruct (playFrames ticks sc1) as [sc2 ev2]. exact IH.
Qed.

Lemma playFrames_resolved_stable (ticks : list (Audio * HandPositions)) (sc : Scene)
  (r : nat) (note : NoteData) :
  scene_ok sc ->
  notesState sc !! r = Some note -> resolved note ->
  notesState (playFrames ticks sc).1 !! r = Some note /\
  forall e, In e (playFrames ticks sc).2 -> eventNote e <> Some r.
Proof.
  revert sc. induction ticks as [|[a hands] ticks IH]; intros sc Hok Hnote Hres.
  - cbn [playFrames fst snd]. split; [exact Hnote|]. intros e [].
  - cbn [playFrames].
    pose proof (frame_resolved_stable hands a sc r note Hok Hnote Hres) as [H1 H2].
    pose proof (scene_ok_useFrame PLAYING (Some a) hands sc Hok) as Hok1.
    destruct (useFrame PLAYING (Some a) hands sc) as [sc1 ev1]. cbn [fst snd] in *.
    destruct (IH sc1 Hok1 H1 Hres) as [H3 H4].
    destruct (playFrames ticks sc1) as [sc2 ev2]. cbn [fst snd] in *.
    split; [exact H3|]. intros e [He|He]%in_app_or; auto.
Qed.

Lemma session_inv_start (sc : Scene) :
  scene_ok sc ->
  (forall r note, notesState sc !! r = Some note -> unresolved note) ->
  session_inv sc [].
Proof.
  intros Hok Hun. split; [exact Hok|]. split; [constructor|].
  intros r note Hn. destruct (Hun r note Hn) as [Hh Hm]. rewrite Hh, Hm. split; split.
  - discriminate.
  - intros [g []].
  - discriminate.
  - intros [].
Qed.

(** [startGame] opens a session: flags cleared, scene still well formed. *)
Lemma startGame_session_start (g : App * Scene) :
  scene_ok g.2 ->
  scene_ok (startGame true g).2 /\
  forall r note, notesState (startGame true g).2 !! r = Some note -> unresolved note.
Proof.
  intros (Hs & Hb & Hc). unfold startGame. cbn [snd notesState activeNotesRef nextNoteIndexRef].
  split.
  - unfold scene_ok. cbn [notesState activeNotesRef nextNoteIndexRef].
    unfold resetChart. rewrite length_map. auto.
  - intros r note Hn. unfold resetChart in Hn.
    rewrite list_lookup_fmap in Hn.
    destruct (notesState g.2 !! r); [|discriminate].
    injection Hn as <-. split; reflexivity.
Qed.

Lemma no_hit_and_miss (evs : list Event) (r : nat) (g : bool) :
  NoDup (omap eventNote evs) -> In (NoteHit r g) evs -> In (NoteMiss r) evs -> False.
Proof.
  induction evs as [|e evs IH]; intros Hnd Hh Hm; [destruct Hh|].
  assert (Hin : forall e', In e' evs -> eventNote e' = Some r -> r ∈ omap eventNote evs).
  { intros e' He' Hn. apply list_elem_of_omap. exists e'. split; [|exact Hn].
    apply list_elem_of_In, He'. }
  cbn [omap list_omap] in Hnd.
  destruct Hh as [->|Hh], Hm as [Hm|Hm]; try discriminate.
  - cbn [eventNote] in Hnd. apply NoDup_cons in Hnd as [Hnot _].
    apply Hnot, (Hin _ Hm). reflexivity.
  - subst e. cbn [eventNote] in Hnd. apply NoDup_cons in Hnd as [Hnot _].
    apply Hnot, (Hin _ Hh). reflexivity.
  - apply IH; auto. destruct (eventNote e); [apply NoDup_cons in Hnd as [_ Hnd]|]; exact Hnd.
Qed.

(** C3: in a session (a scene whose note flags were just cleared, played
    over any sequence of frames) every note is named by at most one hit or
    miss event; its [hit] flag is set exactly when a hit event named it and
    its [missed] flag exactly when a miss event did, never both; a note
    once resolved is left unchanged by all later frames, which emit no
    event for it; and the loop body checks the miss line first, so a note
    past it is judged missed whatever the hands do. *)
Theorem C3_single_resolution (sc0 : Scene) (ticks : list (Audio * HandPositions)) :
  scene_ok sc0 ->
  (forall r note, notesState sc0 !! r = Some note -> unresolved note) ->
  NoDup (omap eventNote (playFrames ticks sc0).2) /\
  (forall r note, notesState (playFrames ticks sc0).1 !! r = Some note ->
     (hit note = true <-> exists g, In (NoteHit r g) (playFrames ticks sc0).2) /\
     (missed note = true <-> In (NoteMiss r) (playFrames ticks sc0).2) /\
     ~ (hit note = true /\ missed note = true)) /\
  (forall more r note,
     notesState (playFrames ticks sc0).1 !! r = Some note -> resolved note ->
     notesState (playFrames more (playFrames ticks sc0).1).1 !! r = Some note /\
     forall e, In e (playFrames more (playFrames ticks sc0).1).2 -> eventNote e <> Some r) /\
  (forall t hands note,
     unresolved note -> MISS_Z < currentZ t note -> judge t hands note = JMiss).
Proof.
  intros Hok Hun.
  destruct (playFrames_inv ticks sc0 [] (session_inv_start sc0 Hok Hun))
    as (Hok' & Hnd & Hfl).
  cbn [app] in Hnd, Hfl.
  split; [exact Hnd|]. split; [|split].
  - intros r note Hn. destruct (Hfl r note Hn) as [H1 H2].
    split; [exact H1|]. split; [exact H2|].
    intros [[g Hg]%H1 Hm%H2]. exact (no_hit_and_miss _ _ _ Hnd Hg Hm).
  - intros more r note Hn Hres. apply playFrames_resolved_stable; assumption.
  - intros t hands note. apply judge_miss.
Qed.

Lemma twoNotes_unresolved (r : nat) (note : NoteData) :
  notesState (mountScene twoNotes) !! r = Some note -> unresolved note.
Proof.
  cbn [mountScene notesState twoNotes]. intros Hn.
  destruct r as [|[|r]]; cbn in Hn; simplify_eq; split; reflexivity.
Qed.

Lemma C3_single_resolution_witness :
  scene_ok (mountScene twoNotes) /\
  NoDup (omap eventNote
           (playFrames [(mkAudio 20 false, initialHandPositions);
                        (mkAudio 21 false, initialHandPositions)]
              (mountScene twoNotes)).2).
Proof.
  split; [apply scene_ok_mount|].
  exact (proj1 (C3_single_resolution (mountScene twoNotes)
                  [(mkAudio 20 false, initialHandPositions);
                   (mkAudio 21 false, initialHandPositions)]
                  (scene_ok_mount twoNotes) twoNotes_unresolved)).
Defined.

(* ================================================================== *)
(** * Game over *)
(* ================================================================== *)






Lemma useFrame_not_playing (status : GameStatus) (audio : option Audio)
  (hands : HandPositions) (sc : Scene) :
  status <> PLAYING -> useFrame status audio hands sc = (sc, []).
Proof. intros H. destruct status; try reflexivity. congruence. Qed.




Lemma render_fixed (s : App) :
  pendingCombo s = None -> multiplierSeen s = multiplier s -> render s = s.
Proof.
  destruct s; unfold render, renderedMultiplier; cbn. intros -> ->. reflexivity.
Qed.

Lemma frame_idle (audio : option Audio) (hands : HandPositions) (s : App) (sc : Scene) :
  between_frames s -> gameStatus s <> PLAYING -> frame audio hands (s, sc) = (s, sc).
Proof.
  intros ([Ht Hp] & Hm & _) Hst. unfold frame.
  rewrite (useFrame_not_playing _ audio hands sc Hst).
  cbn [fold_left]. rewrite Ht. change (Nat.iter 0 runTimer s) with s.
  rewrite (render_fixed s Hp Hm). reflexivity.
Qed.




Lemma between_frames_started : between_frames startedApp.
Proof. unfold between_frames, startedApp; cbn. repeat split; (lia || discriminate). Qed.



(* ================================================================== *)
(** * Further properties: world mapping *)
(* ================================================================== *)

(** X1: [mapHandToWorld] never puts a hand below height 0.1 or in front of
    the player line, whatever its input; for image coordinates within
    [0, 1] the hand lies within 2.5 of the centre, at height at most 2.55
    and at depth no further than 0.51 behind the player line. *)
Theorem X1_mapHandToWorld_bounds (x y : R) :
  (0.1 <= vy (mapHandToWorld x y) /\ vz (mapHandToWorld x y) <= 0) /\
  (0 <= x <= 1 -> 0 <= y <= 1 ->
   -2.5 <= vx (mapHandToWorld x y) <= 2.5 /\
   vy (mapHandToWorld x y) <= 2.55 /\
   -0.51 <= vz (mapHandToWorld x y)).
Proof.
  unfold mapHandToWorld. cbn [vx vy vz]. unfold Rmax. split.
  - split; repeat destruct (Rle_dec _ _); lra.
  - intros Hx Hy. repeat destruct (Rle_dec _ _); lra.
Qed.

Lemma X1_mapHandToWorld_bounds_witness :
  -2.5 <= vx (mapHandToWorld 0.5 0.5) <= 2.5 /\
  vy (mapHandToWorld 0.5 0.5) <= 2.55 /\
  -0.51 <= vz (mapHandToWorld 0.5 0.5).
Proof.
  apply (proj2 (X1_mapHandToWorld_bounds 0.5 0.5)); lra.
Defined.

(* ================================================================== *)
(** * Further properties: score handlers *)
(* ================================================================== *)

Lemma multiplierFor_values (c : Z) :
  (multiplierFor c = 1 \/ multiplierFor c = 2 \/ multiplierFor c = 4 \/ multiplierFor c = 8)%Z.
Proof. unfold multiplierFor. repeat case_match; auto. Qed.

Lemma combo_ok_render (s : App) : combo_ok s -> combo_ok (render s).
Proof.
  intros (Hc & Hm & Hv). unfold combo_ok, render, renderedMultiplier in *.
  cbn [combo multiplier pendingCombo]. split; [exact Hc|]. split; [exact Hm|].
  destruct (pendingCombo s); [apply multiplierFor_values|exact Hv].
Qed.

Lemma combo_ok_runTimer (s : App) : combo_ok s -> combo_ok (runTimer s).
Proof.
  unfold runTimer, endGame. destruct (endGameTimers s); [auto|].
  unfold combo_ok, renderedMultiplier. cbn [combo multiplier pendingCombo]. auto.
Qed.

Lemma combo_ok_index_step (a : Action) (s : App) :
  combo_ok s -> combo_ok (IndexTsx.step a s).
Proof.
  destruct a as [g| | |]; cbn [IndexTsx.step];
    auto using combo_ok_render, combo_ok_runTimer; intros (Hc & Hm & Hv).
  - unfold combo_ok, renderedMultiplier, handleNoteHit.
    cbn [combo multiplier pendingCombo]. split; [lia|]. split; [right; reflexivity|exact Hv].
  - unfold combo_ok, renderedMultiplier, handleNoteMiss.
    destruct (_ <=? _)%Z; cbn [combo multiplier pendingCombo]; auto with zarith.
Qed.

Lemma combo_ok_app_step (a : Action) (s : App) :
  combo_ok s -> combo_ok (AppTsx.step a s).
Proof.
  destruct a as [g| | |]; cbn [AppTsx.step];
    auto using combo_ok_render, combo_ok_runTimer; intros (Hc & Hm & Hv).
  - unfold combo_ok, renderedMultiplier, AppTsx.handleNoteHit.
    destruct g; cbn [combo multiplier pendingCombo].
    + split; [lia|]. split; [right; reflexivity|exact Hv].
    + auto with zarith.
  - unfold combo_ok, renderedMultiplier, AppTsx.handleNoteMiss.
    destruct (_ <=? _)%Z; cbn [combo multiplier pendingCombo]; auto with zarith.
Qed.

Lemma combo_ok_rendered (s : App) :
  combo_ok s ->
  (0 <= combo (render s))%Z /\
  (multiplier (render s) = 1 \/ multiplier (render s) = 2 \/
   multiplier (render s) = 4 \/ multiplier (render s) = 8)%Z /\
  ((0 < combo (render s))%Z -> multiplierTiers (combo (render s)) (multiplier (render s))).
Proof.
  intros Hok. destruct (combo_ok_render s Hok) as (Hc & Hm & Hv).
  split; [exact Hc|]. split; [exact Hv|]. intros Hpos.
  destruct Hm as [H0|Hm]; [lia|].
  change (renderedMultiplier (render s)) with (multiplier (render s)) in Hm.
  rewrite Hm. unfold multiplierTiers, multiplierFor.
  repeat case_match; lia.
Qed.

(** X3: combo and multiplier as [App] shows them at a render, in every state
    either build reaches from a fresh session.  The combo count is never
    negative and the multiplier is one of 1, 2, 4, 8.  While the combo count
    is positive the multiplier is the one of its tier: 1 up to a combo of
    10, 2 up to 20, 4 up to 30, 8 above.  With a combo of 0 it need not be
    1: eleven hits and a miss handled before one render leave combo 0 with
    multiplier 2. *)
Theorem X3_multiplier_tiers (actions : list Action) :
  ((0 <= combo (render (AppTsx.run actions startedApp)))%Z /\
   (multiplier (render (AppTsx.run actions startedApp)) = 1 \/
    multiplier (render (AppTsx.run actions startedApp)) = 2 \/
    multiplier (render (AppTsx.run actions startedApp)) = 4 \/
    multiplier (render (AppTsx.run actions startedApp)) = 8)%Z /\
   ((0 < combo (render (AppTsx.run actions startedApp)))%Z ->
    multiplierTiers (combo (render (AppTsx.run actions startedApp)))
                    (multiplier (render (AppTsx.run actions startedApp))))) /\
  ((0 <= combo (render (IndexTsx.run actions startedApp)))%Z /\
   (multiplier (render (IndexTsx.run actions startedApp)) = 1 \/
    multiplier (render (IndexTsx.run actions startedApp)) = 2 \/
    multiplier (render (IndexTsx.run actions startedApp)) = 4 \/
    multiplier (render (IndexTsx.run actions startedApp)) = 8)%Z /\
   ((0 < combo (render (IndexTsx.run actions startedApp)))%Z ->
    multiplierTiers (combo (render (IndexTsx.run actions startedApp)))
                    (multiplier (render (IndexTsx.run actions startedApp))))) /\
  (combo (render (AppTsx.run (repeat (Hit true) 11 ++ [Miss]) startedApp)) = 0 /\
   multiplier (render (AppTsx.run (repeat (Hit true) 11 ++ [Miss]) startedApp)) = 2 /\
   combo (render (IndexTsx.run (repeat (Hit true) 11 ++ [Miss]) startedApp)) = 0 /\
   multiplier (render (IndexTsx.run (repeat (Hit true) 11 ++ [Miss]) startedApp)) = 2)%Z.
Proof.
  assert (H0 : combo_ok startedApp).
  { unfold combo_ok, renderedMultiplier, startedApp. cbn. auto with zarith. }
  assert (Ha : forall s, combo_ok s -> combo_ok (AppTsx.run actions s)).
  { induction actions as [|a actions IH]; intros s Hs; [exact Hs|].
    apply IH, combo_ok_app_step, Hs. }
  assert (Hi : forall s, combo_ok s -> combo_ok (IndexTsx.run actions s)).
  { clear Ha. induction actions as [|a actions IH]; intros s Hs; [exact Hs|].
    apply IH, combo_ok_index_step, Hs. }
  split; [apply combo_ok_rendered, Ha, H0|].
  split; [apply combo_ok_rendered, Hi, H0|].
  vm_compute. auto.
Qed.

(** X4: the points of a hit are multiplied by the multiplier the handler
    closed over at the last render, not by the one the hit itself sets: [k]
    good hits with no render in between raise the combo by [k] and the score
    by 150 times [k] times that multiplier, in either build. *)
Theorem X4_hits_use_rendered_multiplier (k : nat) (s : App) :
  (score (AppTsx.run (repeat (Hit true) k) s)
     = score s + 150 * Z.of_nat k * multiplierSeen s /\
   combo (AppTsx.run (repeat (Hit true) k) s) = combo s + Z.of_nat k /\
   multiplierSeen (AppTsx.run (repeat (Hit true) k) s) = multiplierSeen s)%Z /\
  (score (IndexTsx.run (repeat (Hit true) k) s)
     = score s + 150 * Z.of_nat k * multiplierSeen s /\
   combo (IndexTsx.run (repeat (Hit true) k) s) = combo s + Z.of_nat k /\
   multiplierSeen (IndexTsx.run (repeat (Hit true) k) s) = multiplierSeen s)%Z.
Proof.
  revert s. induction k as [|k IH]; intros s.
  - cbn [repeat AppTsx.run IndexTsx.run fold_left]. repeat split; lia.
  - cbn [repeat AppTsx.run IndexTsx.run fold_left].
    destruct (IH (AppTsx.step (Hit true) s)) as [(H1 & H2 & H3) _].
    destruct (IH (IndexTsx.step (Hit true) s)) as [_ (H4 & H5 & H6)].
    unfold AppTsx.run, IndexTsx.run in *.
    rewrite H1, H2, H3, H4, H5, H6.
    cbn [AppTsx.step IndexTsx.step AppTsx.handleNoteHit handleNoteHit
         score combo multiplierSeen].
    repeat split; lia.
Qed.

Lemma no_miss_index_step (a : Action) (s : App) :
  a <> Miss -> endGameTimers s = O ->
  gameStatus (IndexTsx.step a s) = gameStatus s /\ endGameTimers (IndexTsx.step a s) = O.
Proof.
  intros Ha Ht. destruct a as [g| | |]; [| congruence | |]; cbn [IndexTsx.step].
  - unfold handleNoteHit. cbn. auto.
  - unfold render. cbn. auto.
  - unfold runTimer. rewrite Ht. auto.
Qed.

Lemma no_miss_app_step (a : Action) (s : App) :
  a <> Miss -> endGameTimers s = O ->
  gameStatus (AppTsx.step a s) = gameStatus s /\ endGameTimers (AppTsx.step a s) = O.
Proof.
  intros Ha Ht. destruct a as [g| | |]; [| congruence | |]; cbn [AppTsx.step].
  - unfold AppTsx.handleNoteHit. destruct g; cbn; auto.
  - unfold render. cbn. auto.
  - unfold runTimer. rewrite Ht. auto.
Qed.

(** X5: only a miss can end the game.  From a state with no [endGame]
    pending, any sequence of hits (good or bad), renders and timer ticks
    leaves the phase as it was and queues no [endGame], in either build;
    in [src/App.tsx] this holds even when bad hits take the health to 0. *)
Theorem X5_only_a_miss_ends_the_game (actions : list Action) (s : App) :
  Forall (fun a => a <> Miss) actions ->
  endGameTimers s = O ->
  (gameStatus (AppTsx.run actions s) = gameStatus s /\
   endGameTimers (AppTsx.run actions s) = O) /\
  (gameStatus (IndexTsx.run actions s) = gameStatus s /\
   endGameTimers (IndexTsx.run actions s) = O).
Proof.
  intros Hall. revert s. induction Hall as [|a actions Ha _ IH]; intros s Ht.
  - cbn. auto.
  - cbn [AppTsx.run IndexTsx.run fold_left].
    destruct (no_miss_app_step a s Ha Ht) as [Hs1 Ht1].
    destruct (no_miss_index_step a s Ha Ht) as [Hs2 Ht2].
    destruct (IH _ Ht1) as [[H1 H2] _]. destruct (IH _ Ht2) as [_ [H3 H4]].
    unfold AppTsx.run, IndexTsx.run in *. rewrite H1, H2, H3, H4. auto.
Qed.

Lemma X5_only_a_miss_ends_the_game_witness :
  gameStatus (AppTsx.run (repeat (Hit false) 20 ++ [Timer; Render]) startedApp) = PLAYING /\
  endGameTimers (AppTsx.run (repeat (Hit false) 20 ++ [Timer; Render]) startedApp) = O.
Proof.
  assert (Hall : Forall (fun a => a <> Miss) (repeat (Hit false) 20 ++ [Timer; Render])).
  { apply List.Forall_forall. intros a Hin.
    apply in_app_or in Hin as [Hin|[<-|[<-|[]]]]; [|discriminate|discriminate].
    apply repeat_spec in Hin. subst a. discriminate. }
  exact (proj1 (X5_only_a_miss_ends_the_game _ startedApp Hall eq_refl)).
Defined.

(* ================================================================== *)
(** * Further properties: the frame callback *)
(* ================================================================== *)

Lemma judge_JMiss_iff (t : R) (hands : HandPositions) (note : NoteData) :
  unresolved note -> (judge t hands note = JMiss <-> MISS_Z < currentZ t note).
Proof.
  intros Hun. split; [|apply judge_miss, Hun].
  destruct Hun as [Hh Hm]. unfold judge. rewrite Hh, Hm. cbn [orb].
  destruct (js_gt (currentZ t note) MISS_Z) eqn:Hz; [intros _; apply js_gt_true, Hz|].
  destruct (hitTest t hands note); discriminate.
Qed.

(** X6: in a playing frame at time [t], a note that is active and
    unresolved gets [onNoteMiss] exactly when [t] is more than half a second
    past its time (its depth is beyond the miss line at 5), whatever the
    hands do; exactly then its [missed] flag is set, with nothing else of
    the note changed, and it leaves the active list. *)
Theorem X6_miss_judgement (sc : Scene) (a : Audio) (hands : HandPositions)
  (r : nat) (note : NoteData) :
  scene_ok sc ->
  ended a = false ->
  In r (activeNotesRef (activate (length (notesState sc)) (currentTime a) sc)) ->
  notesState sc !! r = Some note ->
  unresolved note ->
  (In (NoteMiss r) (useFrame PLAYING (Some a) hands sc).2 <->
   time note + 0.5 < currentTime a) /\
  (In (NoteMiss r) (useFrame PLAYING (Some a) hands sc).2 <->
   notesState (useFrame PLAYING (Some a) hands sc).1 !! r = Some (markMissed note)) /\
  (In (NoteMiss r) (useFrame PLAYING (Some a) hands sc).2 ->
   ~ In r (activeNotesRef (useFrame PLAYING (Some a) hands sc).1)).
Proof.
  intros Hok Hplay Hact Hnote Hun. apply list_elem_of_In in Hact.
  destruct (useFrame_spec hands a Hplay sc Hok) as (_ & Hactive & _ & _ & Hst).
  assert (Hjr : judgeRef (currentTime a) hands (notesState sc) r =
                judge (currentTime a) hands note).
  { unfold judgeRef. rewrite Hnote. reflexivity. }
  assert (Hin : In (NoteMiss r) (useFrame PLAYING (Some a) hands sc).2 <->
                judge (currentTime a) hands note = JMiss).
  { split.
    - intros Hin. destruct (frame_event_notes hands a sc _ r Hok Hplay Hin eq_refl) as [_ He].
      rewrite Hjr in He. apply eventOf_miss in He as [_ He]. exact He.
    - intros Hj. apply (frame_event_in hands a sc _ r Hok Hplay Hact).
      rewrite Hjr, Hj. reflexivity. }
  assert (Hst' : notesState (useFrame PLAYING (Some a) hands sc).1 !! r =
                 Some (settle (currentTime a) (judge (currentTime a) hands note) note)).
  { rewrite Hst, decide_True, Hjr, Hnote by exact Hact. reflexivity. }
  split; [|split].
  - rewrite Hin, (judge_JMiss_iff _ _ _ Hun).
    unfold MISS_Z, currentZ, PLAYER_Z, NOTE_SPEED. split; intros; lra.
  - rewrite Hin, Hst'. destruct Hun as [Hh Hm]. split.
    + intros ->. reflexivity.
    + intros [= Heq].
      destruct (judge (currentTime a) hands note) as [| |g]; [| reflexivity |]; cbn [settle] in Heq.
      * apply (f_equal missed) in Heq. cbn in Heq. congruence.
      * apply (f_equal hit) in Heq. cbn in Heq. congruence.
  - rewrite Hin. intros Hj Hr. apply list_elem_of_In in Hr.
    rewrite Hactive in Hr. apply list_elem_of_filter in Hr as [Hp _].
    rewrite Hjr, Hj in Hp. discriminate.
Qed.

Lemma X6_miss_judgement_witness :
  In (NoteMiss 0) (useFrame PLAYING (Some (mkAudio 20 false)) initialHandPositions
                     (mountScene twoNotes)).2.
Proof.
  assert (Hact : In 0%nat (activeNotesRef
            (activate (length (notesState (mountScene twoNotes)))
               (currentTime (mkAudio 20 false)) (mountScene twoNotes)))).
  { cbn [currentTime]. rewrite twoNotes_active. left. reflexivity. }
  apply (proj1 (X6_miss_judgement (mountScene twoNotes) (mkAudio 20 false)
                  initialHandPositions 0 (leftNote 0 1 ANY)
                  (scene_ok_mount twoNotes) eq_refl Hact eq_refl (conj eq_refl eq_refl))).
  cbn [currentTime leftNote time]. lra.
Defined.

Lemma hitTest_noHands (t : R) (hands : HandPositions) (note : NoteData) :
  noHands hands -> hitTest t hands note = None.
Proof.
  intros [Hl Hr]. unfold hitTest. rewrite Hl, Hr.
  destruct (_ && _); [|reflexivity]. destruct (type note); reflexivity.
Qed.

Lemma frame_no_hits (sc : Scene) (a : Audio) (hands : HandPositions) (r : nat) (g : bool) :
  scene_ok sc -> noHands hands ->
  ~ In (NoteHit r g) (useFrame PLAYING (Some a) hands sc).2.
Proof.
  intros Hok Hno Hin. destruct (ended a) eqn:Hplay.
  { unfold useFrame in Hin. rewrite Hplay in Hin. destruct Hin as [Hin|[]]. discriminate. }
  destruct (frame_event_notes hands a sc _ r Hok Hplay Hin eq_refl) as [_ He].
  apply eventOf_hit in He as [_ He]. unfold judgeRef in He.
  destruct (notesState sc !! r) as [note|]; [|discriminate].
  assert (Hun : unresolved note) by (apply (judge_not_pending (currentTime a) hands); congruence).
  apply (judge_JHit_iff _ _ _ _ Hun) in He.
  rewrite (hitTest_noHands _ _ _ Hno) in He. discriminate.
Qed.

(** X7: while neither hand has a position no note can be hit: over any
    sequence of frames in which both positions are absent, no [onNoteHit]
    is ever called. *)
Theorem X7_no_hands_no_hits (ticks : list (Audio * HandPositions)) (sc : Scene)
  (r : nat) (g : bool) :
  scene_ok sc ->
  Forall (fun tick => noHands tick.2) ticks ->
  ~ In (NoteHit r g) (playFrames ticks sc).2.
Proof.
  intros Hok Hall. revert sc Hok.
  induction Hall as [|[a hands] ticks Hno _ IH]; intros sc Hok; [intros []|].
  cbn [playFrames].
  pose proof (frame_no_hits sc a hands r g Hok Hno) as H1.
  pose proof (scene_ok_useFrame PLAYING (Some a) hands sc Hok) as Hok1.
  destruct (useFrame PLAYING (Some a) hands sc) as [sc1 ev1]. cbn [fst snd] in *.
  specialize (IH sc1 Hok1). destruct (playFrames ticks sc1) as [sc2 ev2]. cbn [snd] in *.
  intros [Hin|Hin]%in_app_or; tauto.
Qed.

Lemma X7_no_hands_no_hits_witness :
  Forall (fun tick : Audio * HandPositions => noHands tick.2)
    [(mkAudio 1 false, initialHandPositions); (mkAudio 20 false, initialHandPositions)] /\
  ~ In (NoteHit 0 true)
       (playFrames [(mkAudio 1 false, initialHandPositions);
                    (mkAudio 20 false, initialHandPositions)]
          (mountScene twoNotes)).2.
Proof.
  assert (Hall : Forall (fun tick : Audio * HandPositions => noHands tick.2)
            [(mkAudio 1 false, initialHandPositions);
             (mkAudio 20 false, initialHandPositions)])
    by (repeat constructor).
  split; [exact Hall|].
  exact (X7_no_hands_no_hits _ (mountScene twoNotes) 0 true (scene_ok_mount twoNotes) Hall).
Defined.

Lemma sameNote_refl (n : NoteData) : sameNote n n.
Proof. unfold sameNote. repeat split. Qed.

Lemma sameNote_trans (a b c : NoteData) : sameNote a b -> sameNote b c -> sameNote a c.
Proof. unfold sameNote. intuition congruence. Qed.

Lemma sameNote_settle (t : R) (j : Judgement) (n : NoteData) : sameNote n (settle t j n).
Proof. destruct j; unfold sameNote; cbn; repeat split. Qed.

Lemma frame_sameNote (sc : Scene) (a : Audio) (hands : HandPositions)
  (r : nat) (note : NoteData) :
  scene_ok sc -> notesState sc !! r = Some note ->
  length (notesState (useFrame PLAYING (Some a) hands sc).1) = length (notesState sc) /\
  exists note', notesState (useFrame PLAYING (Some a) hands sc).1 !! r = Some note' /\
                sameNote note note'.
Proof.
  intros Hok Hnote. destruct (ended a) eqn:Hplay.
  { unfold useFrame. rewrite Hplay. split; [reflexivity|].
    exists note. split; [exact Hnote|apply sameNote_refl]. }
  destruct (useFrame_spec hands a Hplay sc Hok) as (_ & _ & _ & Hlen & Hst).
  split; [exact Hlen|]. rewrite Hst, Hnote. destruct (decide _).
  - eexists. split; [reflexivity|apply sameNote_settle].
  - exists note. split; [reflexivity|apply sameNote_refl].
Qed.

(** X8: the frame callback only ever writes the flags and the hit time of a
    note.  Over any sequence of frames the chart keeps its length, and every
    note keeps its id, time, lane, layer, hand and cut direction. *)
Theorem X8_frames_keep_chart_fields (ticks : list (Audio * HandPositions)) (sc : Scene)
  (r : nat) (note : NoteData) :
  scene_ok sc ->
  notesState sc !! r = Some note ->
  length (notesState (playFrames ticks sc).1) = length (notesState sc) /\
  exists note', notesState (playFrames ticks sc).1 !! r = Some note' /\ sameNote note note'.
Proof.
  revert sc note. induction ticks as [|[a hands] ticks IH]; intros sc note Hok Hnote.
  - cbn [playFrames fst]. split; [reflexivity|].
    exists note. split; [exact Hnote|apply sameNote_refl].
  - cbn [playFrames].
    destruct (frame_sameNote sc a hands r note Hok Hnote) as (Hlen & note1 & Hn1 & Hs1).
    pose proof (scene_ok_useFrame PLAYING (Some a) hands sc Hok) as Hok1.
    destruct (useFrame PLAYING (Some a) hands sc) as [sc1 ev1]. cbn [fst] in *.
    destruct (IH sc1 note1 Hok1 Hn1) as (Hlen2 & note2 & Hn2 & Hs2).
    destruct (playFrames ticks sc1) as [sc2 ev2]. cbn [fst] in *.
    split; [congruence|]. exists note2. split; [exact Hn2|].
    eapply sameNote_trans; eassumption.
Qed.

Lemma X8_frames_keep_chart_fields_witness :
  length (notesState (playFrames [(mkAudio 20 false, initialHandPositions)]
                        (mountScene twoNotes)).1) = length twoNotes /\
  exists note', notesState (playFrames [(mkAudio 20 false, initialHandPositions)]
                              (mountScene twoNotes)).1 !! 1%nat = Some note' /\
                sameNote (leftNote 1 10 ANY) note'.
Proof.
  exact (X8_frames_keep_chart_fields [(mkAudio 20 false, initialHandPositions)]
           (mountScene twoNotes) 1 (leftNote 1 10 ANY) (scene_ok_mount twoNotes) eq_refl).
Defined.

Lemma activate_spans (fuel : nat) (t : R) (sc : Scene) (r : nat) :
  r ∈ activeNotesRef (activate fuel t sc) ->
  r ∈ activeNotesRef sc \/ (nextNoteIndexRef sc <= r)%nat.
Proof.
  destruct (activate_spec fuel t sc) as (_ & _ & -> & _).
  intros [H|H]%elem_of_app; [auto|]. right.
  apply list_elem_of_In, in_seq in H. lia.
Qed.

Lemma frame_resolved_inactive (sc : Scene) (a : Audio) (hands : HandPositions) :
  scene_ok sc -> resolved_inactive sc ->
  resolved_inactive (useFrame PLAYING (Some a) hands sc).1.
Proof.
  intros Hok Hri. destruct (ended a) eqn:Hplay.
  { unfold useFrame. rewrite Hplay. exact Hri. }
  destruct (useFrame_spec hands a Hplay sc Hok) as (_ & Hact & Hcur & _ & Hst).
  pose proof (scene_ok_activate (length (notesState sc)) (currentTime a) sc Hok)
    as (_ & Hbelow & _).
  pose proof (proj1 (proj2 (activate_spec (length (notesState sc)) (currentTime a) sc)))
    as Hmono.
  intros r note1 Hn1 Hres. rewrite Hst in Hn1. rewrite Hact, Hcur.
  destruct (decide (r ∈ activeNotesRef (activate (length (notesState sc)) (currentTime a) sc)))
    as [Hin|Hout].
  - split; [rewrite Forall_forall in Hbelow; auto|].
    intros [Hp _]%list_elem_of_filter.
    unfold judgeRef in Hp, Hn1.
    destruct (notesState sc !! r) as [note|] eqn:Hnote; [|discriminate].
    rewrite Hp in Hn1. cbn in Hn1. injection Hn1 as <-.
    destruct (Hri r note Hnote Hres) as [Hlt Hnot].
    destruct (activate_spans _ _ _ _ Hin) as [H|H]; [tauto|lia].
  - destruct (Hri r note1 Hn1 Hres) as [Hlt _].
    split; [lia|]. intros [_ H]%list_elem_of_filter. tauto.
Qed.

Lemma playFrames_resolved_inactive (ticks : list (Audio * HandPositions)) (sc : Scene) :
  scene_ok sc -> resolved_inactive sc -> resolved_inactive (playFrames ticks sc).1.
Proof.
  revert sc. induction ticks as [|[a hands] ticks IH]; intros sc Hok Hri; [exact Hri|].
  cbn [playFrames].
  pose proof (frame_resolved_inactive sc a hands Hok Hri) as H1.
  pose proof (scene_ok_useFrame PLAYING (Some a) hands sc Hok) as Hok1.
  destruct (useFrame PLAYING (Some a) hands sc) as [sc1 ev1]. cbn [fst] in *.
  specialize (IH sc1 Hok1 H1). destruct (playFrames ticks sc1) as [sc2 ev2]. exact IH.
Qed.

(** X9: in a session (a scene whose flags were just cleared) the active
    list never holds a resolved note: after any sequence of frames every
    entry of the active list refers to a note of the chart that is neither
    hit nor missed. *)
Theorem X9_active_notes_unresolved (ticks : list (Audio * HandPositions)) (sc0 : Scene)
  (r : nat) :
  scene_ok sc0 ->
  (forall r note, notesState sc0 !! r = Some note -> unresolved note) ->
  In r (activeNotesRef (playFrames ticks sc0).1) ->
  exists note, notesState (playFrames ticks sc0).1 !! r = Some note /\ unresolved note.
Proof.
  intros Hok Hun Hin. apply list_elem_of_In in Hin.
  assert (Hri0 : resolved_inactive sc0).
  { intros r' note Hn [Hh|Hm]; destruct (Hun r' note Hn); congruence. }
  pose proof (playFrames_resolved_inactive ticks sc0 Hok Hri0) as Hri.
  pose proof (scene_ok_playFrames ticks sc0 Hok) as (_ & Hbelow & Hlen).
  rewrite Forall_forall in Hbelow. specialize (Hbelow r Hin).
  destruct (lookup_lt_is_Some_2 (notesState (playFrames ticks sc0).1) r) as [note Hnote];
    [lia|].
  exists note. split; [exact Hnote|]. unfold unresolved.
  destruct (hit note) eqn:Hh.
  { destruct (Hri r note Hnote (or_introl Hh)) as [_ Hnot]. tauto. }
  destruct (missed note) eqn:Hm.
  { destruct (Hri r note Hnote (or_intror Hm)) as [_ Hnot]. tauto. }
  auto.
Qed.

Lemma twoNotes_active_early :
  activeNotesRef (activate (length (notesState (mountScene twoNotes))) 8 (mountScene twoNotes))
  = [0%nat; 1%nat].
Proof.
  cbn [mountScene notesState twoNotes length activate lookup list_lookup
       nextNoteIndexRef activeNotesRef leftNote time app].
  unfold js_le. rewrite spawnAheadTime_eq.
  destruct (Rle_dec (1 - 3) 8) as [_|Hn]; [|exfalso; lra].
  cbn [mountScene notesState twoNotes length activate lookup list_lookup
       nextNoteIndexRef activeNotesRef leftNote time app].
  unfold js_le.
  destruct (Rle_dec (10 - 3) 8) as [_|Hn]; [reflexivity|exfalso; lra].
Qed.

Lemma twoNotes_second_pending :
  In 1%nat (activeNotesRef (playFrames [(mkAudio 8 false, initialHandPositions)]
                       (mountScene twoNotes)).1).
Proof.
  cbn [playFrames].
  destruct (useFrame_spec initialHandPositions (mkAudio 8 false) eq_refl
              (mountScene twoNotes) (scene_ok_mount twoNotes)) as (_ & Hact & _).
  destruct (useFrame PLAYING (Some (mkAudio 8 false)) initialHandPositions
              (mountScene twoNotes)) as [sc1 ev1].
  cbn [fst] in *. rewrite Hact. cbn [currentTime]. rewrite twoNotes_active_early.
  apply list_elem_of_In, list_elem_of_filter. split; [|repeat constructor].
  unfold judgeRef. cbn [mountScene notesState twoNotes lookup list_lookup].
  unfold judge, hitTest, currentZ, leftNote, PLAYER_Z, NOTE_SPEED, MISS_Z.
  cbn [hit missed orb time]. unfold js_gt.
  destruct (Rgt_dec (0 - (10 - 8) * 10) 5) as [H|_]; [exfalso; lra|].
  destruct (Rgt_dec (0 - (10 - 8) * 10) (0 - 1.5)) as [H|_]; [exfalso; lra|].
  reflexivity.
Qed.

Lemma X9_active_notes_unresolved_witness :
  exists note,
    notesState (playFrames [(mkAudio 8 false, initialHandPositions)]
                  (mountScene twoNotes)).1 !! 1%nat = Some note /\
    unresolved note.
Proof.
  exact (X9_active_notes_unresolved [(mkAudio 8 false, initialHandPositions)]
           (mountScene twoNotes) 1 (scene_ok_mount twoNotes) twoNotes_unresolved
           twoNotes_second_pending).
Defined.

Lemma frame_inactive (sc : Scene) (a : Audio) (hands : HandPositions) (r : nat) :
  scene_ok sc ->
  (r < nextNoteIndexRef sc)%nat -> ~ r ∈ activeNotesRef sc ->
  (r < nextNoteIndexRef (useFrame PLAYING (Some a) hands sc).1)%nat /\
  ~ r ∈ activeNotesRef (useFrame PLAYING (Some a) hands sc).1 /\
  notesState (useFrame PLAYING (Some a) hands sc).1 !! r = notesState sc !! r /\
  forall e, In e (useFrame PLAYING (Some a) hands sc).2 -> eventNote e <> Some r.
Proof.
  intros Hok Hlt Hout. destruct (ended a) eqn:Hplay.
  { unfold useFrame. rewrite Hplay. cbn [fst snd]. repeat split; auto.
    intros e [<-|[]]. discriminate. }
  destruct (useFrame_spec hands a Hplay sc Hok) as (_ & Hact & Hcur & _ & Hst).
  pose proof (proj1 (proj2 (activate_spec (length (notesState sc)) (currentTime a) sc)))
    as Hmono.
  assert (Hout1 : ~ r ∈ activeNotesRef (activate (length (notesState sc)) (currentTime a) sc)).
  { intros [H|H]%activate_spans; [tauto|lia]. }
  rewrite Hact, Hcur, Hst. split; [lia|]. split; [|split].
  - intros [_ H]%list_elem_of_filter. tauto.
  - rewrite decide_False by exact Hout1. reflexivity.
  - intros e Hin Hn.
    destruct (frame_event_notes hands a sc e r Hok Hplay Hin Hn) as [Hr _]. tauto.
Qed.

Lemma playFrames_inactive (ticks : list (Audio * HandPositions)) (sc : Scene) (r : nat) :
  scene_ok sc ->
  (r < nextNoteIndexRef sc)%nat -> ~ r ∈ activeNotesRef sc ->
  notesState (playFrames ticks sc).1 !! r = notesState sc !! r /\
  forall e, In e (playFrames ticks sc).2 -> eventNote e <> Some r.
Proof.
  revert sc. induction ticks as [|[a hands] ticks IH]; intros sc Hok Hlt Hout.
  - cbn [playFrames fst snd]. split; [reflexivity|]. intros e [].
  - cbn [playFrames].
    destruct (frame_inactive sc a hands r Hok Hlt Hout) as (Hlt1 & Hout1 & Hn1 & Hev1).
    pose proof (scene_ok_useFrame PLAYING (Some a) hands sc Hok) as Hok1.
    destruct (useFrame PLAYING (Some a) hands sc) as [sc1 ev1]. cbn [fst snd] in *.
    destruct (IH sc1 Hok1 Hlt1 Hout1) as [Hn2 Hev2].
    destruct (playFrames ticks sc1) as [sc2 ev2]. cbn [fst snd] in *.
    split; [congruence|]. intros e [He|He]%in_app_or; auto.
Qed.

(** X10: [startGame] does not rewind the scene.  It clears the flags of
    every note but leaves the activation cursor and the active list where
    the last session left them, so a note that is below the cursor and no
    longer active comes out of [startGame] unresolved and stays so: no
    later frame changes it or emits an event for it. *)
Theorem X10_restart_keeps_cursor (app : App) (sc : Scene)
  (ticks : list (Audio * HandPositions)) (r : nat) :
  scene_ok sc ->
  (r < nextNoteIndexRef sc)%nat ->
  ~ In r (activeNotesRef sc) ->
  nextNoteIndexRef (startGame true (app, sc)).2 = nextNoteIndexRef sc /\
  activeNotesRef (startGame true (app, sc)).2 = activeNotesRef sc /\
  (exists note, notesState (startGame true (app, sc)).2 !! r = Some note /\
                unresolved note) /\
  notesState (playFrames ticks (startGame true (app, sc)).2).1 !! r
    = notesState (startGame true (app, sc)).2 !! r /\
  forall e, In e (playFrames ticks (startGame true (app, sc)).2).2 -> eventNote e <> Some r.
Proof.
  intros Hok Hlt Hout.
  destruct (startGame_session_start (app, sc) Hok) as [Hok' Hun].
  split; [reflexivity|]. split; [reflexivity|]. split.
  - destruct Hok' as (_ & _ & Hlen).
    destruct (lookup_lt_is_Some_2 (notesState (startGame true (app, sc)).2) r)
      as [note Hnote].
    { cbn [startGame snd nextNoteIndexRef] in *. lia. }
    exists note. split; [exact Hnote|exact (Hun r note Hnote)].
  - apply playFrames_inactive; [exact Hok'|exact Hlt|].
    cbn [startGame snd activeNotesRef]. rewrite list_elem_of_In. exact Hout.
Qed.

Lemma playedOut_ok : scene_ok playedOut.
Proof. unfold scene_ok, playedOut. cbn. repeat split; (constructor || lia). Qed.

Lemma X10_restart_keeps_cursor_witness :
  scene_ok playedOut /\
  forall e,
    In e (playFrames [(mkAudio 2 false, swingingLeft)]
            (startGame true (startedApp, playedOut)).2).2 ->
    eventNote e <> Some 0%nat.
Proof.
  split; [exact playedOut_ok|].
  assert (Hlt : (0 < nextNoteIndexRef playedOut)%nat) by (cbn; lia).
  assert (Hout : ~ In 0%nat (activeNotesRef playedOut)) by (cbn; tauto).
  exact (proj2 (proj2 (proj2 (proj2
           (X10_restart_keeps_cursor startedApp playedOut
              [(mkAudio 2 false, swingingLeft)] 0 playedOut_ok Hlt Hout))))).
Defined.

Lemma playGame_idle (frames : list (option Audio * HandPositions)) (g : App * Scene) :
  between_frames g.1 -> gameStatus g.1 <> PLAYING -> playGame frames g = g.
Proof.
  induction frames as [|[audio hands] frames IH]; intros Hb Hidle; [reflexivity|].
  destruct g as [s sc]. cbn [playGame fold_left fst snd] in *.
  rewrite (frame_idle audio hands s sc Hb Hidle). apply IH; assumption.
Qed.

(** X11: when the audio reports that it has ended during a playing session,
    the frame calls [onSongEnd] and nothing else: the phase becomes
    [VICTORY], score, combo, multiplier and health stay as they are, the
    scene is untouched, and every later frame leaves the game as it is. *)
Theorem X11_song_end_is_victory (s : App) (sc : Scene) (a : Audio) (hands : HandPositions)
  (more : list (option Audio * HandPositions)) :
  between_frames s ->
  gameStatus s = PLAYING ->
  ended a = true ->
  frame (Some a) hands (s, sc) = (endGame true s, sc) /\
  gameStatus (endGame true s) = VICTORY /\
  (score (endGame true s) = score s /\ combo (endGame true s) = combo s /\
   multiplier (endGame true s) = multiplier s /\ health (endGame true s) = health s) /\
  playGame more (endGame true s, sc) = (endGame true s, sc).
Proof.
  intros Hb Hplay Hend.
  assert (Hb' : between_frames (endGame true s)).
  { destruct Hb as ([Ht Hp] & Hm & Hh & Hz). unfold between_frames, endGame. cbn.
    repeat split; auto. intros H0. specialize (Hz H0). congruence. }
  split; [|split; [reflexivity|split; [repeat split|]]].
  - unfold frame. rewrite Hplay. unfold useFrame. rewrite Hend.
    cbn [fold_left dispatch].
    replace (endGameTimers (endGame true s)) with O by (symmetry; apply Hb).
    change (Nat.iter 0 runTimer (endGame true s)) with (endGame true s).
    rewrite render_fixed; [reflexivity|apply Hb'|apply Hb'].
  - apply playGame_idle; [exact Hb'|]. cbn. discriminate.
Qed.

Lemma X11_song_end_is_victory_witness :
  frame (Some (mkAudio 180 true)) initialHandPositions (startedApp, mountScene twoNotes)
  = (endGame true startedApp, mountScene twoNotes).
Proof.
  exact (proj1 (X11_song_end_is_victory startedApp (mountScene twoNotes)
                  (mkAudio 180 true) initialHandPositions []
                  between_frames_started eq_refl eq_refl)).
Defined.

Lemma visibleNotes_In (notes : list NoteData) (shownTime : R) (n : NoteData) :
  In n (visibleNotes notes shownTime) <->
  In n notes /\ missed n = false /\
  (hit n = false \/ shownTime - default 0 (hitTime n) < 0.5) /\
  -2 < time n - shownTime < 5.
Proof.
  unfold visibleNotes. rewrite filter_In, !andb_true_iff, orb_true_iff, !negb_true_iff,
    !js_lt_true, js_gt_true. tauto.
Qed.

(** X12: what the scene draws after a playing frame, when [visibleNotes] is
    computed at that frame's playback time from the note objects the frame
    has just written.  A note hit in this frame is drawn (with its flags
    set by the hit); a note missed in this frame is not; and a note that
    is still active and unresolved after the frame is drawn whenever it
    was due for activation, so nothing the player can still hit is
    hidden. *)
Theorem X12_drawn_after_frame (sc : Scene) (a : Audio) (hands : HandPositions)
  (r : nat) (note : NoteData) :
  scene_ok sc ->
  ended a = false ->
  notesState sc !! r = Some note ->
  let after := (useFrame PLAYING (Some a) hands sc).1 in
  let events := (useFrame PLAYING (Some a) hands sc).2 in
  let drawn := visibleNotes (notesState after) (currentTime a) in
  (forall g, In (NoteHit r g) events -> In (markHit (currentTime a) note) drawn) /\
  (In (NoteMiss r) events -> forall n, notesState after !! r = Some n -> ~ In n drawn) /\
  (In r (activeNotesRef after) -> unresolved note ->
   time note - spawnAheadTime <= currentTime a -> In note drawn).
Proof.
  intros Hok Hplay Hnote after events drawn. subst after events drawn.
  destruct (useFrame_spec hands a Hplay sc Hok) as (_ & Hactive & _ & _ & Hst).
  assert (Hjr : judgeRef (currentTime a) hands (notesState sc) r =
                judge (currentTime a) hands note).
  { unfold judgeRef. rewrite Hnote. reflexivity. }
  split; [|split].
  - intros g Hin.
    destruct (frame_event_notes hands a sc _ r Hok Hplay Hin eq_refl) as [Hact He].
    rewrite Hjr in He. apply eventOf_hit in He as [_ Hj].
    pose proof (judge_not_pending (currentTime a) hands note) as Hun.
    rewrite Hj in Hun. specialize (Hun ltac:(discriminate)).
    pose proof Hj as Hhit.
    apply (judge_JHit_iff _ _ _ _ Hun), hitTest_Some_iff in Hhit as (Hwin & _).
    apply visibleNotes_In. split; [|split; [|split]].
    + apply list_elem_of_In, (list_elem_of_lookup_2 _ r).
      rewrite Hst, decide_True, Hjr, Hj, Hnote by exact Hact. reflexivity.
    + apply Hun.
    + right. cbn [markHit hitTime]. unfold default. cbn [from_option Datatypes.id]. lra.
    + cbn [markHit time]. unfold currentZ, PLAYER_Z, NOTE_SPEED in Hwin. lra.
  - intros Hin n Hn Hdrawn.
    destruct (frame_event_notes hands a sc _ r Hok Hplay Hin eq_refl) as [Hact He].
    rewrite Hjr in He. apply eventOf_miss in He as [_ Hj].
    rewrite Hst, decide_True, Hjr, Hj, Hnote in Hn by exact Hact.
    cbn [fmap option_fmap option_map settle] in Hn. injection Hn as <-.
    apply visibleNotes_In in Hdrawn as (_ & Hm & _). discriminate.
  - intros Hin%list_elem_of_In Hun Hdue. rewrite Hactive in Hin.
    apply list_elem_of_filter in Hin as [Hj Hact]. rewrite Hjr in Hj.
    assert (Hz : ~ MISS_Z < currentZ (currentTime a) note).
    { intros Hz. rewrite (judge_miss _ hands _ Hun Hz) in Hj. discriminate. }
    apply visibleNotes_In. split; [|split; [|split]].
    + apply list_elem_of_In, (list_elem_of_lookup_2 _ r).
      rewrite Hst, decide_True, Hjr, Hj, Hnote by exact Hact. reflexivity.
    + apply Hun.
    + left. apply Hun.
    + rewrite spawnAheadTime_eq in Hdue.
      unfold currentZ, MISS_Z, PLAYER_Z, NOTE_SPEED in Hz. lra.
Qed.

Lemma oneNote_judged_hit : judge 2 swingingLeft (leftNote 0 2 ANY) = JHit true.
Proof.
  apply judge_JHit_iff; [split; reflexivity|]. apply hitTest_Some_iff.
  assert (Hz : currentZ 2 (leftNote 0 2 ANY) = 0).
  { unfold currentZ, PLAYER_Z, NOTE_SPEED. cbn [leftNote time]. lra. }
  rewrite Hz. split; [unfold PLAYER_Z; lra|]. split.
  - exists (mkVector3 (-0.4) 0.8 0), (-0.5 * LANE_WIDTH), 0.8.
    repeat split.
    unfold Vec.distanceTo, Vec.distanceToSquared, LANE_WIDTH. cbn [vx vy vz].
    match goal with |- sqrt ?e < _ => replace e with 0 by lra end.
    rewrite sqrt_0. lra.
  - symmetry. apply goodCutOf_true_iff. left. split; [reflexivity|].
    cbn [handVelocity swingingLeft leftNote type leftVelocity].
    rewrite swingingLeft_speed. lra.
Qed.

Lemma oneNote_hit_event :
  In (NoteHit 0 true)
     (useFrame PLAYING (Some (mkAudio 2 false)) swingingLeft (mountScene oneNote)).2.
Proof.
  apply (frame_event_in swingingLeft (mkAudio 2 false) (mountScene oneNote) _ 0%nat
           (scene_ok_mount oneNote) eq_refl).
  - cbn [currentTime]. rewrite oneNote_active. apply list_elem_of_In. left. reflexivity.
  - unfold judgeRef. cbn [mountScene notesState oneNote lookup list_lookup currentTime].
    rewrite oneNote_judged_hit. reflexivity.
Qed.

Lemma X12_drawn_after_frame_witness :
  In (markHit 2 (leftNote 0 2 ANY))
     (visibleNotes
        (notesState (useFrame PLAYING (Some (mkAudio 2 false)) swingingLeft
                       (mountScene oneNote)).1) 2).
Proof.
  exact (proj1 (X12_drawn_after_frame (mountScene oneNote) (mkAudio 2 false) swingingLeft
                  0 (leftNote 0 2 ANY) (scene_ok_mount oneNote) eq_refl eq_refl)
           true oneNote_hit_event).
Defined.

(* ================================================================== *)
(** * Further properties: the demo charts *)
(* ================================================================== *)

(** Sorting an array that is in order already leaves it as it is. *)
Lemma Array_sort_sorted_id {A : Type} (key : A -> R) (l : list A) :
  StronglySorted (fun a b => key a <= key b) l ->
  Array_sort (fun a b => key a - key b) l = l.
Proof.
  induction 1 as [|x l Hl IH Hx]; simpl; [reflexivity|].
  rewrite IH. destruct l as [|y rest]; simpl; [reflexivity|].
  apply Forall_inv in Hx.
  destruct (Rlt_dec (key y - key x) 0); [exfalso; lra|reflexivity].
Qed.

Lemma constants_BEAT_TIME_pos : 0 < ConstantsTs.BEAT_TIME.
Proof. unfold ConstantsTs.BEAT_TIME, ConstantsTs.SONG_BPM. lra. Qed.

Lemma onDownbeat_mono (i i' : nat) (n : ConstantsTs.NoteData) :
  (i <= i')%nat -> onDownbeat i n -> onDownbeat i' n.
Proof. intros Hi (j & Hj & Hm & Ht). exists j. repeat split; (lia || assumption). Qed.

Lemma constants_chart_inv_mono (i i' : nat) (st : ConstantsTs.LoopState) :
  (i <= i')%nat -> constants_chart_inv i st -> constants_chart_inv i' st.
Proof.
  intros Hi (Hlen & Hcnt & Hn & Hs). repeat split; try assumption; try lia;
    destruct (Hn k n H) as (? & ? & ?); try assumption.
  eapply onDownbeat_mono; eassumption.
Qed.

Lemma constants_chartBeat_inv (random : nat -> R) (i : nat) (st : ConstantsTs.LoopState) :
  (12 <= i)%nat ->
  constants_chart_inv i st -> constants_chart_inv (i + 1) (ConstantsTs.chartBeat random i st).
Proof.
  intros Hi Hinv. unfold ConstantsTs.chartBeat.
  destruct (Nat.eqb_spec (i mod 4) 0) as [Hmod|Hmod]; cbn [negb];
    [|apply (constants_chart_inv_mono i); [lia|exact Hinv]].
  destruct (Rgt_dec (random (ConstantsTs.drawn st)) 0.6) as [Hskip|Hkeep].
  { apply (constants_chart_inv_mono i); [lia|]. exact Hinv. }
  destruct Hinv as (Hlen & Hcnt & Hn & Hs).
  unfold constants_chart_inv. cbn [ConstantsTs.notes ConstantsTs.idCount].
  rewrite length_app. cbn [length]. split; [lia|]. split; [|split].
  - pose proof (Nat.div_mod_eq i 4). lia.
  - intros k n Hk. apply lookup_app_Some in Hk as [Hk|[Hge Hk]].
    + destruct (Hn k n Hk) as (? & ? & ?). repeat split; try assumption.
      eapply onDownbeat_mono; [|eassumption]. lia.
    + apply list_lookup_singleton_Some in Hk as [Hk <-].
      cbn [ConstantsTs.id ConstantsTs.cutDirection].
      split; [f_equal; lia|]. split; [reflexivity|].
      exists i. cbn [ConstantsTs.time]. repeat split; (lia || assumption).
  - apply StronglySorted_app_2; [|exact Hs|repeat constructor].
    intros a b Ha ->%list_elem_of_singleton.
    apply list_elem_of_lookup in Ha as [k Hk].
    destruct (Hn k a Hk) as (_ & _ & j & Hj & Hjm & Ht).
    unfold fourBeatsApart. cbn [ConstantsTs.time]. rewrite Ht.
    assert (Hle : (j + 4 <= i)%nat).
    { pose proof (Nat.div_mod_eq i 4). pose proof (Nat.div_mod_eq j 4). lia. }
    apply le_INR in Hle. rewrite plus_INR in Hle. cbn [INR] in Hle.
    pose proof constants_BEAT_TIME_pos. nra.
Qed.

Lemma constants_chartLoop_inv (random : nat -> R) (fuel i : nat)
  (st : ConstantsTs.LoopState) :
  (12 <= i <= 400)%nat ->
  constants_chart_inv i st ->
  constants_chart_inv 400 (ConstantsTs.chartLoop random fuel i st).
Proof.
  revert i st. induction fuel as [|fuel IH]; intros i st Hi Hinv; cbn [ConstantsTs.chartLoop].
  - apply (constants_chart_inv_mono i); [lia|exact Hinv].
  - destruct (Nat.ltb_spec i 400).
    + apply IH; [lia|]. apply constants_chartBeat_inv; [lia|exact Hinv].
    + apply (constants_chart_inv_mono i); [lia|exact Hinv].
Qed.

Lemma constants_chart_inv_start : constants_chart_inv 12 (ConstantsTs.mkLoop [] 0 0).
Proof.
  unfold constants_chart_inv. cbn. repeat split; try lia; try constructor;
    rewrite lookup_nil in H; discriminate.
Qed.

Lemma fourBeatsApart_le (l : list ConstantsTs.NoteData) :
  StronglySorted fourBeatsApart l ->
  StronglySorted (fun a b => ConstantsTs.time a <= ConstantsTs.time b) l.
Proof.
  induction 1 as [|x l Hl IH Hx]; constructor; [exact IH|].
  eapply List.Forall_impl; [|exact Hx]. unfold fourBeatsApart. intros b Hb.
  pose proof constants_BEAT_TIME_pos. lra.
Qed.

Lemma constants_chart_unsorted (random : nat -> R) :
  ConstantsTs.generateDemoChart random
  = ConstantsTs.notes (ConstantsTs.chartLoop random 400 12 (ConstantsTs.mkLoop [] 0 0)).
Proof.
  unfold ConstantsTs.generateDemoChart. apply (Array_sort_sorted_id ConstantsTs.time).
  apply fourBeatsApart_le.
  apply (constants_chartLoop_inv random 400 12); [lia|apply constants_chart_inv_start].
Qed.

(** X13: the chart of [src/constants.ts], whatever [Math.random()] returns.
    The loop pushes the notes in time order already, so the final sort
    changes nothing and the note at index [k] is the one named [note-k];
    consecutive notes are at least four beats apart, so no two notes share
    a time; every note has cut direction [ANY] and sits on a downbeat from
    beat 12 up to beat 396; and there are at most 97 notes. *)
Theorem X13_constants_chart_shape (random : nat -> R) :
  ConstantsTs.generateDemoChart random
  = ConstantsTs.notes (ConstantsTs.chartLoop random 400 12 (ConstantsTs.mkLoop [] 0 0)) /\
  StronglySorted fourBeatsApart (ConstantsTs.generateDemoChart random) /\
  (length (ConstantsTs.generateDemoChart random) <= 97)%nat /\
  forall k n, ConstantsTs.generateDemoChart random !! k = Some n ->
    ConstantsTs.id n = note_id k /\ ConstantsTs.cutDirection n = ANY /\ onDownbeat 400 n.
Proof.
  rewrite constants_chart_unsorted.
  destruct (constants_chartLoop_inv random 400 12 (ConstantsTs.mkLoop [] 0 0)
              ltac:(lia) constants_chart_inv_start) as (_ & Hcnt & Hn & Hs).
  split; [reflexivity|]. split; [exact Hs|]. split; [lia|exact Hn].
Qed.

Lemma Math_floor_range (x : R) (n : Z) :
  0 <= x < IZR n -> (0 <= ConstantsTs.Math_floor x < n)%Z.
Proof.
  intros [H0 Hn]. unfold ConstantsTs.Math_floor, Int_part.
  destruct (archimed x) as [Hup Hlow].
  assert (H1 : (0 < up x)%Z) by (apply lt_IZR; lra).
  assert (H2 : (up x < n + 1)%Z) by (apply lt_IZR; rewrite plus_IZR; lra).
  lia.
Qed.

Lemma constants_chartBeat_cells (random : nat -> R) (i : nat) (st : ConstantsTs.LoopState) :
  unitRandom random ->
  Forall (fun n => inCell (ConstantsTs.lineIndex n) (ConstantsTs.lineLayer n))
         (ConstantsTs.notes st) ->
  Forall (fun n => inCell (ConstantsTs.lineIndex n) (ConstantsTs.lineLayer n))
         (ConstantsTs.notes (ConstantsTs.chartBeat random i st)).
Proof.
  intros Hr Hall. unfold ConstantsTs.chartBeat.
  destruct (negb _); [exact Hall|].
  destruct (Rgt_dec _ _); [exact Hall|].
  cbn [ConstantsTs.notes]. apply Forall_app. split; [exact Hall|].
  constructor; [|constructor]. cbn [ConstantsTs.lineIndex ConstantsTs.lineLayer].
  pose proof (Hr (ConstantsTs.drawn st + 2)%nat).
  pose proof (Hr (ConstantsTs.drawn st + 3)%nat).
  split.
  - assert (Hz : (0 <= ConstantsTs.Math_floor (random (ConstantsTs.drawn st + 2)%nat * 4) < 4)%Z)
      by (apply Math_floor_range; lra). lia.
  - assert (Hz : (0 <= ConstantsTs.Math_floor (random (ConstantsTs.drawn st + 3)%nat * 3) < 3)%Z)
      by (apply Math_floor_range; lra). lia.
Qed.

Lemma constants_chartLoop_cells (random : nat -> R) (fuel i : nat)
  (st : ConstantsTs.LoopState) :
  unitRandom random ->
  Forall (fun n => inCell (ConstantsTs.lineIndex n) (ConstantsTs.lineLayer n))
         (ConstantsTs.notes st) ->
  Forall (fun n => inCell (ConstantsTs.lineIndex n) (ConstantsTs.lineLayer n))
         (ConstantsTs.notes (ConstantsTs.chartLoop random fuel i st)).
Proof.
  intros Hr. revert i st. induction fuel as [|fuel IH]; intros i st Hall;
    cbn [ConstantsTs.chartLoop]; [exact Hall|].
  destruct (i <? 400)%nat; [|exact Hall].
  apply IH, constants_chartBeat_cells; assumption.
Qed.

(** X14: when [Math.random()] returns values in [0, 1), as it does, every
    note of the chart of [src/constants.ts] has a lane from 0 to 3 and a
    layer from 0 to 2, the indices the position tables have. *)
Theorem X14_constants_chart_cells (random : nat -> R) :
  unitRandom random ->
  Forall (fun n => inCell (ConstantsTs.lineIndex n) (ConstantsTs.lineLayer n))
         (ConstantsTs.generateDemoChart random).
Proof.
  intros Hr. rewrite constants_chart_unsorted.
  apply constants_chartLoop_cells; [exact Hr|constructor].
Qed.

Lemma X14_constants_chart_cells_witness :
  unitRandom (fun _ => 0.5) /\
  Forall (fun n => inCell (ConstantsTs.lineIndex n) (ConstantsTs.lineLayer n))
         (ConstantsTs.generateDemoChart (fun _ => 0.5)).
Proof.
  assert (Hr : unitRandom (fun _ => 0.5)) by (intros k; lra).
  split; [exact Hr|exact (X14_constants_chart_cells (fun _ => 0.5) Hr)].
Defined.

Lemma index_BEAT_TIME_pos : 0 < BEAT_TIME.
Proof. unfold BEAT_TIME, SONG_BPM. lra. Qed.

Lemma index_chart_inv_mono (i i' : nat) (notes : list NoteData) :
  (i <= i')%nat -> index_chart_inv i notes -> index_chart_inv i' notes.
Proof.
  intros Hi [Hn Hs]. split; [|exact Hs]. intros k n Hk.
  destruct (Hn k n Hk) as (Hid & Hc & Hun & Hht & Hcell & Hlo & Hup).
  repeat split; try assumption; try apply Hun.
  apply le_INR in Hi. pose proof index_BEAT_TIME_pos. nra.
Qed.

(** Pushing one more note, not earlier than the notes pushed at beat [i]. *)
Lemma index_chart_push (i i' : nat) (notes : list NoteData) (t : R) (lane layer : Z)
  (h : HandType) :
  (4 <= i <= i')%nat ->
  In (lane, layer, h) index_cells ->
  INR i * BEAT_TIME <= t <= INR i' * BEAT_TIME ->
  index_chart_inv i notes ->
  index_chart_inv i' (notes ++ [chartNote (length notes) t lane layer h]).
Proof.
  intros Hi Hcell Ht [Hn Hs].
  assert (H4 : 4 * BEAT_TIME <= INR i * BEAT_TIME).
  { assert (H : INR 4 <= INR i) by (apply le_INR; lia).
    cbn [INR] in H. pose proof index_BEAT_TIME_pos. nra. }
  split.
  - intros k n Hk. apply lookup_app_Some in Hk as [Hk|[Hge Hk]].
    + assert (Hle : (i <= i')%nat) by lia.
      destruct (index_chart_inv_mono i i' notes Hle (conj Hn Hs)) as [Hn' _].
      exact (Hn' k n Hk).
    + apply list_lookup_singleton_Some in Hk as [Hk <-].
      cbn [chartNote id cutDirection hit missed hitTime lineIndex lineLayer type time].
      split; [f_equal; lia|]. repeat split; (assumption || lra).
  - apply StronglySorted_app_2; [|exact Hs|repeat constructor].
    intros a b Ha ->%list_elem_of_singleton.
    apply list_elem_of_lookup in Ha as [k Hk].
    destruct (Hn k a Hk) as (_ & _ & _ & _ & _ & _ & Hup).
    cbn [chartNote time]. lra.
Qed.

Lemma index_chartBeat_inv (i : nat) (notes : list NoteData) :
  (4 <= i)%nat ->
  index_chart_inv i notes ->
  index_chart_inv (i + 2) (notes ++ chartBeat i (length notes)).
Proof.
  intros Hi Hinv.
  assert (Hi2 : INR (i + 2) = INR i + 2) by (rewrite plus_INR; cbn [INR]; lra).
  pose proof index_BEAT_TIME_pos as Hb.
  assert (Hone : forall lane layer h, In (lane, layer, h) index_cells ->
            index_chart_inv (i + 2)
              (notes ++ [chartNote (length notes) (INR i * BEAT_TIME) lane layer h])).
  { intros lane layer h Hc. apply (index_chart_push i); try assumption; [lia|].
    rewrite Hi2. nra. }
  assert (Htwo : forall t lane layer h lane' layer' h',
            In (lane, layer, h) index_cells -> In (lane', layer', h') index_cells ->
            INR i * BEAT_TIME <= t <= (INR i + 1) * BEAT_TIME ->
            index_chart_inv (i + 2)
              (notes ++ [chartNote (length notes) (INR i * BEAT_TIME) lane layer h;
                         chartNote (S (length notes)) t lane' layer' h'])).
  { intros t lane layer h lane' layer' h' Hc Hc' Ht.
    change (notes ++ [chartNote (length notes) (INR i * BEAT_TIME) lane layer h;
                      chartNote (S (length notes)) t lane' layer' h'])
      with (notes ++ ([chartNote (length notes) (INR i * BEAT_TIME) lane layer h]
                      ++ [chartNote (S (length notes)) t lane' layer' h'])).
    rewrite app_assoc.
    replace (S (length notes))
      with (length (notes ++ [chartNote (length notes) (INR i * BEAT_TIME) lane layer h]))
      by (rewrite length_app; cbn [length]; lia).
    apply (index_chart_push i); [lia|exact Hc'|rewrite Hi2; nra|].
    apply (index_chart_push i); [lia|exact Hc|nra|exact Hinv]. }
  unfold chartBeat, index_cells in *.
  destruct (_ =? 0)%nat.
  { destruct (_ =? 0)%nat; apply Hone; cbn; auto. }
  destruct (_ =? 1)%nat.
  { destruct (_ =? 0)%nat.
    - apply Htwo; cbn; auto. nra.
    - rewrite app_nil_r. apply (index_chart_inv_mono i); [lia|exact Hinv]. }
  apply Htwo; cbn; auto. nra.
Qed.

Lemma index_chartLoop_inv (fuel i : nat) (notes : list NoteData) :
  (4 <= i <= 200)%nat -> (i mod 2 = 0)%nat ->
  index_chart_inv i notes ->
  index_chart_inv 200 (chartLoop fuel i notes (length notes)).
Proof.
  revert i notes. induction fuel as [|fuel IH]; intros i notes Hi Heven Hinv;
    cbn [chartLoop].
  - apply (index_chart_inv_mono i); [lia|exact Hinv].
  - destruct (Nat.ltb_spec i 200).
    + rewrite <- length_app. apply IH.
      * pose proof (Nat.div_mod_eq i 2). lia.
      * replace (i + 2)%nat with (i + 1 * 2)%nat by lia. rewrite Nat.Div0.mod_add. exact Heven.
      * apply index_chartBeat_inv; [lia|exact Hinv].
    + apply (index_chart_inv_mono i); [lia|exact Hinv].
Qed.

Lemma index_chart_inv_start : index_chart_inv 4 [].
Proof. split; [|constructor]. intros k n Hk. rewrite lookup_nil in Hk. discriminate. Qed.

Lemma index_chart_unsorted : generateDemoChart = chartLoop 200 4 [] 0.
Proof.
  unfold generateDemoChart. apply (Array_sort_sorted_id time).
  apply (index_chartLoop_inv 200 4 []); [lia|reflexivity|apply index_chart_inv_start].
Qed.

(** X15: the chart of [src/index.tsx].  The loop pushes the notes in time
    order already, so the final sort changes nothing and the note at index
    [k] is the one named [note-k]; every note starts unresolved with cut
    direction [ANY], is scheduled from beat 4 up to beat 200, and sits in
    one of four places: left-hand notes in lanes 0 and 1, right-hand notes
    in lanes 2 and 3, never in the top layer. *)
Theorem X15_index_chart_shape :
  generateDemoChart = chartLoop 200 4 [] 0 /\
  forall k n, generateDemoChart !! k = Some n ->
    id n = note_id k /\ cutDirection n = ANY /\ unresolved n /\ hitTime n = None /\
    In (lineIndex n, lineLayer n, type n) index_cells /\
    4 * BEAT_TIME <= time n <= 200 * BEAT_TIME.
Proof.
  rewrite index_chart_unsorted. split; [reflexivity|].
  intros k n Hk.
  destruct (index_chartLoop_inv 200 4 [] ltac:(lia) eq_refl index_chart_inv_start)
    as [Hn _].
  replace 200 with (INR 200) by (rewrite INR_IZR_INZ; reflexivity).
  exact (Hn k n Hk).
Qed.

(* ================================================================== *)
(** * Further properties: reaching a note *)
(* ================================================================== *)

(** Every world position at height 0.1 or more is the image of some
    normalised coordinates. *)
Lemma mapHandToWorld_onto (X Y : R) :
  0.1 <= Y ->
  mapHandToWorld (0.5 - X / 5) (1 - (Y + 0.95) / 3.5) = mkVector3 X Y (- (Y * 0.2)).
Proof.
  intros HY. unfold mapHandToWorld, Rmax.
  repeat destruct (Rle_dec _ _); f_equal; lra.
Qed.

Lemma cell_position (lane layer : Z) :
  inCell lane layer ->
  exists X Y,
    js_index LANE_X_POSITIONS lane = Some X /\
    js_index LAYER_Y_POSITIONS layer = Some Y /\
    -1.2 <= X <= 1.2 /\ 0.8 <= Y <= 2.4.
Proof.
  intros [Hlane Hlayer].
  assert (Hl : (lane = 0 \/ lane = 1 \/ lane = 2 \/ lane = 3)%Z) by lia.
  assert (Hy : (layer = 0 \/ layer = 1 \/ layer = 2)%Z) by lia.
  unfold LANE_X_POSITIONS, LAYER_Y_POSITIONS, LANE_WIDTH.
  destruct Hl as [-> | [-> | [-> | ->]]]; destruct Hy as [-> | [-> | ->]];
    (eexists; eexists; split; [reflexivity|]; split; [reflexivity|]; lra).
Qed.

(** X16: every lane and layer of the position tables is within the player's
    reach.  For a note in lane 0 to 3 and layer 0 to 2 there are normalised
    image coordinates in [0, 1] whose world position, when the note's hand
    is there at the note's scheduled time, makes the hit test succeed; the
    cut quality is then what the hand velocity gives. *)
Theorem X16_every_cell_in_reach (note : NoteData) :
  inCell (lineIndex note) (lineLayer note) ->
  exists x y,
    0 <= x <= 1 /\ 0 <= y <= 1 /\
    forall hands,
      handPosition hands (type note) = Some (mapHandToWorld x y) ->
      hitTest (time note) hands note
      = Some (goodCutOf note (handVelocity hands (type note))).
Proof.
  intros Hcell.
  destruct (cell_position _ _ Hcell) as (X & Y & HX & HY & HXr & HYr).
  exists (0.5 - X / 5), (1 - (Y + 0.95) / 3.5).
  split; [lra|]. split; [lra|]. intros hands Hpos.
  rewrite mapHandToWorld_onto in Hpos by lra.
  assert (Hz : currentZ (time note) note = 0).
  { unfold currentZ, PLAYER_Z, NOTE_SPEED. lra. }
  apply hitTest_Some_iff. rewrite Hz. split; [unfold PLAYER_Z; lra|].
  split; [|reflexivity].
  exists (mkVector3 X Y (- (Y * 0.2))), X, Y. repeat split; try assumption.
  unfold Vec.distanceTo, Vec.distanceToSquared. cbn [vx vy vz].
  replace 0.8 with (sqrt (0.8 * 0.8)) at 1 by (apply sqrt_square; lra).
  apply sqrt_lt_1_alt. split; nra.
Qed.

Lemma X16_every_cell_in_reach_witness :
  exists x y,
    0 <= x <= 1 /\ 0 <= y <= 1 /\
    forall hands,
      handPosition hands HandLeft = Some (mapHandToWorld x y) ->
      hitTest 2 hands (leftNote 0 2 ANY)
      = Some (goodCutOf (leftNote 0 2 ANY) (handVelocity hands HandLeft)).
Proof.
  apply (X16_every_cell_in_reach (leftNote 0 2 ANY)).
  unfold inCell. cbn [leftNote lineIndex lineLayer]. lia.
Defined.

(* ================================================================== *)
(** * Further properties: misses in a row, and what a hit is worth *)
(* ================================================================== *)

Lemma index_misses (k : nat) (s : App) :
  (0 <= health s ->
   health (IndexTsx.run (repeat Miss k) s) = Z.max 0 (health s - 15 * Z.of_nat k) /\
   Z.of_nat (endGameTimers (IndexTsx.run (repeat Miss k) s))
   = Z.of_nat (endGameTimers s)
     + (Z.of_nat k - Z.min (Z.of_nat k) (missesSurvived (health s))) /\
   score (IndexTsx.run (repeat Miss k) s) = score s /\
   gameStatus (IndexTsx.run (repeat Miss k) s) = gameStatus s)%Z.
Proof.
  revert s. induction k as [|k IH]; intros s Hh.
  - cbn [repeat IndexTsx.run fold_left]. unfold missesSurvived.
    repeat split; Z.div_mod_to_equations; lia.
  - cbn [repeat IndexTsx.run fold_left].
    assert (Hh1 : (0 <= health (IndexTsx.step Miss s))%Z).
    { cbn [IndexTsx.step]. unfold handleNoteMiss.
      destruct (Z.leb_spec (health s - 15) 0); cbn [health]; lia. }
    destruct (IH _ Hh1) as (H1 & H2 & H3 & H4).
    unfold IndexTsx.run in *. rewrite H1, H2, H3, H4.
    cbn [IndexTsx.step]. unfold handleNoteMiss, missesSurvived.
    destruct (Z.leb_spec (health s - 15) 0);
      cbn [health endGameTimers score gameStatus];
      repeat split; try reflexivity; Z.div_mod_to_equations; lia.
Qed.

Lemma app_misses (k : nat) (s : App) :
  (0 <= health s ->
   health (AppTsx.run (repeat Miss k) s) = Z.max 0 (health s - 15 * Z.of_nat k) /\
   Z.of_nat (endGameTimers (AppTsx.run (repeat Miss k) s))
   = Z.of_nat (endGameTimers s)
     + (Z.of_nat k - Z.min (Z.of_nat k) (missesSurvived (health s))) /\
   (0 <= score s ->
    score (AppTsx.run (repeat Miss k) s) = Z.max 0 (score s - 50 * Z.of_nat k)) /\
   gameStatus (AppTsx.run (repeat Miss k) s) = gameStatus s)%Z.
Proof.
  revert s. induction k as [|k IH]; intros s Hh.
  - cbn [repeat AppTsx.run fold_left]. unfold missesSurvived.
    repeat split; intros; Z.div_mod_to_equations; lia.
  - cbn [repeat AppTsx.run fold_left].
    assert (Hh1 : (0 <= health (AppTsx.step Miss s))%Z).
    { cbn [AppTsx.step]. unfold AppTsx.handleNoteMiss.
      destruct (Z.leb_spec (health s - 15) 0); cbn [health]; lia. }
    destruct (IH _ Hh1) as (H1 & H2 & H3 & H4).
    unfold AppTsx.run in *. rewrite H1, H2, H4.
    split; [|split; [|split]].
    + cbn [AppTsx.step]. unfold AppTsx.handleNoteMiss.
      destruct (Z.leb_spec (health s - 15) 0); cbn [health]; lia.
    + cbn [AppTsx.step]. unfold AppTsx.handleNoteMiss, missesSurvived.
      destruct (Z.leb_spec (health s - 15) 0); cbn [health endGameTimers];
        Z.div_mod_to_equations; lia.
    + intros Hs. rewrite H3.
      * cbn [AppTsx.step]. unfold AppTsx.handleNoteMiss.
        destruct (Z.leb_spec (health s - 15) 0); cbn [score]; lia.
      * cbn [AppTsx.step]. unfold AppTsx.handleNoteMiss.
        destruct (Z.leb_spec (health s - 15) 0); cbn [score]; lia.
    + cbn [AppTsx.step]. unfold AppTsx.handleNoteMiss.
      destruct (Z.leb_spec (health s - 15) 0); reflexivity.
Qed.

(** X18: misses in a row, with no timer and no render in between, in either
    build.  From a positive health [h], [k] misses leave the health at
    [max 0 (h - 15 k)] and the phase as it was; the first [(h - 1) / 15]
    misses queue nothing and every miss after them queues one more
    [endGame(false)], so the game ends with the miss that brings [15 k] up
    to [h].  The score is untouched in [src/index.tsx] and drops by 50 a
    miss, not below 0, in [src/App.tsx]. *)
Theorem X18_misses_in_a_row (k : nat) (s : App) :
  (0 < health s)%Z ->
  endGameTimers s = O ->
  (0 <= score s)%Z ->
  (health (IndexTsx.run (repeat Miss k) s) = Z.max 0 (health s - 15 * Z.of_nat k) /\
   Z.of_nat (endGameTimers (IndexTsx.run (repeat Miss k) s))
   = Z.of_nat k - Z.min (Z.of_nat k) ((health s - 1) / 15) /\
   ((0 < endGameTimers (IndexTsx.run (repeat Miss k) s))%nat <->
    health s <= 15 * Z.of_nat k) /\
   score (IndexTsx.run (repeat Miss k) s) = score s /\
   gameStatus (IndexTsx.run (repeat Miss k) s) = gameStatus s)%Z /\
  (health (AppTsx.run (repeat Miss k) s) = Z.max 0 (health s - 15 * Z.of_nat k) /\
   Z.of_nat (endGameTimers (AppTsx.run (repeat Miss k) s))
   = Z.of_nat k - Z.min (Z.of_nat k) ((health s - 1) / 15) /\
   ((0 < endGameTimers (AppTsx.run (repeat Miss k) s))%nat <->
    health s <= 15 * Z.of_nat k) /\
   score (AppTsx.run (repeat Miss k) s) = Z.max 0 (score s - 50 * Z.of_nat k) /\
   gameStatus (AppTsx.run (repeat Miss k) s) = gameStatus s)%Z.
Proof.
  intros Hh Ht Hs.
  destruct (index_misses k s ltac:(lia)) as (H1 & H2 & H3 & H4).
  destruct (app_misses k s ltac:(lia)) as (H5 & H6 & H7 & H8).
  rewrite Ht in H2, H6. unfold missesSurvived in H2, H6.
  repeat split; try assumption; try (apply H7, Hs);
    try (Z.div_mod_to_equations; lia).
Qed.

Lemma X18_misses_in_a_row_witness :
  health (IndexTsx.run (repeat Miss 7) startedApp) = 0%Z /\
  (0 < endGameTimers (IndexTsx.run (repeat Miss 7) startedApp))%nat /\
  endGameTimers (IndexTsx.run (repeat Miss 6) startedApp) = O.
Proof.
  assert (Hh : (0 < health startedApp)%Z) by (cbn; lia).
  assert (Hs : (0 <= score startedApp)%Z) by (cbn; lia).
  destruct (X18_misses_in_a_row 7 startedApp Hh eq_refl Hs) as [(H1 & _ & H3 & _) _].
  destruct (X18_misses_in_a_row 6 startedApp Hh eq_refl Hs) as [(_ & H2 & _) _].
  split; [rewrite H1; reflexivity|]. split; [apply H3; cbn; lia|].
  apply Nat2Z.inj. rewrite H2. reflexivity.
Defined.

Lemma worth_index_step (a : Action) (s : App) :
  (stats_ok s /\ multiplier s <= 8 /\ multiplierSeen s <= 8 ->
   (stats_ok (IndexTsx.step a s) /\ multiplier (IndexTsx.step a s) <= 8 /\
    multiplierSeen (IndexTsx.step a s) <= 8) /\
   score s + 100 * hitCount [a] <= score (IndexTsx.step a s)
     <= score s + 1200 * hitCount [a])%Z.
Proof.
  intros (Hok & Hm & Hseen). split.
  - split; [apply stats_ok_index_step, Hok|].
    assert (Hr : (renderedMultiplier s <= 8)%Z).
    { unfold renderedMultiplier. destruct (pendingCombo s) as [c|]; [|exact Hm].
      pose proof (multiplierFor_values c). lia. }
    destruct a as [g| | |]; cbn [IndexTsx.step]; unfold handleNoteHit, handleNoteMiss,
      render, runTimer, endGame; repeat case_match; cbn [multiplier multiplierSeen]; lia.
  - destruct Hok as (_ & _ & _ & Hs1).
    destruct a as [g| | |]; cbn [IndexTsx.step]; unfold hitCount; cbn [List.filter length];
      unfold handleNoteHit, handleNoteMiss, render, runTimer, endGame;
      repeat case_match; cbn [score]; nia.
Qed.

Lemma hitCount_cons (a : Action) (actions : list Action) :
  hitCount (a :: actions) = (hitCount [a] + hitCount actions)%Z.
Proof. unfold hitCount. cbn [List.filter]. destruct a; cbn [length]; lia. Qed.

(** X19: what a hit is worth in [src/index.tsx].  From a state whose
    multipliers are at most 8, every run of the handlers, renders and
    timers raises the score by at least 100 and at most 1200 points for
    each hit it contains, and by nothing else: the score never goes down,
    and it stays as it is when there is no hit. *)
Theorem X19_index_hit_worth (actions : list Action) (s : App) :
  stats_ok s ->
  (multiplier s <= 8)%Z -> (multiplierSeen s <= 8)%Z ->
  (score s + 100 * hitCount actions <= score (IndexTsx.run actions s)
     <= score s + 1200 * hitCount actions)%Z.
Proof.
  revert s. induction actions as [|a actions IH]; intros s Hok Hm Hseen.
  - unfold hitCount. cbn. lia.
  - cbn [IndexTsx.run fold_left].
    destruct (worth_index_step a s (conj Hok (conj Hm Hseen))) as [(Hok1 & Hm1 & Hseen1) Hsc].
    specialize (IH _ Hok1 Hm1 Hseen1). unfold IndexTsx.run in IH.
    rewrite hitCount_cons. lia.
Qed.

Lemma X19_index_hit_worth_witness :
  (score startedApp + 100 * hitCount [Hit true; Miss; Hit false]
   <= score (IndexTsx.run [Hit true; Miss; Hit false] startedApp)
   <= score startedApp + 1200 * hitCount [Hit true; Miss; Hit false])%Z.
Proof.
  apply X19_index_hit_worth; [apply stats_ok_started|cbn; lia|cbn; lia].
Defined.
